(** * Cycles prefilter kernels and the point-cache custom-data writer and reader

    A shallow embedding of

    - [intern/cycles/kernel/filter/filter_prefilter.h]: the three per-pixel
      kernels [kernel_filter_divide_shadow], [kernel_filter_get_feature] and
      [kernel_filter_combine_halves];
    - [source/blender/pointcache/alembic/abc_customdata.cpp]: the per-layer
      sample writers and readers, their dispatch, the property names of the
      layers, [CustomDataWriter::write_sample] and
      [CustomDataReader::read_sample].

    C [int] is a 32-bit two's-complement integer kept in [Z] with the
    wrap-around written out, [float] is IEEE-754 binary32 built on the
    standard library's [SpecFloat] (round to nearest even, one rounding per
    operation), global memory is a finite map from float-sized cells to
    binary32 values shared by all the buffers passed to a kernel, and a kernel
    is a partial state transformer on that memory: it faults ([None]) when it
    touches a cell that is not allocated. *)

From Stdlib Require Import ZArith Lia Bool List Permutation Sorted.
From Stdlib Require Import Ascii String.
From Stdlib Require Import Floats.SpecFloat.
From stdpp Require Import gmap list strings pretty sorting.

Local Open Scope Z_scope.

(** ** C [int] arithmetic *)

Module Int32.

Definition int_min : Z := -2147483648.
Definition int_max : Z := 2147483647.

Definition in_range (z : Z) : Prop := int_min <= z <= int_max.

(** Reduction of a mathematical integer to its 32-bit signed residue. *)
Definition wrap (z : Z) : Z := (z + 2147483648) mod 4294967296 - 2147483648.

Definition add (a b : Z) : Z := wrap (a + b).
Definition sub (a b : Z) : Z := wrap (a - b).
Definition mul (a b : Z) : Z := wrap (a * b).
(** C division truncates toward zero. *)
Definition div (a b : Z) : Z := wrap (Z.quot a b).
Definition and (a b : Z) : Z := Z.land a b.
Definition not (a : Z) : Z := Z.lnot a.
(** [a << n] on [int].  The shift instruction takes the count of a 32-bit
    shift modulo 32; C leaves the shift undefined from a count of 32 on,
    and the loops over the layer types shift by every type code below
    [CD_NUMTYPES]. *)
Definition shl (a n : Z) : Z := wrap (Z.shiftl a (n mod 32)).

(** Modelled from the spec: [max] and [min] on [int] are not defined in
    these sources; they are the larger and the smaller of the two operands,
    written as the comparisons [a > b ? a : b] and [a < b ? a : b]. *)
Definition max (a b : Z) : Z := if a >? b then a else b.
Definition min (a b : Z) : Z := if a <? b then a else b.

(** Modelled from the spec: [align_up] is not defined in these sources; the
    spec describes it as rounding the width up to an alignment boundary,
    which for a power-of-two alignment is [(offset + alignment - 1) &
    ~(alignment - 1)]. *)
Definition align_up (offset alignment : Z) : Z :=
  and (sub (add offset alignment) 1) (not (sub alignment 1)).

End Int32.

(** ** C [float] arithmetic: IEEE-754 binary32 *)

Module F32.

Definition prec : Z := 24.
Definition emax : Z := 128.

Definition add : spec_float -> spec_float -> spec_float := SFadd prec emax.
Definition sub : spec_float -> spec_float -> spec_float := SFsub prec emax.
Definition mul : spec_float -> spec_float -> spec_float := SFmul prec emax.
Definition div : spec_float -> spec_float -> spec_float := SFdiv prec emax.

(** Conversion [(float)n] of an [int]. *)
Definition of_int (n : Z) : spec_float := binary_normalize prec emax n 0 false.

(** [a > b]; false as soon as one operand is a NaN. *)
Definition gt (a b : spec_float) : bool := SFltb b a.
(** [a >= b]. *)
Definition ge (a b : spec_float) : bool := SFleb b a.

(** Modelled from the spec: [max] on [float] is not defined in these
    sources; it is the larger of the two operands, written as the
    comparison [a > b ? a : b]. *)
Definition max (a b : spec_float) : spec_float := if gt a b then a else b.

(** The literals [0.0f], [0.5f], [0.25f] and [1e-7f]. *)
Definition zero : spec_float := S754_zero false.
Definition half : spec_float := S754_finite false 8388608 (-24).
Definition quarter : spec_float := S754_finite false 8388608 (-25).
Definition eps : spec_float := S754_finite false 14073749 (-47).

Definition is_nan (a : spec_float) : bool :=
  match a with S754_nan => true | _ => false end.

Definition is_finite (a : spec_float) : bool :=
  match a with S754_zero _ | S754_finite _ _ _ => true | _ => false end.

(** A value that a binary32 cell can hold. *)
Definition valid (a : spec_float) : bool := valid_binary prec emax a.

End F32.

Arguments F32.add : simpl never.
Arguments F32.sub : simpl never.
Arguments F32.mul : simpl never.
Arguments F32.div : simpl never.
Arguments F32.max : simpl never.
Arguments F32.of_int : simpl never.
Arguments Int32.wrap : simpl never.
Arguments Int32.add : simpl never.
Arguments Int32.sub : simpl never.
Arguments Int32.mul : simpl never.
Arguments Int32.div : simpl never.
Arguments Int32.align_up : simpl never.

(** ** Global memory *)

(** Addresses count [float] cells.  A buffer is the address of its first
    cell; two buffers alias when their cells coincide. *)
Abbreviation memory := (gmap Z spec_float).

Definition load (m : memory) (p : Z) : option spec_float := m !! p.

Definition store (m : memory) (p : Z) (v : spec_float) : option memory :=
  match m !! p with
  | Some _ => Some (<[p := v]> m)
  | None => None
  end.

(** The cells [base, base + length l) holding [l]. *)
Definition cells (base : Z) (l : list spec_float) : memory :=
  list_to_map (zip (seqZ base (Z.of_nat (length l))) l).

(** ** Kernel parameter types *)

(** [int4]. *)
Record int4 := mk_int4 { i4x : Z; i4y : Z; i4z : Z; i4w : Z }.

(** [TilesInfo]: the 3x3 neighbourhood of render tiles.  The declaration is
    not part of these sources; the fields are the ones the kernels read:
    [x[4]] and [y[4]] (tile boundaries), and per tile the [offsets], the
    [strides] and the address of the render buffer. *)
Record TilesInfo := mk_TilesInfo {
  offsets : list Z;
  strides : list Z;
  tiles_x : list Z;
  tiles_y : list Z;
  buffers : list Z
}.

Definition tiles_wf (t : TilesInfo) : Prop :=
  length (offsets t) = 9%nat /\ length (strides t) = 9%nat /\
  length (tiles_x t) = 4%nat /\ length (tiles_y t) = 4%nat /\
  length (buffers t) = 9%nat.

(** ** The kernels *)

Section Kernels.

Import Int32.

(** The index of pixel [(x, y)] in the rectangle-space arrays, computed by
    all three kernels as
    [buffer_w = align_up(rect.z - rect.x, 4)] and
    [idx = (y-rect.y)*buffer_w + (x - rect.x)]. *)
Definition buffer_w (rect : int4) : Z := align_up (sub (i4z rect) (i4x rect)) 4.

Definition rect_index (rect : int4) (x y : Z) : Z :=
  add (mul (sub y (i4y rect)) (buffer_w rect)) (sub x (i4x rect)).

(** The sub-sample counts [odd_sample = (sample+1)/2] and
    [even_sample = sample/2] of the shadow kernel. *)
Definition odd_sample (sample : Z) : Z := div (add sample 1) 2.
Definition even_sample (sample : Z) : Z := div sample 2.

Definition kernel_filter_divide_shadow
    (sample : Z) (tiles : TilesInfo) (x y : Z)
    (unfilteredA unfilteredB sampleVariance sampleVarianceV bufferVariance : Z)
    (rect : int4) (buffer_pass_stride buffer_denoising_offset : Z)
    (use_split_variance : bool) (m : memory) : option memory :=
  x1 ← tiles_x tiles !! 1%nat;
  x2 ← tiles_x tiles !! 2%nat;
  y1 ← tiles_y tiles !! 1%nat;
  y2 ← tiles_y tiles !! 2%nat;
  let xtile := if x <? x1 then 0 else if x <? x2 then 1 else 2 in
  let ytile := if y <? y1 then 0 else if y <? y2 then 1 else 2 in
  let tile := add (mul ytile 3) xtile in
  offset ← offsets tiles !! Z.to_nat tile;
  stride ← strides tiles !! Z.to_nat tile;
  buffer ← buffers tiles !! Z.to_nat tile;
  let center_buffer := buffer + mul (add (add (mul y stride) x) offset) buffer_pass_stride in
  let center_buffer := center_buffer + add buffer_denoising_offset 14 in
  let idx := rect_index rect x y in
  c1 ← load m (center_buffer + 1);
  c0 ← load m (center_buffer + 0);
  m ← store m (unfilteredA + idx) (F32.div c1 (F32.max c0 F32.eps));
  c4 ← load m (center_buffer + 4);
  c3 ← load m (center_buffer + 3);
  m ← store m (unfilteredB + idx) (F32.div c4 (F32.max c3 F32.eps));
  varA ← load m (center_buffer + 2);
  varB ← load m (center_buffer + 5);
  let odd_sample := odd_sample sample in
  let even_sample := even_sample sample in
  '(varA, varB) ←
    (if use_split_variance then
       a ← load m (unfilteredA + idx);
       a' ← load m (unfilteredA + idx);
       b ← load m (unfilteredB + idx);
       b' ← load m (unfilteredB + idx);
       Some (F32.max F32.zero (F32.sub varA (F32.mul (F32.mul a a') (F32.of_int odd_sample))),
             F32.max F32.zero (F32.sub varB (F32.mul (F32.mul b b') (F32.of_int even_sample))))
     else Some (varA, varB));
  let varA := F32.div varA (F32.of_int (sub odd_sample 1)) in
  let varB := F32.div varB (F32.of_int (sub even_sample 1)) in
  m ← store m (sampleVariance + idx)
        (F32.div (F32.mul F32.half (F32.add varA varB)) (F32.of_int sample));
  m ← store m (sampleVarianceV + idx)
        (F32.div (F32.mul (F32.mul F32.half (F32.sub varA varB)) (F32.sub varA varB))
                 (F32.of_int (mul sample sample)));
  a ← load m (unfilteredA + idx);
  b ← load m (unfilteredB + idx);
  a' ← load m (unfilteredA + idx);
  b' ← load m (unfilteredB + idx);
  store m (bufferVariance + idx)
        (F32.mul (F32.mul F32.half (F32.sub a b)) (F32.sub a' b')).

Definition kernel_filter_get_feature
    (sample : Z) (tiles : TilesInfo) (m_offset v_offset : Z) (x y : Z)
    (mean variance : Z) (rect : int4)
    (buffer_pass_stride buffer_denoising_offset : Z)
    (use_split_variance : bool) (m : memory) : option memory :=
  x1 ← tiles_x tiles !! 1%nat;
  x2 ← tiles_x tiles !! 2%nat;
  y1 ← tiles_y tiles !! 1%nat;
  y2 ← tiles_y tiles !! 2%nat;
  let xtile := if x <? x1 then 0 else if x <? x2 then 1 else 2 in
  let ytile := if y <? y1 then 0 else if y <? y2 then 1 else 2 in
  let tile := add (mul ytile 3) xtile in
  buffer ← buffers tiles !! Z.to_nat tile;
  offset ← offsets tiles !! Z.to_nat tile;
  stride ← strides tiles !! Z.to_nat tile;
  let center_buffer :=
    buffer + mul (add (add offset (mul y stride)) x) buffer_pass_stride
           + buffer_denoising_offset in
  let idx := rect_index rect x y in
  cm ← load m (center_buffer + m_offset);
  m ← store m (mean + idx) (F32.div cm (F32.of_int sample));
  if use_split_variance then
    cv ← load m (center_buffer + v_offset);
    mu ← load m (mean + idx);
    mu' ← load m (mean + idx);
    store m (variance + idx)
      (F32.max F32.zero
         (F32.div (F32.sub cv (F32.mul (F32.mul mu mu') (F32.of_int sample)))
                  (F32.of_int (mul sample (sub sample 1)))))
  else
    cv ← load m (center_buffer + v_offset);
    store m (variance + idx)
      (F32.div cv (F32.of_int (mul sample (sub sample 1)))).

(** *** The half combiner *)

(** A counted [for] loop [for (i = lo; i < hi; i++)] whose bounds the body
    does not change. *)
Fixpoint for_loop {S : Type} (n : nat) (i : Z) (body : Z -> S -> option S)
    (s : S) : option S :=
  match n with
  | O => Some s
  | Datatypes.S n' => s' ← body i s; for_loop n' (i + 1) body s'
  end.

Definition for_range {S : Type} (lo hi : Z) (body : Z -> S -> option S)
    (s : S) : option S :=
  for_loop (Z.to_nat (hi - lo)) lo body s.

(** The local array [float values[25]].  A cell is [None] until it is
    written; reading such a cell, or indexing outside the array, faults. *)
Definition values_get (values : list (option spec_float)) (i : Z)
    : option spec_float :=
  if 0 <=? i then
    match values !! Z.to_nat i with
    | Some (Some v) => Some v
    | _ => None
    end
  else None.

Definition values_set (values : list (option spec_float)) (i : Z)
    (v : spec_float) : option (list (option spec_float)) :=
  if (0 <=? i) && (i <? Z.of_nat (length values))
  then Some (<[Z.to_nat i := Some v]> values)
  else None.

(** Body of the gathering loops. *)
Definition gather_pixel (a b : Z) (rect : int4) (m : memory)
    (py px : Z) (st : Z * list (option spec_float))
    : option (Z * list (option spec_float)) :=
  let '(numValues, values) := st in
  let pidx := rect_index rect px py in
  a1 ← load m (a + pidx);
  b1 ← load m (b + pidx);
  a2 ← load m (a + pidx);
  b2 ← load m (b + pidx);
  values ← values_set values numValues
             (F32.mul (F32.mul F32.quarter (F32.sub a1 b1)) (F32.sub a2 b2));
  Some (add numValues 1, values).

(** The inner loop of the insertion sort,
    [for (j = i-1; j >= 0 && values[j] > v; j--) values[j+1] = values[j];],
    returning the final [j].  [fuel] bounds the number of moves. *)
Fixpoint sort_shift (fuel : nat) (v : spec_float) (j : Z)
    (values : list (option spec_float))
    : option (Z * list (option spec_float)) :=
  if j >=? 0 then
    vj ← values_get values j;
    if F32.gt vj v then
      match fuel with
      | O => None
      | Datatypes.S fuel' =>
          values ← values_set values (add j 1) vj;
          sort_shift fuel' v (sub j 1) values
      end
    else Some (j, values)
  else Some (j, values).

Definition sort_step (i : Z) (values : list (option spec_float))
    : option (list (option spec_float)) :=
  v ← values_get values i;
  '(j, values) ← sort_shift (Z.to_nat i) v (sub i 1) values;
  values_set values (add j 1) v.

Definition insertion_sort (numValues : Z) (values : list (option spec_float))
    : option (list (option spec_float)) :=
  for_range 1 numValues sort_step values.

Definition kernel_filter_combine_halves
    (x y : Z) (mean variance : option Z) (a b : Z) (rect : int4) (r : Z)
    (m : memory) : option memory :=
  let idx := rect_index rect x y in
  m ← match mean with
      | Some mean =>
          a0 ← load m (a + idx);
          b0 ← load m (b + idx);
          store m (mean + idx) (F32.mul F32.half (F32.add a0 b0))
      | None => Some m
      end;
  match variance with
  | Some variance =>
      if r =? 0 then
        a1 ← load m (a + idx);
        b1 ← load m (b + idx);
        a2 ← load m (a + idx);
        b2 ← load m (b + idx);
        store m (variance + idx)
          (F32.mul (F32.mul F32.quarter (F32.sub a1 b1)) (F32.sub a2 b2))
      else
        m ← store m (variance + idx) F32.zero;
        '(numValues, values) ←
          for_range (max (sub y r) (i4y rect)) (min (add (add y r) 1) (i4w rect))
            (fun py =>
               for_range (max (sub x r) (i4x rect)) (min (add (add x r) 1) (i4z rect))
                 (fun px => gather_pixel a b rect m py px))
            (0, replicate 25 None);
        values ← insertion_sort numValues values;
        v ← values_get values (div (mul 7 numValues) 8);
        store m (variance + idx) v
  | None => Some m
  end.

End Kernels.

(** ** The point-cache custom-data reader *)

Module PTC.

(** [PTCReadSampleResult]; only the two values this file uses. *)
Inductive PTCReadSampleResult :=
| PTC_READ_SAMPLE_INVALID
| PTC_READ_SAMPLE_EXACT.

(** Element types of the property store and of the layers. *)
Record C4f := mk_C4f { c4_r : spec_float; c4_g : spec_float; c4_b : spec_float; c4_a : spec_float }.
Record V2f := mk_V2f { v2_x : spec_float; v2_y : spec_float }.
Record MCol := mk_MCol { mcol_r : Z; mcol_g : Z; mcol_b : Z; mcol_a : Z }.
Record MDeformWeight := mk_MDeformWeight { def_nr : Z; weight : spec_float }.
Record MDeformVert := mk_MDeformVert { dw : list MDeformWeight; totweight : Z; flag : Z }.
Record OrigSpaceFace := mk_OrigSpaceFace { uv0 : V2f; uv1 : V2f; uv2 : V2f; uv3 : V2f }.

(** The property store at the sample picked by the sample selector: an
    array property holds one array sample, a compound property holds named
    children in their stored order. *)
#[local] Unset Elimination Schemes.
Inductive property :=
| PInt32Array (l : list Z)
| PFloatArray (l : list spec_float)
| PC4fArray (l : list C4f)
| PV2fArray (l : list V2f)
| PCompound (children : list (string * property)).
#[local] Set Elimination Schemes.

Fixpoint get_property (children : list (string * property)) (name : string)
    : option property :=
  match children with
  | [] => None
  | (n, p) :: rest => if decide (n = name) then Some p else get_property rest name
  end.

(** [add_compound_property] and [add_array_property] of the reader open the
    child of that name and kind under [parent]; they are declared in the
    header, which is not part of these sources.  Opening a child that is
    missing or of another kind faults. *)
Definition add_compound_property (name : string) (parent : list (string * property))
    : option (list (string * property)) :=
  match get_property parent name with
  | Some (PCompound c) => Some c
  | _ => None
  end.

Definition add_int32_array (name : string) (parent : list (string * property))
    : option (list Z) :=
  match get_property parent name with Some (PInt32Array l) => Some l | _ => None end.

Definition add_float_array (name : string) (parent : list (string * property))
    : option (list spec_float) :=
  match get_property parent name with Some (PFloatArray l) => Some l | _ => None end.

Definition add_c4f_array (name : string) (parent : list (string * property))
    : option (list C4f) :=
  match get_property parent name with Some (PC4fArray l) => Some l | _ => None end.

Definition add_v2f_array (name : string) (parent : list (string * property))
    : option (list V2f) :=
  match get_property parent name with Some (PV2fArray l) => Some l | _ => None end.

(** What a reader leaves in the layer it was given: [Unwritten] when it
    returns before copying anything. *)
Inductive layer_data :=
| Unwritten
| DeformVerts (l : list MDeformVert)
| Cols (l : list MCol)
| OrigIndex (l : list Z)
| OrigSpace (l : list OrigSpaceFace).

(** [sample->size() != num_data]: the size is a [size_t], to which the
    [int] is converted before the comparison. *)
Definition size_differs {A : Type} (sample : list A) (num_data : Z) : bool :=
  negb (Z.of_nat (length sample) =? num_data mod 18446744073709551616).

(** Conversion of a [float] to the [unsigned char] of an [MCol] channel:
    truncation toward zero, reduced to eight bits. *)
Definition uchar_of_float (f : spec_float) : Z :=
  match f with
  | S754_finite s m e =>
      let v := if e >=? 0 then Z.pos m * 2 ^ e else Z.pos m / 2 ^ (- e) in
      (if s then - v else v) mod 256
  | _ => 0
  end.

(** The copying loop of [read_sample<CD_MDEFORMVERT>]: one vertex per
    iteration, its weights taken from the running cursors into the
    [def_nr] and [weight] samples.  Reading past the end of a sample
    faults. *)
Fixpoint read_weights (n : nat) (data_def_nr : list Z) (data_weight : list spec_float)
    : option (list MDeformWeight * list Z * list spec_float) :=
  match n with
  | O => Some ([], data_def_nr, data_weight)
  | S n' =>
      match data_def_nr, data_weight with
      | d :: ds, w :: ws =>
          '(mw, ds', ws') ← read_weights n' ds ws;
          Some (mk_MDeformWeight d w :: mw, ds', ws')
      | _, _ => None
      end
  end.

Fixpoint read_deform_verts (n : nat) (data_totweight data_flag data_def_nr : list Z)
    (data_weight : list spec_float) : option (list MDeformVert) :=
  match n with
  | O => Some []
  | S n' =>
      match data_totweight, data_flag with
      | t :: ts, f :: fs =>
          '(mw, ds, ws) ← read_weights (Z.to_nat t) data_def_nr data_weight;
          rest ← read_deform_verts n' ts fs ds ws;
          Some (mk_MDeformVert mw t f :: rest)
      | _, _ => None
      end
  end.

Definition read_sample_MDEFORMVERT (parent : list (string * property))
    (name : string) (num_data : Z) : option (PTCReadSampleResult * layer_data) :=
  prop ← add_compound_property name parent;
  sample_totweight ← add_int32_array (name +:+ ":totweight") prop;
  sample_flag ← add_int32_array (name +:+ ":flag") prop;
  sample_def_nr ← add_int32_array (name +:+ ":def_nr") prop;
  sample_weight ← add_float_array (name +:+ ":weight") prop;
  if size_differs sample_totweight num_data || size_differs sample_flag num_data
  then Some (PTC_READ_SAMPLE_INVALID, Unwritten)
  else
    mdef ← read_deform_verts (Z.to_nat num_data) sample_totweight sample_flag
              sample_def_nr sample_weight;
    Some (PTC_READ_SAMPLE_EXACT, DeformVerts mdef).

Definition read_sample_MCOL (parent : list (string * property))
    (name : string) (num_data : Z) : option (PTCReadSampleResult * layer_data) :=
  sample ← add_c4f_array name parent;
  if size_differs sample num_data
  then Some (PTC_READ_SAMPLE_INVALID, Unwritten)
  else
    Some (PTC_READ_SAMPLE_EXACT,
          Cols ((fun c => mk_MCol (uchar_of_float (c4_r c)) (uchar_of_float (c4_g c))
                                  (uchar_of_float (c4_b c)) (uchar_of_float (c4_a c)))
                  <$> take (Z.to_nat num_data) sample)).

Definition read_sample_ORIGINDEX (parent : list (string * property))
    (name : string) (num_data : Z) : option (PTCReadSampleResult * layer_data) :=
  sample ← add_int32_array name parent;
  if size_differs sample num_data
  then Some (PTC_READ_SAMPLE_INVALID, Unwritten)
  else Some (PTC_READ_SAMPLE_EXACT, OrigIndex (take (Z.to_nat num_data) sample)).

(** The copying loop of [read_sample<CD_ORIGSPACE>]. *)
Fixpoint read_orig_space (n : nat) (data0 data1 data2 data3 : list V2f)
    : option (list OrigSpaceFace) :=
  match n with
  | O => Some []
  | S n' =>
      match data0, data1, data2, data3 with
      | a :: d0, b :: d1, c :: d2, d :: d3 =>
          rest ← read_orig_space n' d0 d1 d2 d3;
          Some (mk_OrigSpaceFace a b c d :: rest)
      | _, _, _, _ => None
      end
  end.

Definition read_sample_ORIGSPACE (parent : list (string * property))
    (name : string) (num_data : Z) : option (PTCReadSampleResult * layer_data) :=
  prop ← add_compound_property name parent;
  sample0 ← add_v2f_array (name +:+ ":uv0") prop;
  sample1 ← add_v2f_array (name +:+ ":uv1") prop;
  sample2 ← add_v2f_array (name +:+ ":uv2") prop;
  sample3 ← add_v2f_array (name +:+ ":uv3") prop;
  if size_differs sample0 num_data || size_differs sample1 num_data ||
     size_differs sample2 num_data || size_differs sample3 num_data
  then Some (PTC_READ_SAMPLE_INVALID, Unwritten)
  else
    ospace ← read_orig_space (Z.to_nat num_data) sample0 sample1 sample2 sample3;
    Some (PTC_READ_SAMPLE_EXACT, OrigSpace ospace).

(** What a [const char *] to the first character of [s] denotes: the
    characters before the first NUL. *)
Fixpoint c_str (s : string) : string :=
  match s with
  | EmptyString => EmptyString
  | String c s' => if decide (c = Ascii.zero) then EmptyString else String c (c_str s')
  end.

(** The layer type codes and the size [MAX_CUSTOMDATA_LAYER_NAME] of a
    layer name of [DNA_customdata_types.h], and the helpers of
    [BKE_customdata.h] and [BLI_string.h], are not part of these sources;
    the reader is parametric in them.  [BLI_strncpy src maxncpy] is what
    the call leaves in its destination. *)
Record CustomDataTypes := mk_CustomDataTypes {
  CD_MDEFORMVERT : nat;
  CD_MCOL : nat;
  CD_ORIGINDEX : nat;
  CD_ORIGSPACE : nat;
  CD_NUMTYPES : nat;
  CustomData_layertype_name : nat -> string;
  MAX_CUSTOMDATA_LAYER_NAME : Z;
  BLI_strncpy : string -> Z -> string
}.

Section Reader.

Variable cd : CustomDataTypes.

(** [read_sample<CDTYPE>]: the specialisation for the type code if there
    is one, else the generic template, which only reports the missing
    implementation. *)
Definition read_sample (CDTYPE : nat) (parent : list (string * property))
    (name : string) (num_data : Z) : option (PTCReadSampleResult * layer_data) :=
  if decide (CDTYPE = CD_MDEFORMVERT cd) then read_sample_MDEFORMVERT parent name num_data
  else if decide (CDTYPE = CD_MCOL cd) then read_sample_MCOL parent name num_data
  else if decide (CDTYPE = CD_ORIGINDEX cd) then read_sample_ORIGINDEX parent name num_data
  else if decide (CDTYPE = CD_ORIGSPACE cd) then read_sample_ORIGSPACE parent name num_data
  else Some (PTC_READ_SAMPLE_INVALID, Unwritten).

(** [read_sample_call<CDTYPE>], the recursive template; [k] counts the
    instantiations left before the terminator [CD_NUMTYPES], so the
    instantiation is [CDTYPE = CD_NUMTYPES - k]. *)
Fixpoint read_sample_call_from (k : nat) (CDTYPE : nat)
    (parent : list (string * property)) (type : nat) (name : string)
    (num_data : Z) : option (PTCReadSampleResult * layer_data) :=
  match k with
  | O => Some (PTC_READ_SAMPLE_INVALID, Unwritten)
  | S k' =>
      if decide (type = CDTYPE) then read_sample CDTYPE parent name num_data
      else read_sample_call_from k' (S CDTYPE) parent type name num_data
  end.

(** [read_sample_call<0>]. *)
Definition read_sample_call (parent : list (string * property)) (type : nat)
    (name : string) (num_data : Z) : option (PTCReadSampleResult * layer_data) :=
  read_sample_call_from (CD_NUMTYPES cd) 0 parent type name num_data.

(** A layer added to the [CustomData] by the reader. *)
Record Layer := mk_Layer {
  layer_type : nat;
  layer_name : string;
  layer_contents : layer_data
}.

(** [cdtype_from_name], as far as its caller uses it: what it leaves in
    [layer_name], which for a name with the tag [S] after the prefix
    [<m_name>:<layertype_name>:] is what [BLI_strncpy] copies of
    [name.c_str() + start + 1] into a buffer of [max_layer_name]
    characters, and the empty string for an unnamed ([N]) or malformed
    property name. *)
Definition cdtype_from_name (m_name : string) (name : string) (type : nat)
    (max_layer_name : Z) : string :=
  let start := (String.length m_name + 1
                + String.length (CustomData_layertype_name cd type) + 1)%nat in
  if decide (String.length name ≤ start)%nat then ""
  else match String.get start name with
       | Some "S"%char =>
           BLI_strncpy cd
             (c_str (String.substring (S start) (String.length name - S start) name))
             max_layer_name
       | _ => ""
       end.

(** The loop over the properties of one layer type; [layer_name] is a
    buffer of [MAX_CUSTOMDATA_LAYER_NAME] characters. *)
Fixpoint read_layers (m_name : string) (type : nat) (num_data : Z)
    (layertype_props props : list (string * property)) (cdata : list Layer)
    : option (list Layer) :=
  match props with
  | [] => Some cdata
  | (name, _) :: rest =>
      let layer_name :=
        cdtype_from_name m_name name type (MAX_CUSTOMDATA_LAYER_NAME cd) in
      '(_, data) ← read_sample_call layertype_props type name num_data;
      read_layers m_name type num_data layertype_props rest
        (cdata ++ [mk_Layer type layer_name data])
  end.

(** The loop over the layer types, [type] running from [CD_NUMTYPES - k]. *)
Fixpoint read_types (k : nat) (type : nat) (m_name : string) (m_cdmask : Z)
    (num_data : Z) (m_props : list (string * property)) (cdata : list Layer)
    : option (list Layer) :=
  match k with
  | O => Some cdata
  | S k' =>
      let mask := Int32.shl 1 (Z.of_nat type) in
      if Z.land mask m_cdmask =? 0
      then read_types k' (S type) m_name m_cdmask num_data m_props cdata
      else
        match get_property m_props
                (m_name +:+ ":" +:+ CustomData_layertype_name cd type) with
        | None => read_types k' (S type) m_name m_cdmask num_data m_props cdata
        | Some (PCompound layertype_props) =>
            cdata ← read_layers m_name type num_data layertype_props
                      layertype_props cdata;
            read_types k' (S type) m_name m_cdmask num_data m_props cdata
        | Some _ => None
        end
  end.

(** [CustomDataReader::read_sample]. *)
Definition CustomDataReader_read_sample (m_name : string) (m_cdmask : Z)
    (cdata : list Layer) (num_data : Z) (parent : list (string * property))
    : option (PTCReadSampleResult * list Layer) :=
  m_props ← add_compound_property m_name parent;
  cdata ← read_types (CD_NUMTYPES cd) 0 m_name m_cdmask num_data m_props cdata;
  Some (PTC_READ_SAMPLE_EXACT, cdata).

End Reader.

End PTC.

(** ** The property names of the custom-data layers *)

Module PTCNames.

Import PTC.

Section Names.

Variable cd : CustomDataTypes.

(** [CustomData] and [CustomData_get_layer_name] of [BKE_customdata.h],
    [BLI_strncpy], and the insertion and extraction of an [int] on a
    string stream are not part of these sources; the two functions are
    parametric in them.  [CustomData_get_layer_name] returns [None] for a
    null pointer, [format_int n] is what [ss << n] leaves in the stream,
    [extract_int s] what [ss >> n] leaves in [n] for the stream
    content [s], and [BLI_strncpy src maxncpy] what the call leaves in its
    destination. *)
Variable CustomData : Type.
Variable CustomData_get_layer_name : CustomData -> nat -> Z -> option string.
Variable format_int : Z -> string.
Variable extract_int : string -> Z.
Variable BLI_strncpy : string -> Z -> string.

(** [CustomDataWriter::cdtype_to_name]. *)
Definition cdtype_to_name (m_name : string) (cdata : CustomData) (type : nat) (n : Z)
    : string :=
  let layertype_name := CustomData_layertype_name cd type in
  let layer_name := CustomData_get_layer_name cdata type n in
  match layer_name with
  | Some (String c s) =>
      if decide (c = Ascii.zero)
      then m_name +:+ ":" +:+ layertype_name +:+ ":N" +:+ format_int n
      else m_name +:+ ":" +:+ layertype_name +:+ ":S" +:+ c_str (String c s)
  | _ => m_name +:+ ":" +:+ layertype_name +:+ ":N" +:+ format_int n
  end.

(** [CustomDataReader::cdtype_from_name]: the values it leaves in [n] and
    in [layer_name]. *)
Definition cdtype_from_name (m_name : string) (name : string) (type : nat)
    (max_layer_name : Z) : Z * string :=
  let layertype_name := CustomData_layertype_name cd type in
  let start := (String.length m_name + 1 + String.length layertype_name + 1)%nat in
  if decide (String.length name ≤ start)%nat then (-1, EmptyString)
  else
    let rest := c_str (String.substring (S start) (String.length name - S start) name) in
    match String.get start name with
    | Some "S"%char => (-1, BLI_strncpy rest max_layer_name)
    | Some "N"%char => (extract_int rest, EmptyString)
    | _ => (-1, EmptyString)
    end.

End Names.

End PTCNames.

(** ** The point-cache custom-data writer *)

Module PTCWriter.

Import PTC.

(** The kind of a property: the four array kinds and the compound. *)
Definition kind (p : property) : nat :=
  match p with
  | PInt32Array _ => 0
  | PFloatArray _ => 1
  | PC4fArray _ => 2
  | PV2fArray _ => 3
  | PCompound _ => 4
  end.

(** Modelled from the spec: the property store lets the writer create or
    open a named compound under a parent and a named typed array property
    under a compound.  [add_compound_property] and [add_array_property] of
    the writer are declared in the header, which is not part of these
    sources: [add_property] adds a child of the kind of [empty] after the
    children there are, or opens the child of that name; a child of that
    name and of another kind faults. *)
Definition add_property (name : string) (empty : property)
    (parent : list (string * property)) : option (list (string * property)) :=
  match get_property parent name with
  | None => Some (parent ++ [(name, empty)])
  | Some q => if decide (kind q = kind empty) then Some parent else None
  end.

Definition add_compound_property (name : string) := add_property name (PCompound []).
Definition add_int32_array (name : string) := add_property name (PInt32Array []).
Definition add_float_array (name : string) := add_property name (PFloatArray []).
Definition add_c4f_array (name : string) := add_property name (PC4fArray []).
Definition add_v2f_array (name : string) := add_property name (PV2fArray []).

(** Modelled from the spec: writing a full array sample, [prop.set(sample)],
    replaces what the property of that name holds at the sample. *)
Fixpoint set_property (name : string) (p : property)
    (children : list (string * property)) : list (string * property) :=
  match children with
  | [] => []
  | (n, q) :: rest =>
      if decide (n = name) then (n, p) :: rest else (n, q) :: set_property name p rest
  end.

(** The statements that work on the handle [prop] of a compound child of
    [parent]: they see its children and leave it changed under its
    parent. *)
Definition in_compound (name : string) (parent : list (string * property))
    (body : list (string * property) -> option (list (string * property)))
    : option (list (string * property)) :=
  match get_property parent name with
  | Some (PCompound children) =>
      children ← body children;
      Some (set_property name (PCompound children) parent)
  | _ => None
  end.

(** [std::vector::reserve] takes a [size_t]: a negative [int] converts to
    a size above [max_size()], for which the call throws. *)
Definition reserve (n : Z) : option unit := if n <? 0 then None else Some tt.

(** The first loop of [write_sample<CD_MDEFORMVERT>], which sums
    [mdef[i].totweight] over the [num_data] vertices.  Reading past the end
    of the layer faults. *)
Fixpoint sum_totweight (n : nat) (mdef : list MDeformVert) (num_mdefweight : Z)
    : option Z :=
  match n with
  | O => Some num_mdefweight
  | S n' =>
      match mdef with
      | v :: rest => sum_totweight n' rest (Int32.add num_mdefweight (totweight v))
      | [] => None
      end
  end.

(** The inner loop over the [totweight] weights of one vertex. *)
Fixpoint write_weights (n : nat) (mw : list MDeformWeight)
    : option (list Z * list spec_float) :=
  match n with
  | O => Some ([], [])
  | S n' =>
      match mw with
      | w :: rest =>
          '(ds, ws) ← write_weights n' rest;
          Some (def_nr w :: ds, weight w :: ws)
      | [] => None
      end
  end.

(** The second loop: [totweight_data], [flag_data], [def_nr_data] and
    [weight_data] as the [push_back]s leave them. *)
Fixpoint write_deform_verts (n : nat) (mdef : list MDeformVert)
    : option (list Z * list Z * list Z * list spec_float) :=
  match n with
  | O => Some ([], [], [], [])
  | S n' =>
      match mdef with
      | v :: rest =>
          '(ds, ws) ← write_weights (Z.to_nat (totweight v)) (dw v);
          '(ts, fs, ds', ws') ← write_deform_verts n' rest;
          Some (totweight v :: ts, flag v :: fs, ds ++ ds', ws ++ ws')
      | [] => None
      end
  end.

Definition write_sample_MDEFORMVERT (parent : list (string * property))
    (name : string) (data : list MDeformVert) (num_data : Z)
    : option (list (string * property)) :=
  parent ← add_compound_property name parent;
  in_compound name parent (fun prop =>
    prop ← add_int32_array (name +:+ ":totweight") prop;
    prop ← add_int32_array (name +:+ ":flag") prop;
    prop ← add_int32_array (name +:+ ":def_nr") prop;
    prop ← add_float_array (name +:+ ":weight") prop;
    num_mdefweight ← sum_totweight (Z.to_nat num_data) data 0;
    _ ← reserve num_data;
    _ ← reserve num_data;
    _ ← reserve num_mdefweight;
    _ ← reserve num_mdefweight;
    '(totweight_data, flag_data, def_nr_data, weight_data) ←
      write_deform_verts (Z.to_nat num_data) data;
    let prop := set_property (name +:+ ":totweight") (PInt32Array totweight_data) prop in
    let prop := set_property (name +:+ ":flag") (PInt32Array flag_data) prop in
    let prop := set_property (name +:+ ":def_nr") (PInt32Array def_nr_data) prop in
    Some (set_property (name +:+ ":weight") (PFloatArray weight_data) prop)).

(** The loop of [write_sample<CD_MCOL>]; the [unsigned char] channels
    convert to [float]. *)
Fixpoint write_cols (n : nat) (mcol : list MCol) : option (list C4f) :=
  match n with
  | O => Some []
  | S n' =>
      match mcol with
      | c :: rest =>
          mcol_data ← write_cols n' rest;
          Some (mk_C4f (F32.of_int (mcol_r c)) (F32.of_int (mcol_g c))
                       (F32.of_int (mcol_b c)) (F32.of_int (mcol_a c)) :: mcol_data)
      | [] => None
      end
  end.

Definition write_sample_MCOL (parent : list (string * property))
    (name : string) (data : list MCol) (num_data : Z)
    : option (list (string * property)) :=
  parent ← add_c4f_array name parent;
  _ ← reserve num_data;
  mcol_data ← write_cols (Z.to_nat num_data) data;
  Some (set_property name (PC4fArray mcol_data) parent).

(** [write_sample<CD_ORIGINDEX>]: the sample is the [num_data] first
    integers of the layer, the count converted to [size_t]. *)
Definition write_sample_ORIGINDEX (parent : list (string * property))
    (name : string) (data : list Z) (num_data : Z)
    : option (list (string * property)) :=
  parent ← add_int32_array name parent;
  let size := Z.to_nat (num_data mod 18446744073709551616) in
  if decide (size ≤ length data)%nat
  then Some (set_property name (PInt32Array (take size data)) parent)
  else None.

(** The loop of [write_sample<CD_ORIGSPACE>]. *)
Fixpoint write_orig_space (n : nat) (ospace : list OrigSpaceFace)
    : option (list V2f * list V2f * list V2f * list V2f) :=
  match n with
  | O => Some ([], [], [], [])
  | S n' =>
      match ospace with
      | f :: rest =>
          '(d0, d1, d2, d3) ← write_orig_space n' rest;
          Some (uv0 f :: d0, uv1 f :: d1, uv2 f :: d2, uv3 f :: d3)
      | [] => None
      end
  end.

Definition write_sample_ORIGSPACE (parent : list (string * property))
    (name : string) (data : list OrigSpaceFace) (num_data : Z)
    : option (list (string * property)) :=
  parent ← add_compound_property name parent;
  in_compound name parent (fun prop =>
    prop ← add_v2f_array (name +:+ ":uv0") prop;
    prop ← add_v2f_array (name +:+ ":uv1") prop;
    prop ← add_v2f_array (name +:+ ":uv2") prop;
    prop ← add_v2f_array (name +:+ ":uv3") prop;
    _ ← reserve num_data;
    _ ← reserve num_data;
    _ ← reserve num_data;
    _ ← reserve num_data;
    '(uv_data0, uv_data1, uv_data2, uv_data3) ←
      write_orig_space (Z.to_nat num_data) data;
    let prop := set_property (name +:+ ":uv0") (PV2fArray uv_data0) prop in
    let prop := set_property (name +:+ ":uv1") (PV2fArray uv_data1) prop in
    let prop := set_property (name +:+ ":uv2") (PV2fArray uv_data2) prop in
    Some (set_property (name +:+ ":uv3") (PV2fArray uv_data3) prop)).

Section Writer.

Variable cd : CustomDataTypes.

(** [write_sample<CDTYPE>]: the specialisation for the type code if there
    is one, given the layer's array, else the generic template, which only
    reports the missing implementation.  A specialisation given the array
    of another layer type reads it through the wrong pointer type, which
    is undefined. *)
Definition write_sample (CDTYPE : nat) (parent : list (string * property))
    (name : string) (data : layer_data) (num_data : Z)
    : option (list (string * property)) :=
  if decide (CDTYPE = CD_MDEFORMVERT cd) then
    match data with
    | DeformVerts l => write_sample_MDEFORMVERT parent name l num_data
    | _ => None
    end
  else if decide (CDTYPE = CD_MCOL cd) then
    match data with Cols l => write_sample_MCOL parent name l num_data | _ => None end
  else if decide (CDTYPE = CD_ORIGINDEX cd) then
    match data with
    | OrigIndex l => write_sample_ORIGINDEX parent name l num_data
    | _ => None
    end
  else if decide (CDTYPE = CD_ORIGSPACE cd) then
    match data with
    | OrigSpace l => write_sample_ORIGSPACE parent name l num_data
    | _ => None
    end
  else Some parent.

(** [write_sample_call<CDTYPE>], the recursive template, [k] counting the
    instantiations left before the terminator [CD_NUMTYPES], which does
    nothing. *)
Fixpoint write_sample_call_from (k : nat) (CDTYPE : nat)
    (parent : list (string * property)) (type : nat) (name : string)
    (data : layer_data) (num_data : Z) : option (list (string * property)) :=
  match k with
  | O => Some parent
  | S k' =>
      if decide (type = CDTYPE) then write_sample CDTYPE parent name data num_data
      else write_sample_call_from k' (S CDTYPE) parent type name data num_data
  end.

(** [write_sample_call<0>]. *)
Definition write_sample_call (parent : list (string * property)) (type : nat)
    (name : string) (data : layer_data) (num_data : Z)
    : option (list (string * property)) :=
  write_sample_call_from (CD_NUMTYPES cd) 0 parent type name data num_data.

(** [CustomData] and the accessors [CustomData_number_of_layers],
    [CustomData_get_layer_name] and [CustomData_get_layer_n] of
    [BKE_customdata.h], and the insertion [ss << n] of an [int] into a
    string stream, are not part of these sources; the writer is parametric
    in them.  [CustomData_get_layer_n] gives the array of the layer. *)
Variable CustomData : Type.
Variable CustomData_number_of_layers : CustomData -> nat -> Z.
Variable CustomData_get_layer_name : CustomData -> nat -> Z -> option string.
Variable CustomData_get_layer_n : CustomData -> nat -> Z -> layer_data.
Variable format_int : Z -> string.

(** The body of the loop over the layers of one type; the state is
    [has_props] and the children of [m_props]. *)
Definition write_layer (m_name : string) (type : nat) (cdata : CustomData)
    (num_data : Z) (n : Z) (st : bool * list (string * property))
    : option (bool * list (string * property)) :=
  let '(has_props, m_props) := st in
  let layertype_name := CustomData_layertype_name cd type in
  m_props ← (if has_props then Some m_props
             else add_compound_property (m_name +:+ ":" +:+ layertype_name) m_props);
  let name :=
    PTCNames.cdtype_to_name cd CustomData CustomData_get_layer_name format_int
      m_name cdata type n in
  let data := CustomData_get_layer_n cdata type n in
  m_props ← in_compound (m_name +:+ ":" +:+ layertype_name) m_props
              (fun layertype_props =>
                 write_sample_call layertype_props type name data num_data);
  Some (true, m_props).

(** The loop over the layer types, [type] running from [CD_NUMTYPES - k]. *)
Fixpoint write_types (k : nat) (type : nat) (m_name : string) (m_cdmask : Z)
    (cdata : CustomData) (num_data : Z) (m_props : list (string * property))
    : option (list (string * property)) :=
  match k with
  | O => Some m_props
  | S k' =>
      let mask := Int32.shl 1 (Z.of_nat type) in
      if Z.land mask m_cdmask =? 0
      then write_types k' (S type) m_name m_cdmask cdata num_data m_props
      else
        let num := CustomData_number_of_layers cdata type in
        '(_, m_props) ← for_range 0 num (write_layer m_name type cdata num_data)
                          (false, m_props);
        write_types k' (S type) m_name m_cdmask cdata num_data m_props
  end.

(** [CustomDataWriter::write_sample]. *)
Definition CustomDataWriter_write_sample (m_name : string) (m_cdmask : Z)
    (cdata : CustomData) (num_data : Z) (parent : list (string * property))
    : option (list (string * property)) :=
  parent ← add_compound_property m_name parent;
  in_compound m_name parent
    (fun m_props => write_types (CD_NUMTYPES cd) 0 m_name m_cdmask cdata num_data m_props).

End Writer.

End PTCWriter.

(** ** The layers a written sample gives back *)

Section WrittenLayers.

Import PTC.

Variable cd : CustomDataTypes.
Variable CustomData : Type.
Variable CustomData_number_of_layers : CustomData -> nat -> Z.
Variable CustomData_get_layer_name : CustomData -> nat -> Z -> option string.
Variable CustomData_get_layer_n : CustomData -> nat -> Z -> layer_data.

(** The layer types for which [write_sample] and [read_sample] are
    specialised. *)
Definition has_writer (type : nat) : bool :=
  bool_decide (type ∈ [CD_MDEFORMVERT cd; CD_MCOL cd; CD_ORIGINDEX cd; CD_ORIGSPACE cd]).

(** The test [mask & m_cdmask] of the loops over the layer types, for
    [mask = (1 << type)]. *)
Definition in_mask (type : nat) (m_cdmask : Z) : bool :=
  negb (Z.land (Int32.shl 1 (Z.of_nat type)) m_cdmask =? 0).

(** A layer array of the element type of [type] that holds [num_data]
    elements: colour channels are [unsigned char]s, and a deform vertex
    has [totweight] weights. *)
Definition layer_wf (type : nat) (data : layer_data) (num_data : Z) : Prop :=
  match data with
  | DeformVerts l =>
      type = CD_MDEFORMVERT cd /\ Z.of_nat (length l) = num_data /\
      Forall (fun v => Z.of_nat (length (dw v)) = totweight v) l
  | Cols l =>
      type = CD_MCOL cd /\ Z.of_nat (length l) = num_data /\
      Forall (fun c => 0 <= mcol_r c <= 255 /\ 0 <= mcol_g c <= 255 /\
                       0 <= mcol_b c <= 255 /\ 0 <= mcol_a c <= 255) l
  | OrigIndex l => type = CD_ORIGINDEX cd /\ Z.of_nat (length l) = num_data
  | OrigSpace l => type = CD_ORIGSPACE cd /\ Z.of_nat (length l) = num_data
  | Unwritten => False
  end.

(** The name under which a layer comes back: its name as [BLI_strncpy]
    copies it into the reader's buffer of [MAX_CUSTOMDATA_LAYER_NAME]
    characters, or the empty name of an unnamed layer. *)
Definition stored_name (layer_name : option string) : string :=
  match layer_name with
  | Some (String c s) =>
      if decide (c = Ascii.zero) then EmptyString
      else BLI_strncpy cd (c_str (String c s)) (MAX_CUSTOMDATA_LAYER_NAME cd)
  | _ => EmptyString
  end.

(** The layers of one type, in their order, and the layers of all the
    types of the mask that have a writer, by increasing type code. *)
Definition layers_of_type (cdata : CustomData) (type : nat) : list Layer :=
  (fun n => mk_Layer type (stored_name (CustomData_get_layer_name cdata type n))
                     (CustomData_get_layer_n cdata type n))
  <$> seqZ 0 (CustomData_number_of_layers cdata type).

Definition read_back (m_cdmask : Z) (cdata : CustomData) : list Layer :=
  type ← seq 0 (CD_NUMTYPES cd);
  if in_mask type m_cdmask && has_writer type then layers_of_type cdata type else [].

End WrittenLayers.

(** A [CustomData] given as the list of its layers, with the three
    accessors the writer uses, and a mesh with three colour layers, one of
    them with a name of 70 characters, an index layer and a layer of type
    0, for which there is no writer. *)
Definition layers_number_of_layers (cdata : list PTC.Layer) (type : nat) : Z :=
  Z.of_nat (length (filter (fun L => PTC.layer_type L = type) cdata)).

Definition layers_get_layer (cdata : list PTC.Layer) (type : nat) (n : Z)
    : option PTC.Layer :=
  if 0 <=? n then filter (fun L => PTC.layer_type L = type) cdata !! Z.to_nat n else None.

Definition layers_get_layer_name (cdata : list PTC.Layer) (type : nat) (n : Z)
    : option string :=
  PTC.layer_name <$> layers_get_layer cdata type n.

Definition layers_get_layer_n (cdata : list PTC.Layer) (type : nat) (n : Z)
    : PTC.layer_data :=
  default PTC.Unwritten (PTC.layer_contents <$> layers_get_layer cdata type n).

Definition mesh_layers : list PTC.Layer :=
  [PTC.mk_Layer 6 "Col" (PTC.Cols [PTC.mk_MCol 255 0 0 255; PTC.mk_MCol 0 128 7 255]);
   PTC.mk_Layer 0 "" PTC.Unwritten;
   PTC.mk_Layer 7 "" (PTC.OrigIndex [4; -1]);
   PTC.mk_Layer 6 "" (PTC.Cols [PTC.mk_MCol 1 2 3 4; PTC.mk_MCol 5 6 7 8]);
   PTC.mk_Layer 6 "a_vertex_colour_layer_with_a_name_longer_than_the_buffer_of_the_reader"
     (PTC.Cols [PTC.mk_MCol 9 9 9 9; PTC.mk_MCol 0 0 0 0])].

(** ** Specification-side definitions *)

(** The tile locator of the specification: the tile that owns pixel
    [(x, y)] is [ytile*3 + xtile], each coordinate being compared with the
    two interior boundaries of its axis. *)
Definition tile_index (tiles : TilesInfo) (x y : Z) : option Z :=
  x1 ← tiles_x tiles !! 1%nat;
  x2 ← tiles_x tiles !! 2%nat;
  y1 ← tiles_y tiles !! 1%nat;
  y2 ← tiles_y tiles !! 2%nat;
  let xtile := if x <? x1 then 0 else if x <? x2 then 1 else 2 in
  let ytile := if y <? y1 then 0 else if y <? y2 then 1 else 2 in
  Some (Int32.add (Int32.mul ytile 3) xtile).

(** The address of the pixel's record in the render buffer of its tile:
    [buffer + (y*stride + x + offset) * pass_stride]. *)
Definition pixel_base (tiles : TilesInfo) (x y pass_stride : Z) : option Z :=
  tile ← tile_index tiles x y;
  offset ← offsets tiles !! Z.to_nat tile;
  stride ← strides tiles !! Z.to_nat tile;
  buffer ← buffers tiles !! Z.to_nat tile;
  Some (buffer + Int32.mul (Int32.add (Int32.add (Int32.mul y stride) x) offset) pass_stride).

(** [ceil(s/2)] and [floor(s/2)] on the integers. *)
Definition ceil_half (s : Z) : Z := - ((- s) / 2).
Definition floor_half (s : Z) : Z := s / 2.

(** The row length [align_up(rect.z - rect.x, 4)] of the output arrays on
    the integers, which is the width of the rectangle rounded up to a
    multiple of four, and the index
    [(y - rect.y)*align_up(rect.z - rect.x, 4) + (x - rect.x)] of pixel
    [(x, y)] in an output array. *)
Definition padded_width (rect : int4) : Z := 4 * ((i4z rect - i4x rect + 3) / 4).

Definition pixel_index (rect : int4) (x y : Z) : Z :=
  (y - i4y rect) * padded_width rect + (x - i4x rect).

(** Pixel [(x, y)] lies inside the rectangle; and the padded area of the
    rectangle, its row length times its height, is an [int]. *)
Definition in_rect (rect : int4) (x y : Z) : Prop :=
  i4x rect <= x < i4z rect /\ i4y rect <= y < i4w rect.

Definition rect_fits (rect : int4) : Prop :=
  i4z rect - i4x rect <= Int32.int_max - 4 /\
  (i4w rect - i4y rect) * padded_width rect <= Int32.int_max.

(** Both divisors of the variance divisions of the shadow kernel are
    non-zero. *)
Definition divisors_nonzero (sample : Z) : Prop :=
  Int32.sub (odd_sample sample) 1 <> 0 /\ Int32.sub (even_sample sample) 1 <> 0.

(** The comparison [v >= 0.0f]. *)
Definition nonneg (v : spec_float) : bool := F32.ge v F32.zero.

(** The five cells written by the shadow kernel and the six cells of the
    shadow record it reads. *)
Definition shadow_outputs
    (unfilteredA unfilteredB sampleVariance sampleVarianceV bufferVariance idx : Z)
    : list Z :=
  [unfilteredA + idx; unfilteredB + idx; sampleVariance + idx;
   sampleVarianceV + idx; bufferVariance + idx].

Definition shadow_record (record : Z) : list Z :=
  [record + 0; record + 1; record + 2; record + 3; record + 4; record + 5].

(** The clipped gathering window of the half combiner around [(x, y)], its
    rows and columns as the two loops enumerate them, and its pixels in the
    order they are gathered. *)
Definition window_rows (rect : int4) (y r : Z) : list Z :=
  let lo := Int32.max (Int32.sub y r) (i4y rect) in
  let hi := Int32.min (Int32.add (Int32.add y r) 1) (i4w rect) in
  seqZ lo (hi - lo).

Definition window_cols (rect : int4) (x r : Z) : list Z :=
  let lo := Int32.max (Int32.sub x r) (i4x rect) in
  let hi := Int32.min (Int32.add (Int32.add x r) 1) (i4z rect) in
  seqZ lo (hi - lo).

Definition window (rect : int4) (x y r : Z) : list (Z * Z) :=
  py ← window_rows rect y r; (fun px => (px, py)) <$> window_cols rect x r.

(** The squared half difference [0.25*(a[p]-b[p])^2] at pixel [p], read from
    memory [m]. *)
Definition sq_diff (m : memory) (a b : Z) (rect : int4) (p : Z * Z)
    : option spec_float :=
  let pidx := rect_index rect (fst p) (snd p) in
  a1 ← m !! (a + pidx);
  b1 ← m !! (b + pidx);
  Some (F32.mul (F32.mul F32.quarter (F32.sub a1 b1)) (F32.sub a1 b1)).

Definition window_values (m : memory) (a b : Z) (rect : int4) (x y r : Z)
    : option (list spec_float) :=
  mapM (sq_diff m a b rect) (window rect x y r).

(** Insertion of [v] into a list scanned from its right end, as the inner
    loop of the sort does: elements greater than [v] move one place right.
    [ins_rev] works on the reversed list. *)
Fixpoint ins_rev (v : spec_float) (rl : list spec_float) : list spec_float :=
  match rl with
  | [] => [v]
  | w :: rl' => if F32.gt w v then w :: ins_rev v rl' else v :: rl
  end.

Definition insert_sorted (v : spec_float) (l : list spec_float) : list spec_float :=
  rev (ins_rev v (rev l)).

(** The list the insertion sort leaves, element by element from the left. *)
Definition isort (l : list spec_float) : list spec_float :=
  fold_left (fun acc v => insert_sorted v acc) l [].

(** The orders on [float]: [x <= y], and the negation of the comparison
    [x > y] the sort tests. *)
Definition fle (x y : spec_float) : Prop := SFleb x y = true.
Definition not_gt (x y : spec_float) : Prop := F32.gt x y = false.

(** ** A concrete scene

    A 3x3 tile layout with 4x4 tiles, the prefilter rectangle covering the
    centre tile, pixel [(5, 6)] and its record in the centre tile's render
    buffer, and five 16-cell output arrays. *)

Definition scene_tiles : TilesInfo :=
  mk_TilesInfo (replicate 9 (-20)) (replicate 9 4) [0; 4; 8; 12] [0; 4; 8; 12]
    [100; 200; 300; 400; 1000; 500; 600; 700; 800].

Definition scene_rect : int4 := mk_int4 4 4 8 8.

Definition scene_record : list spec_float := F32.of_int <$> [2; 4; 9; 2; 4; 9].

Definition scene_memory : memory :=
  cells 1194 scene_record ∪ cells 0 (replicate 80 F32.zero).

(** Two half buffers [a] (at 0) and [b] (at 100) over a 4x2 rectangle, with
    a variance array at 200 and a mean array at 300; and the same over a
    rectangle of the single pixel [(3, 5)]. *)
Definition halves_rect : int4 := mk_int4 0 0 4 2.

Definition halves_memory : memory :=
  cells 0 (F32.of_int <$> [1; 5; 2; 8; 7; 3; 9; 4]) ∪ cells 100 (replicate 8 F32.zero)
  ∪ cells 200 (replicate 8 F32.zero) ∪ cells 300 (replicate 8 F32.zero).

Definition pixel_rect : int4 := mk_int4 3 5 4 6.

Definition pixel_memory : memory :=
  cells 0 [F32.of_int 7] ∪ cells 100 [F32.of_int 3]
  ∪ cells 200 [F32.zero] ∪ cells 300 [F32.zero].

(** [BLI_strncpy] as [BLI_string.h] describes it: the destination holds
    the first [maxncpy - 1] characters of the source, or all of a shorter
    source. *)
Definition strncpy_result (src : string) (maxncpy : Z) : string :=
  String.substring 0 (Z.to_nat (maxncpy - 1)) src.

(** A property store holding one vertex-colour layer of three colours, read
    with the type codes of Blender's [DNA_customdata_types.h], in which a
    layer name has 64 characters; the layer types without a writer are
    given names of their own. *)
Definition blender_types : PTC.CustomDataTypes :=
  PTC.mk_CustomDataTypes 2 6 7 13 42
    (fun type =>
       match type with
       | 2%nat => "CDMDeformVert"
       | 6%nat => "CDMCol"
       | 7%nat => "CDOrigIndex"
       | 13%nat => "CDOrigSpace"
       | _ => "CDType" +:+ pretty type
       end)
    64 strncpy_result.

Definition white : PTC.C4f :=
  PTC.mk_C4f (F32.of_int 1) (F32.of_int 1) (F32.of_int 1) (F32.of_int 1).

Definition colour_layers : list (string * PTC.property) :=
  [("mesh:CDMCol:N0", PTC.PC4fArray [white; white; white])].

Definition colour_store : list (string * PTC.property) :=
  [("mesh", PTC.PCompound [("mesh:CDMCol", PTC.PCompound colour_layers)])].

(** ** Auxiliary definitions of the proofs *)

(** A counted loop is a fold over the integers it enumerates. *)
Fixpoint fold_opt {S : Type} (body : Z -> S -> option S) (l : list Z) (s : S)
    : option S :=
  match l with
  | [] => Some s
  | i :: l' => s' ← body i s; fold_opt body l' s'
  end.

(** The local array holding [acc] in its first cells, the rest unwritten. *)
Definition values_of (acc : list spec_float) : list (option spec_float) :=
  (Some <$> acc) ++ replicate (25 - length acc) None.

(** An order-preserving key: sign class, then exponent, then mantissa. *)
Definition key (x : spec_float) : Z * Z * Z :=
  match x with
  | S754_zero _ => (0, 0, 0)
  | S754_infinity false => (2, 0, 0)
  | S754_infinity true => (-2, 0, 0)
  | S754_nan => (0, 0, 0)
  | S754_finite false m e => (1, e, Z.pos m)
  | S754_finite true m e => (-1, - e, Z.neg m)
  end.

Definition lex_le (p q : Z * Z * Z) : Prop :=
  p.1.1 < q.1.1 \/
  (p.1.1 = q.1.1 /\ (p.1.2 < q.1.2 \/ (p.1.2 = q.1.2 /\ p.2 <= q.2))).

(** What [binary_round_aux] returns for the final mantissa [m] and exponent
    [e]. *)
Definition round_result (s : bool) (m e : Z) : spec_float :=
  if m =? 0 then S754_zero s
  else if e <=? 104 then S754_finite s (Z.to_pos m) e
  else S754_infinity s.

(** The shift that brings [m * 2^e] to its binary32 exponent. *)
Definition fshift (m e : Z) : Z :=
  Z.max 0 (fexp F32.prec F32.emax (Zdigits2 m + e) - e).

(** Zeros, positive finite numbers and [+inf]: the values [v] with
    [v >= 0.0f]. *)
Definition is_nn (x : spec_float) : bool :=
  match x with
  | S754_zero _ | S754_finite false _ _ | S754_infinity false => true
  | _ => false
  end.

(** Positive finite numbers and [+inf]. *)
Definition is_pos (x : spec_float) : bool :=
  match x with
  | S754_finite false _ _ | S754_infinity false => true
  | _ => false
  end.

(** Positive finite numbers. *)
Definition pos_finite (x : spec_float) : Prop :=
  exists m e, x = S754_finite false m e.

(** Zeros and positive finite numbers of at most 24 bits with a binary32
    exponent: non-negative and at most the largest finite number. *)
Definition bounded_nn (x : spec_float) : Prop :=
  match x with
  | S754_zero _ => True
  | S754_finite false m e => Z.pos m < 2 ^ 24 /\ -149 <= e <= 104
  | _ => False
  end.

(** Integers from 1 on that convert exactly: a positive finite number
    [m * 2^e] with [e <= 0] and [m >= 2^-e]. *)
Definition at_least_one (x : spec_float) : Prop :=
  exists m e, x = S754_finite false m e /\ e <= 0 /\ 2 ^ (- e) <= Z.pos m.

(** * Properties *)

(** ** Integer arithmetic *)

Lemma wrap_id z : Int32.in_range z -> Int32.wrap z = z.
Proof.
  unfold Int32.in_range, Int32.wrap, Int32.int_min, Int32.int_max. intros H.
  rewrite Z.mod_small by lia. lia.
Qed.

Lemma wrap_in_range z : Int32.in_range (Int32.wrap z).
Proof.
  unfold Int32.in_range, Int32.wrap, Int32.int_min, Int32.int_max.
  pose proof (Z.mod_pos_bound (z + 2147483648) 4294967296). lia.
Qed.

Lemma wrap_eqm z : (Int32.wrap z) mod 4294967296 = z mod 4294967296.
Proof.
  unfold Int32.wrap.
  rewrite Zminus_mod, Z.mod_mod by lia.
  rewrite <- Zminus_mod. f_equal. lia.
Qed.

Lemma wrap_congr a b :
  a mod 4294967296 = b mod 4294967296 -> Int32.wrap a = Int32.wrap b.
Proof.
  intros H. unfold Int32.wrap.
  rewrite (Zplus_mod a), (Zplus_mod b), H. reflexivity.
Qed.

Lemma wrap_add_l a b : Int32.wrap (Int32.wrap a + b) = Int32.wrap (a + b).
Proof.
  apply wrap_congr. rewrite Zplus_mod, wrap_eqm, <- Zplus_mod. reflexivity.
Qed.

Lemma wrap_add_r a b : Int32.wrap (a + Int32.wrap b) = Int32.wrap (a + b).
Proof. rewrite Z.add_comm, wrap_add_l. f_equal. lia. Qed.

Lemma odd_sample_ceil sample :
  0 <= sample < Int32.int_max -> odd_sample sample = ceil_half sample.
Proof.
  unfold odd_sample, ceil_half, Int32.div, Int32.add, Int32.int_max. intros H.
  rewrite (wrap_id (sample + 1)) by (unfold Int32.in_range, Int32.int_min, Int32.int_max; lia).
  rewrite Z.quot_div_nonneg by lia.
  rewrite wrap_id.
  - pose proof (Z.div_mod (sample + 1) 2). pose proof (Z.mod_pos_bound (sample + 1) 2).
    pose proof (Z.div_mod (- sample) 2). pose proof (Z.mod_pos_bound (- sample) 2). lia.
  - unfold Int32.in_range, Int32.int_min, Int32.int_max.
    pose proof (Z.div_mod (sample + 1) 2). pose proof (Z.mod_pos_bound (sample + 1) 2). lia.
Qed.

Lemma even_sample_floor sample :
  0 <= sample <= Int32.int_max -> even_sample sample = floor_half sample.
Proof.
  unfold even_sample, floor_half, Int32.div, Int32.int_max. intros H.
  rewrite Z.quot_div_nonneg by lia.
  apply wrap_id. unfold Int32.in_range, Int32.int_min, Int32.int_max.
  pose proof (Z.div_mod sample 2). pose proof (Z.mod_pos_bound sample 2). lia.
Qed.

(** ** The index of a pixel in the output arrays *)

(** Rounding a width up to a multiple of four. *)
Lemma align_up_4 n :
  0 <= n <= Int32.int_max - 4 -> Int32.align_up n 4 = 4 * ((n + 3) / 4).
Proof.
  intros H. unfold Int32.align_up, Int32.and, Int32.not, Int32.add, Int32.sub.
  rewrite (wrap_id (n + 4))
    by (unfold Int32.in_range, Int32.int_min, Int32.int_max in *; lia).
  rewrite (wrap_id (n + 4 - 1))
    by (unfold Int32.in_range, Int32.int_min, Int32.int_max in *; lia).
  change (Int32.wrap (4 - 1)) with (Z.ones 2).
  rewrite <- Z.ldiff_land, Z.ldiff_ones_r by lia.
  rewrite Z.shiftl_mul_pow2, Z.shiftr_div_pow2 by lia.
  replace (n + 4 - 1) with (n + 3) by lia. change (2 ^ 2) with 4. lia.
Qed.

(** Inside a rectangle whose padded area is an [int], the index the kernels
    compute in [int] is the index on the integers. *)
Lemma rect_index_plain rect x y :
  in_rect rect x y -> rect_fits rect -> rect_index rect x y = pixel_index rect x y.
Proof.
  unfold in_rect, rect_fits, pixel_index, padded_width.
  set (w := i4z rect - i4x rect). set (h := i4w rect - i4y rect).
  intros [Hx Hy] [Hw Harea].
  assert (HW : buffer_w rect = 4 * ((w + 3) / 4)).
  { unfold buffer_w, Int32.sub. fold w.
    rewrite (wrap_id w)
      by (unfold Int32.in_range, Int32.int_min, Int32.int_max in *; lia).
    apply align_up_4. lia. }
  unfold rect_index, Int32.add, Int32.mul, Int32.sub. rewrite HW.
  set (W := 4 * ((w + 3) / 4)) in *.
  assert (Hpad : w <= W <= w + 3).
  { subst W. pose proof (Z.div_mod (w + 3) 4). pose proof (Z.mod_pos_bound (w + 3) 4).
    lia. }
  assert (P0 : 0 <= (y - i4y rect) * W) by (apply Z.mul_nonneg_nonneg; lia).
  assert (P1 : (y - i4y rect) * W <= (h - 1) * W)
    by (apply Z.mul_le_mono_nonneg_r; lia).
  assert (P2 : h * 1 <= h * W) by (apply Z.mul_le_mono_nonneg_l; lia).
  rewrite (wrap_id (y - i4y rect))
    by (unfold Int32.in_range, Int32.int_min, Int32.int_max in *; lia).
  rewrite (wrap_id (x - i4x rect))
    by (unfold Int32.in_range, Int32.int_min, Int32.int_max in *; lia).
  rewrite (wrap_id ((y - i4y rect) * W))
    by (unfold Int32.in_range, Int32.int_min, Int32.int_max in *; lia).
  apply wrap_id. unfold Int32.in_range, Int32.int_min, Int32.int_max in *. lia.
Qed.

(** Beyond that the two differ: in a rectangle of 65536 by 65536 pixels the
    index of the first pixel of row 32768 has wrapped. *)
Example rect_index_wraps :
  in_rect (mk_int4 0 0 65536 65536) 0 32768 /\
  rect_index (mk_int4 0 0 65536 65536) 0 32768 = -2147483648 /\
  pixel_index (mk_int4 0 0 65536 65536) 0 32768 = 2147483648.
Proof. unfold in_rect. simpl. split; [lia|]. split; reflexivity. Qed.

(** ** Memory *)

Lemma store_Some (m : memory) p v :
  is_Some (m !! p) -> store m p v = Some (<[p := v]> m).
Proof. intros [w Hw]. unfold store. rewrite Hw. reflexivity. Qed.

Lemma store_inv (m m' : memory) p v :
  store m p v = Some m' -> is_Some (m !! p) /\ m' = <[p := v]> m.
Proof.
  unfold store. destruct (m !! p) eqn:E; intros H; inversion H. eauto.
Qed.

Lemma store_other (m m' : memory) p v q :
  store m p v = Some m' -> q <> p -> m' !! q = m !! q.
Proof.
  intros H Hq. apply store_inv in H as [_ ->]. apply lookup_insert_ne. congruence.
Qed.

Lemma store_allocated (m m' : memory) p v q :
  store m p v = Some m' -> is_Some (m' !! q) <-> is_Some (m !! q).
Proof.
  intros H. apply store_inv in H as [Hp ->].
  rewrite lookup_insert. case_decide; subst; split; eauto.
Qed.

Lemma pixel_base_inv tiles x y ps base :
  pixel_base tiles x y ps = Some base ->
  exists x1 x2 y1 y2 offset stride buffer,
    tiles_x tiles !! 1%nat = Some x1 /\ tiles_x tiles !! 2%nat = Some x2 /\
    tiles_y tiles !! 1%nat = Some y1 /\ tiles_y tiles !! 2%nat = Some y2 /\
    let xtile := if x <? x1 then 0 else if x <? x2 then 1 else 2 in
    let ytile := if y <? y1 then 0 else if y <? y2 then 1 else 2 in
    let tile := Int32.add (Int32.mul ytile 3) xtile in
    offsets tiles !! Z.to_nat tile = Some offset /\
    strides tiles !! Z.to_nat tile = Some stride /\
    buffers tiles !! Z.to_nat tile = Some buffer /\
    base = buffer + Int32.mul (Int32.add (Int32.add (Int32.mul y stride) x) offset) ps.
Proof.
  unfold pixel_base, tile_index. intros H.
  destruct (tiles_x tiles !! 1%nat) as [x1|]; [|discriminate].
  destruct (tiles_x tiles !! 2%nat) as [x2|]; [|discriminate].
  destruct (tiles_y tiles !! 1%nat) as [y1|]; [|discriminate].
  destruct (tiles_y tiles !! 2%nat) as [y2|]; [|discriminate].
  simpl in H.
  destruct (offsets tiles !! _) as [offset|] eqn:Eo; [|discriminate].
  destruct (strides tiles !! _) as [stride|] eqn:Es; [|discriminate].
  destruct (buffers tiles !! _) as [buffer|] eqn:Eb; [|discriminate].
  simpl in H. inversion H.
  exists x1, x2, y1, y2, offset, stride, buffer. auto 10.
Qed.

(** Symbolic execution step: a load from a cell whose content is known
    through the writes made so far. *)
Ltac mem_lookup :=
  repeat first
    [ rewrite lookup_insert_eq
    | rewrite lookup_insert_ne by congruence ].

(** ** The shadow divider *)

(** Decision of a closed decidable proposition by evaluation. *)
Ltac by_compute := apply (bool_decide_unpack _); vm_compute; exact I.

(** Closed comparisons of integers, by evaluation. *)
Ltac by_comparison := vm_compute; repeat split; first [reflexivity | discriminate].

Section DivideShadow.

Variables (sample : Z) (tiles : TilesInfo) (x y : Z).
Variables (unfilteredA unfilteredB sampleVariance sampleVarianceV bufferVariance : Z).
Variables (rect : int4) (buffer_pass_stride buffer_denoising_offset : Z).
Variable use_split_variance : bool.
Variable m : memory.

Let idx := rect_index rect x y.
Let outputs :=
  shadow_outputs unfilteredA unfilteredB sampleVariance sampleVarianceV bufferVariance idx.

Variables (base : Z) (r0 r1 r2 r3 r4 r5 : spec_float).
Hypothesis Hbase : pixel_base tiles x y buffer_pass_stride = Some base.

Let record := base + Int32.add buffer_denoising_offset 14.

Hypothesis Hr0 : m !! (record + 0) = Some r0.
Hypothesis Hr1 : m !! (record + 1) = Some r1.
Hypothesis Hr2 : m !! (record + 2) = Some r2.
Hypothesis Hr3 : m !! (record + 3) = Some r3.
Hypothesis Hr4 : m !! (record + 4) = Some r4.
Hypothesis Hr5 : m !! (record + 5) = Some r5.
Hypothesis Hdistinct : NoDup outputs.
Hypothesis Hallocated : Forall (fun p => is_Some (m !! p)) outputs.
Hypothesis Hreadonly : Forall (fun p => p ∉ outputs) (shadow_record record).

Let uA := F32.div r1 (F32.max r0 F32.eps).
Let uB := F32.div r4 (F32.max r3 F32.eps).
Let varA :=
  F32.div
    (if use_split_variance
     then F32.max F32.zero
            (F32.sub r2 (F32.mul (F32.mul uA uA) (F32.of_int (odd_sample sample))))
     else r2)
    (F32.of_int (Int32.sub (odd_sample sample) 1)).
Let varB :=
  F32.div
    (if use_split_variance
     then F32.max F32.zero
            (F32.sub r5 (F32.mul (F32.mul uB uB) (F32.of_int (even_sample sample))))
     else r5)
    (F32.of_int (Int32.sub (even_sample sample) 1)).

(** The memory the kernel leaves, as the five writes in program order. *)
Lemma divide_shadow_exec :
  kernel_filter_divide_shadow sample tiles x y
    unfilteredA unfilteredB sampleVariance sampleVarianceV bufferVariance
    rect buffer_pass_stride buffer_denoising_offset use_split_variance m
  = Some
      (<[bufferVariance + idx :=
           F32.mul (F32.mul F32.half (F32.sub uA uB)) (F32.sub uA uB)]>
      (<[sampleVarianceV + idx :=
           F32.div (F32.mul (F32.mul F32.half (F32.sub varA varB)) (F32.sub varA varB))
                   (F32.of_int (Int32.mul sample sample))]>
      (<[sampleVariance + idx :=
           F32.div (F32.mul F32.half (F32.add varA varB)) (F32.of_int sample)]>
      (<[unfilteredB + idx := uB]>
      (<[unfilteredA + idx := uA]> m))))).
Proof.
  destruct (pixel_base_inv _ _ _ _ _ Hbase)
    as (x1 & x2 & y1 & y2 & offset & stride & buffer & E1 & E2 & E3 & E4 & Eo & Es & Eb & Ebase).
  subst outputs. unfold shadow_outputs, shadow_record in *.
  rewrite !NoDup_cons, !not_elem_of_cons in Hdistinct.
  rewrite !Forall_cons, !not_elem_of_cons in Hreadonly.
  rewrite !Forall_cons in Hallocated.
  destruct_and!. subst idx.
  unfold kernel_filter_divide_shadow.
  rewrite E1, E2, E3, E4. simpl. rewrite Eo, Es, Eb. simpl.
  rewrite <- Ebase. fold record.
  unfold load. rewrite Hr1, Hr0. simpl.
  rewrite store_Some by assumption. simpl.
  mem_lookup. rewrite Hr4, Hr3. simpl.
  rewrite store_Some by (mem_lookup; assumption). simpl.
  mem_lookup. rewrite Hr2, Hr5. simpl.
  subst uA uB varA varB.
  destruct use_split_variance; simpl; mem_lookup; simpl;
    (rewrite store_Some by (mem_lookup; assumption)); simpl;
    (rewrite store_Some by (mem_lookup; assumption)); simpl;
    mem_lookup; simpl;
    (rewrite store_Some by (mem_lookup; assumption)); reflexivity.
Qed.

(** The values the kernel leaves, for a sample count that is not negative
    and whose square is an [int], at the index the kernel computes. *)
Lemma shadow_values_at_kernel_index :
  0 <= sample -> sample * sample <= Int32.int_max ->
  let oddSample := ceil_half sample in
  let evenSample := floor_half sample in
  let vA :=
    F32.div
      (if use_split_variance
       then F32.max F32.zero
              (F32.sub r2 (F32.mul (F32.mul uA uA) (F32.of_int oddSample)))
       else r2)
      (F32.of_int (oddSample - 1)) in
  let vB :=
    F32.div
      (if use_split_variance
       then F32.max F32.zero
              (F32.sub r5 (F32.mul (F32.mul uB uB) (F32.of_int evenSample)))
       else r5)
      (F32.of_int (evenSample - 1)) in
  exists m',
    kernel_filter_divide_shadow sample tiles x y
      unfilteredA unfilteredB sampleVariance sampleVarianceV bufferVariance
      rect buffer_pass_stride buffer_denoising_offset use_split_variance m
    = Some m' /\
    m' !! (unfilteredA + idx) = Some uA /\
    m' !! (unfilteredB + idx) = Some uB /\
    m' !! (sampleVariance + idx)
      = Some (F32.div (F32.mul F32.half (F32.add vA vB)) (F32.of_int sample)) /\
    m' !! (sampleVarianceV + idx)
      = Some (F32.div (F32.mul (F32.mul F32.half (F32.sub vA vB)) (F32.sub vA vB))
                      (F32.of_int (sample * sample))) /\
    m' !! (bufferVariance + idx)
      = Some (F32.mul (F32.mul F32.half (F32.sub uA uB)) (F32.sub uA uB)).
Proof.
  intros Hs Hsq oddSample evenSample vA vB.
  assert (Hsmall : sample <= 46340) by (unfold Int32.int_max in Hsq; nia).
  assert (Hodd : odd_sample sample = oddSample)
    by (apply odd_sample_ceil; unfold Int32.int_max; lia).
  assert (Heven : even_sample sample = evenSample)
    by (apply even_sample_floor; unfold Int32.int_max; lia).
  assert (HoddR : 0 <= oddSample <= sample).
  { subst oddSample. unfold ceil_half.
    pose proof (Z.div_mod (- sample) 2). pose proof (Z.mod_pos_bound (- sample) 2). lia. }
  assert (HevenR : 0 <= evenSample <= sample).
  { subst evenSample. unfold floor_half.
    pose proof (Z.div_mod sample 2). pose proof (Z.mod_pos_bound sample 2). lia. }
  assert (HvA : varA = vA).
  { subst varA vA. rewrite Hodd. unfold Int32.sub.
    rewrite wrap_id by (unfold Int32.in_range, Int32.int_min, Int32.int_max; lia).
    reflexivity. }
  assert (HvB : varB = vB).
  { subst varB vB. rewrite Heven. unfold Int32.sub.
    rewrite wrap_id by (unfold Int32.in_range, Int32.int_min, Int32.int_max; lia).
    reflexivity. }
  assert (Hmul : Int32.mul sample sample = sample * sample).
  { unfold Int32.mul. apply wrap_id.
    unfold Int32.in_range, Int32.int_min, Int32.int_max in *. nia. }
  pose proof divide_shadow_exec as Hexec.
  rewrite HvA, HvB, Hmul in Hexec.
  subst outputs. unfold shadow_outputs in Hdistinct.
  rewrite !NoDup_cons, !not_elem_of_cons in Hdistinct. destruct_and!.
  eexists. split; [exact Hexec|].
  repeat split; mem_lookup; reflexivity.
Qed.

End DivideShadow.

(** C1.  A call of [kernel_filter_divide_shadow] for a pixel [(x, y)] inside
    the rectangle reads the shadow record at [base + denoising_offset + 14],
    where [base] is the address of the pixel's record in its tile, and
    leaves at index [idx = (y-rect.y)*align_up(rect.z-rect.x,4)+(x-rect.x)]
    of the five output arrays: [unfilteredA = record[1]/max(record[0], 1e-7)],
    [unfilteredB = record[4]/max(record[3], 1e-7)],
    [sampleVariance = 0.5*(varA+varB)/sample],
    [sampleVarianceV = 0.5*(varA-varB)^2/sample^2] and
    [bufferVariance = 0.5*(unfilteredA-unfilteredB)^2], where [varA] and
    [varB] are [record[2]] and [record[5]], or with the split flag
    [max(0, record[2] - unfilteredA^2*oddSample)] and
    [max(0, record[5] - unfilteredB^2*evenSample)], divided by
    [oddSample - 1] and [evenSample - 1], with [oddSample = ceil(sample/2)]
    and [evenSample = floor(sample/2)].  This holds for a sample count that
    is not negative and whose square is an [int], that is up to 46340, and
    for a rectangle whose padded area is an [int]; the output cells are
    allocated, pairwise distinct and none of them is a cell of the
    record. *)
Theorem divide_shadow_values
    sample tiles x y unfilteredA unfilteredB sampleVariance sampleVarianceV bufferVariance
    rect buffer_pass_stride buffer_denoising_offset (use_split_variance : bool)
    (m : memory) base r0 r1 r2 r3 r4 r5 :
  let idx := pixel_index rect x y in
  let outputs :=
    shadow_outputs unfilteredA unfilteredB sampleVariance sampleVarianceV
      bufferVariance idx in
  let record := base + Int32.add buffer_denoising_offset 14 in
  in_rect rect x y -> rect_fits rect ->
  0 <= sample -> sample * sample <= Int32.int_max ->
  pixel_base tiles x y buffer_pass_stride = Some base ->
  m !! (record + 0) = Some r0 -> m !! (record + 1) = Some r1 ->
  m !! (record + 2) = Some r2 -> m !! (record + 3) = Some r3 ->
  m !! (record + 4) = Some r4 -> m !! (record + 5) = Some r5 ->
  NoDup outputs ->
  Forall (fun p => is_Some (m !! p)) outputs ->
  Forall (fun p => p ∉ outputs) (shadow_record record) ->
  let uA := F32.div r1 (F32.max r0 F32.eps) in
  let uB := F32.div r4 (F32.max r3 F32.eps) in
  let oddSample := ceil_half sample in
  let evenSample := floor_half sample in
  let vA :=
    F32.div
      (if use_split_variance
       then F32.max F32.zero
              (F32.sub r2 (F32.mul (F32.mul uA uA) (F32.of_int oddSample)))
       else r2)
      (F32.of_int (oddSample - 1)) in
  let vB :=
    F32.div
      (if use_split_variance
       then F32.max F32.zero
              (F32.sub r5 (F32.mul (F32.mul uB uB) (F32.of_int evenSample)))
       else r5)
      (F32.of_int (evenSample - 1)) in
  exists m',
    kernel_filter_divide_shadow sample tiles x y
      unfilteredA unfilteredB sampleVariance sampleVarianceV bufferVariance
      rect buffer_pass_stride buffer_denoising_offset use_split_variance m
    = Some m' /\
    m' !! (unfilteredA + idx) = Some uA /\
    m' !! (unfilteredB + idx) = Some uB /\
    m' !! (sampleVariance + idx)
      = Some (F32.div (F32.mul F32.half (F32.add vA vB)) (F32.of_int sample)) /\
    m' !! (sampleVarianceV + idx)
      = Some (F32.div (F32.mul (F32.mul F32.half (F32.sub vA vB)) (F32.sub vA vB))
                      (F32.of_int (sample * sample))) /\
    m' !! (bufferVariance + idx)
      = Some (F32.mul (F32.mul F32.half (F32.sub uA uB)) (F32.sub uA uB)).
Proof.
  intros idx outputs record Hin Hfit. subst outputs record idx.
  rewrite <- (rect_index_plain rect x y Hin Hfit).
  intros Hs Hsq Hbase Hr0 Hr1 Hr2 Hr3 Hr4 Hr5 Hdistinct Hallocated Hreadonly.
  exact (shadow_values_at_kernel_index sample tiles x y unfilteredA unfilteredB sampleVariance
           sampleVarianceV bufferVariance rect buffer_pass_stride buffer_denoising_offset
           use_split_variance m base r0 r1 r2 r3 r4 r5
           Hbase Hr0 Hr1 Hr2 Hr3 Hr4 Hr5 Hdistinct Hallocated Hreadonly Hs Hsq).
Qed.

(** The shadow example of the specification: sample count 4 and the record
    [2, 4, 9, 2, 4, 9] with the split flag on, at index 9 of the output
    arrays. *)
Lemma divide_shadow_values_witness :
  pixel_index scene_rect 5 6 = 9 /\
  exists m',
    kernel_filter_divide_shadow 4 scene_tiles 5 6 0 16 32 48 64 scene_rect 20 0 true
      scene_memory = Some m' /\
    m' !! (0 + 9) = Some (F32.of_int 2) /\
    m' !! (16 + 9) = Some (F32.of_int 2) /\
    m' !! (32 + 9) = Some F32.quarter /\
    m' !! (48 + 9) = Some F32.zero /\
    m' !! (64 + 9) = Some F32.zero.
Proof.
  split; [reflexivity|].
  destruct (divide_shadow_values 4 scene_tiles 5 6 0 16 32 48 64 scene_rect 20 0 true
              scene_memory 1180
              (F32.of_int 2) (F32.of_int 4) (F32.of_int 9)
              (F32.of_int 2) (F32.of_int 4) (F32.of_int 9))
    as (m' & Hrun & HA & HB & HsV & HsVV & HbV);
    [by_comparison
    | by_comparison
    | lia | vm_compute; discriminate
    | reflexivity | reflexivity | reflexivity | reflexivity | reflexivity | reflexivity
    | reflexivity | by_compute | by_compute | by_compute |].
  exists m'. split; [exact Hrun|].
  change (pixel_index scene_rect 5 6) with 9 in *.
  repeat split; [rewrite HA | rewrite HB | rewrite HsV | rewrite HsVV | rewrite HbV];
    reflexivity.
Defined.

(** At 46341 samples the square [sample*sample] is not an [int].  For the
    record [1, 0, 2, 1, 0, 0] and the split flag off,
    [0.5*(varA-varB)^2/sample^2] is positive, and the [sampleVarianceV] the
    kernel writes is negative: it divides by the product computed in [int],
    which has wrapped to [-2147479015]. *)
Lemma divide_shadow_values_overflow :
  let m : memory :=
    cells 1194 (F32.of_int <$> [1; 0; 2; 1; 0; 0]) ∪ cells 0 (replicate 80 F32.zero) in
  let sample := 46341 in
  let vA := F32.div (F32.of_int 2) (F32.of_int (ceil_half sample - 1)) in
  let vB := F32.div (F32.of_int 0) (F32.of_int (floor_half sample - 1)) in
  let claimed :=
    F32.div (F32.mul (F32.mul F32.half (F32.sub vA vB)) (F32.sub vA vB))
            (F32.of_int (sample * sample)) in
  in_rect scene_rect 5 6 /\ rect_fits scene_rect /\
  Int32.mul sample sample = -2147479015 /\
  exists m' v,
    kernel_filter_divide_shadow sample scene_tiles 5 6 0 16 32 48 64 scene_rect 20 0
      false m = Some m' /\
    m' !! (48 + pixel_index scene_rect 5 6) = Some v /\
    v <> claimed /\
    F32.gt claimed F32.zero = true /\ F32.gt F32.zero v = true.
Proof.
  cbv zeta.
  split; [by_comparison|].
  split; [by_comparison|].
  split; [reflexivity|].
  destruct (kernel_filter_divide_shadow 46341 scene_tiles 5 6 0 16 32 48 64 scene_rect
              20 0 false _) as [m'|] eqn:Hrun; [|vm_compute in Hrun; discriminate].
  destruct (m' !! (48 + pixel_index scene_rect 5 6)) as [v|] eqn:Hv;
    [|vm_compute in Hrun; injection Hrun as <-; vm_compute in Hv; discriminate].
  exists m', v. split; [reflexivity|]. split; [exact Hv|].
  vm_compute in Hrun. injection Hrun as <-. vm_compute in Hv. injection Hv as <-.
  split; [vm_compute; discriminate|]. split; vm_compute; reflexivity.
Qed.

(** A call that returns changes no cell of memory other than the five
    cells at the index the kernel computes, and allocates and frees
    nothing. *)
Lemma divide_shadow_unchanged sample tiles x y
    unfilteredA unfilteredB sampleVariance sampleVarianceV bufferVariance
    rect buffer_pass_stride buffer_denoising_offset use_split_variance
    (m m' : memory) :
  kernel_filter_divide_shadow sample tiles x y
    unfilteredA unfilteredB sampleVariance sampleVarianceV bufferVariance
    rect buffer_pass_stride buffer_denoising_offset use_split_variance m
  = Some m' ->
  let outputs :=
    shadow_outputs unfilteredA unfilteredB sampleVariance sampleVarianceV
      bufferVariance (rect_index rect x y) in
  (forall p, p ∉ outputs -> m' !! p = m !! p) /\
  (forall p, is_Some (m' !! p) <-> is_Some (m !! p)) /\
  Forall (fun p => is_Some (m !! p)) outputs.
Proof.
  unfold kernel_filter_divide_shadow. intros H.
  repeat match type of H with
  | (?o ≫= _) = Some _ =>
      let E := fresh "E" in destruct o eqn:E; simpl in H; [|discriminate]
  | (let '(_, _) := ?o in _) = _ => destruct o
  end.
  repeat match goal with
  | E : (if _ then _ else _) = Some _ |- _ => clear E
  | E : load _ _ = Some _ |- _ => clear E
  end.
  unfold shadow_outputs. cbv zeta.
  split; [|split].
  - intros p Hp. rewrite !not_elem_of_cons in Hp. destruct_and!.
    repeat match goal with
    | S : store _ _ _ = Some ?m1 |- ?m1 !! p = _ =>
        rewrite (store_other _ _ _ _ p S) by assumption
    end.
    reflexivity.
  - intros p.
    repeat match goal with
    | S : store _ _ _ = Some ?m1 |- is_Some (?m1 !! p) <-> _ =>
        rewrite (store_allocated _ _ _ _ p S)
    end.
    reflexivity.
  - repeat match goal with
    | S : store ?m0 ?q _ = Some ?m1 |- _ =>
        pose proof (proj1 (store_inv _ _ _ _ S));
        pose proof (fun p => proj1 (store_allocated _ _ _ _ p S));
        clear S
    end.
    repeat constructor; auto 10.
Qed.

(** C9.  A call of [kernel_filter_divide_shadow] for pixel [(x, y)] modifies
    one element of each of the five output arrays, the one at the index
    [idx] the kernel computes, which for a pixel inside a rectangle whose
    padded area is an [int] is
    [(y-rect.y)*align_up(rect.z-rect.x,4)+(x-rect.x)]: when the record can
    be read and the five cells at [idx] are allocated, pairwise distinct and
    no cell of the record, the call returns and each of the five cells
    holds the value the kernel computed from the record and the sample
    count, whatever it held before; and a call that returns changes no
    other cell, so every other element of the output arrays and every cell
    of the tile buffers keeps its value, and no cell is allocated or
    freed. *)
Theorem divide_shadow_frame
    sample tiles x y unfilteredA unfilteredB sampleVariance sampleVarianceV bufferVariance
    rect buffer_pass_stride buffer_denoising_offset (use_split_variance : bool)
    (m : memory) base r0 r1 r2 r3 r4 r5 :
  let idx := rect_index rect x y in
  let outputs :=
    shadow_outputs unfilteredA unfilteredB sampleVariance sampleVarianceV
      bufferVariance idx in
  let record := base + Int32.add buffer_denoising_offset 14 in
  let uA := F32.div r1 (F32.max r0 F32.eps) in
  let uB := F32.div r4 (F32.max r3 F32.eps) in
  let varA :=
    F32.div
      (if use_split_variance
       then F32.max F32.zero
              (F32.sub r2 (F32.mul (F32.mul uA uA) (F32.of_int (odd_sample sample))))
       else r2)
      (F32.of_int (Int32.sub (odd_sample sample) 1)) in
  let varB :=
    F32.div
      (if use_split_variance
       then F32.max F32.zero
              (F32.sub r5 (F32.mul (F32.mul uB uB) (F32.of_int (even_sample sample))))
       else r5)
      (F32.of_int (Int32.sub (even_sample sample) 1)) in
  (in_rect rect x y -> rect_fits rect -> idx = pixel_index rect x y) /\
  (pixel_base tiles x y buffer_pass_stride = Some base ->
   m !! (record + 0) = Some r0 -> m !! (record + 1) = Some r1 ->
   m !! (record + 2) = Some r2 -> m !! (record + 3) = Some r3 ->
   m !! (record + 4) = Some r4 -> m !! (record + 5) = Some r5 ->
   NoDup outputs ->
   Forall (fun p => is_Some (m !! p)) outputs ->
   Forall (fun p => p ∉ outputs) (shadow_record record) ->
   exists m',
     kernel_filter_divide_shadow sample tiles x y
       unfilteredA unfilteredB sampleVariance sampleVarianceV bufferVariance
       rect buffer_pass_stride buffer_denoising_offset use_split_variance m
     = Some m' /\
     m' !! (unfilteredA + idx) = Some uA /\
     m' !! (unfilteredB + idx) = Some uB /\
     m' !! (sampleVariance + idx)
       = Some (F32.div (F32.mul F32.half (F32.add varA varB)) (F32.of_int sample)) /\
     m' !! (sampleVarianceV + idx)
       = Some (F32.div (F32.mul (F32.mul F32.half (F32.sub varA varB))
                                (F32.sub varA varB))
                       (F32.of_int (Int32.mul sample sample))) /\
     m' !! (bufferVariance + idx)
       = Some (F32.mul (F32.mul F32.half (F32.sub uA uB)) (F32.sub uA uB))) /\
  (forall m',
     kernel_filter_divide_shadow sample tiles x y
       unfilteredA unfilteredB sampleVariance sampleVarianceV bufferVariance
       rect buffer_pass_stride buffer_denoising_offset use_split_variance m
     = Some m' ->
     (forall p, p ∉ outputs -> m' !! p = m !! p) /\
     (forall p, is_Some (m' !! p) <-> is_Some (m !! p)) /\
     Forall (fun p => is_Some (m !! p)) outputs).
Proof.
  intros idx outputs record uA uB varA varB.
  split; [exact (rect_index_plain rect x y)|]. split.
  - intros Hbase Hr0 Hr1 Hr2 Hr3 Hr4 Hr5 Hdistinct Hallocated Hreadonly.
    eexists. split.
    + exact (divide_shadow_exec sample tiles x y unfilteredA unfilteredB sampleVariance
               sampleVarianceV bufferVariance rect buffer_pass_stride
               buffer_denoising_offset use_split_variance m base r0 r1 r2 r3 r4 r5
               Hbase Hr0 Hr1 Hr2 Hr3 Hr4 Hr5 Hdistinct Hallocated Hreadonly).
    + subst outputs idx. unfold shadow_outputs in Hdistinct.
      rewrite !NoDup_cons, !not_elem_of_cons in Hdistinct. destruct_and!.
      repeat split; mem_lookup; reflexivity.
  - intros m' Hrun.
    exact (divide_shadow_unchanged _ _ _ _ _ _ _ _ _ _ _ _ _ _ _ Hrun).
Qed.

(** In the call of the shadow example the index is 9; the cell at index 9
    of [unfilteredA], which held 0, holds 2, and a neighbouring output cell
    and a record cell keep their values. *)
Lemma divide_shadow_frame_witness :
  rect_index scene_rect 5 6 = 9 /\
  exists m',
    kernel_filter_divide_shadow 4 scene_tiles 5 6 0 16 32 48 64 scene_rect 20 0 true
      scene_memory = Some m' /\
    scene_memory !! 9 = Some F32.zero /\ m' !! 9 = Some (F32.of_int 2) /\
    m' !! 8 = scene_memory !! 8 /\ m' !! 1195 = scene_memory !! 1195.
Proof.
  destruct (divide_shadow_frame 4 scene_tiles 5 6 0 16 32 48 64 scene_rect 20 0 true
              scene_memory 1180
              (F32.of_int 2) (F32.of_int 4) (F32.of_int 9)
              (F32.of_int 2) (F32.of_int 4) (F32.of_int 9))
    as (Hidx & Hwritten & Hframe).
  split; [rewrite Hidx; [reflexivity | by_comparison | by_comparison]|].
  destruct Hwritten as (m' & Hrun & HA & _);
    [reflexivity | reflexivity | reflexivity | reflexivity | reflexivity | reflexivity
    | reflexivity | by_compute | by_compute | by_compute |].
  destruct (Hframe m' Hrun) as (Hother & _ & _).
  exists m'. split; [exact Hrun|]. split; [reflexivity|].
  split.
  { change (m' !! (0 + rect_index scene_rect 5 6) = Some (F32.of_int 2)).
    rewrite HA. reflexivity. }
  split; apply Hother; by_compute.
Defined.

(** ** The feature loader *)

Lemma add3_assoc offset a x :
  Int32.add (Int32.add offset a) x = Int32.add (Int32.add a x) offset.
Proof.
  unfold Int32.add. rewrite !wrap_add_l. f_equal. lia.
Qed.

Section GetFeature.

Variables (sample : Z) (tiles : TilesInfo) (m_offset v_offset : Z) (x y : Z).
Variables (mean variance : Z) (rect : int4).
Variables (buffer_pass_stride buffer_denoising_offset : Z).
Variable use_split_variance : bool.
Variable m : memory.

Let idx := rect_index rect x y.

Variables (base : Z) (rm rv : spec_float).
Hypothesis Hbase : pixel_base tiles x y buffer_pass_stride = Some base.

Let record := base + buffer_denoising_offset.

Hypothesis Hrm : m !! (record + m_offset) = Some rm.
Hypothesis Hrv : m !! (record + v_offset) = Some rv.
Hypothesis Hmean : is_Some (m !! (mean + idx)).
Hypothesis Hvariance : is_Some (m !! (variance + idx)).
Hypothesis Hdistinct : mean + idx <> variance + idx.
Hypothesis Hreadonly : record + v_offset <> mean + idx.

Let mu := F32.div rm (F32.of_int sample).

Lemma get_feature_exec :
  kernel_filter_get_feature sample tiles m_offset v_offset x y mean variance rect
    buffer_pass_stride buffer_denoising_offset use_split_variance m
  = Some
      (<[variance + idx :=
           if use_split_variance
           then F32.max F32.zero
                  (F32.div (F32.sub rv (F32.mul (F32.mul mu mu) (F32.of_int sample)))
                           (F32.of_int (Int32.mul sample (Int32.sub sample 1))))
           else F32.div rv (F32.of_int (Int32.mul sample (Int32.sub sample 1)))]>
      (<[mean + idx := mu]> m)).
Proof.
  destruct (pixel_base_inv _ _ _ _ _ Hbase)
    as (x1 & x2 & y1 & y2 & offset & stride & buffer & E1 & E2 & E3 & E4 & Eo & Es & Eb & Ebase).
  subst idx. unfold kernel_filter_get_feature.
  rewrite E1, E2, E3, E4. simpl. rewrite Eo, Es, Eb. simpl.
  rewrite add3_assoc, <- Ebase. fold record.
  unfold load. rewrite Hrm. simpl.
  rewrite store_Some by assumption. simpl.
  destruct use_split_variance; simpl; mem_lookup; rewrite Hrv; simpl;
    rewrite store_Some by (mem_lookup; assumption); reflexivity.
Qed.

(** The values the kernel leaves, when [sample*(sample-1)] is an [int], at
    the index the kernel computes. *)
Lemma feature_values_at_kernel_index :
  Int32.in_range (sample - 1) -> Int32.in_range (sample * (sample - 1)) ->
  let variance_v :=
    if use_split_variance
    then F32.max F32.zero
           (F32.div (F32.sub rv (F32.mul (F32.mul mu mu) (F32.of_int sample)))
                    (F32.of_int (sample * (sample - 1))))
    else F32.div rv (F32.of_int (sample * (sample - 1))) in
  exists m',
    kernel_filter_get_feature sample tiles m_offset v_offset x y mean variance rect
      buffer_pass_stride buffer_denoising_offset use_split_variance m
    = Some m' /\
    m' !! (mean + idx) = Some mu /\
    m' !! (variance + idx) = Some variance_v /\
    (sample = 2 -> rm = F32.of_int 10 -> rv = F32.of_int 5 ->
     use_split_variance = false ->
     m' !! (mean + idx) = Some (F32.of_int 5) /\
     m' !! (variance + idx) = Some (S754_finite false 10485760 (-22))).
Proof.
  intros Hs1 Hs2 variance_v.
  assert (Hmul : Int32.mul sample (Int32.sub sample 1) = sample * (sample - 1)).
  { unfold Int32.mul, Int32.sub. rewrite (wrap_id (sample - 1)) by assumption.
    apply wrap_id. assumption. }
  pose proof get_feature_exec as Hexec. rewrite Hmul in Hexec.
  eexists. split; [exact Hexec|].
  split; [|split].
  - mem_lookup. reflexivity.
  - mem_lookup. reflexivity.
  - intros -> Em Ev ->. subst mu. rewrite Em, Ev. mem_lookup. split; reflexivity.
Qed.

End GetFeature.

(** C5.  A call of [kernel_filter_get_feature] for a pixel [(x, y)] inside the
    rectangle leaves [mean[idx] = record[m_offset]/sample] and, with the
    split flag, [variance[idx] = max(0, (record[v_offset] -
    mean[idx]^2*sample) / (sample*(sample-1)))], else
    [variance[idx] = record[v_offset]/(sample*(sample-1))], at
    [idx = (y-rect.y)*align_up(rect.z-rect.x,4)+(x-rect.x)]; for
    [sample = 2], [record[m_offset] = 10], [record[v_offset] = 5] and the
    flag off these are [5] and [2.5].  This holds when [sample - 1] and the
    product [sample*(sample-1)] are [int]s, that is for a sample count up
    to 46341, and for a rectangle whose padded area is an [int]; the two
    output cells are allocated and distinct, and the mean cell is not the
    variance accumulator of the record. *)
Theorem get_feature_values
    sample tiles m_offset v_offset x y mean variance rect
    buffer_pass_stride buffer_denoising_offset (use_split_variance : bool)
    (m : memory) base rm rv :
  let idx := pixel_index rect x y in
  let record := base + buffer_denoising_offset in
  in_rect rect x y -> rect_fits rect ->
  Int32.in_range (sample - 1) -> Int32.in_range (sample * (sample - 1)) ->
  pixel_base tiles x y buffer_pass_stride = Some base ->
  m !! (record + m_offset) = Some rm ->
  m !! (record + v_offset) = Some rv ->
  is_Some (m !! (mean + idx)) ->
  is_Some (m !! (variance + idx)) ->
  mean + idx <> variance + idx ->
  record + v_offset <> mean + idx ->
  let mu := F32.div rm (F32.of_int sample) in
  let variance_v :=
    if use_split_variance
    then F32.max F32.zero
           (F32.div (F32.sub rv (F32.mul (F32.mul mu mu) (F32.of_int sample)))
                    (F32.of_int (sample * (sample - 1))))
    else F32.div rv (F32.of_int (sample * (sample - 1))) in
  exists m',
    kernel_filter_get_feature sample tiles m_offset v_offset x y mean variance rect
      buffer_pass_stride buffer_denoising_offset use_split_variance m
    = Some m' /\
    m' !! (mean + idx) = Some mu /\
    m' !! (variance + idx) = Some variance_v /\
    (sample = 2 -> rm = F32.of_int 10 -> rv = F32.of_int 5 ->
     use_split_variance = false ->
     m' !! (mean + idx) = Some (F32.of_int 5) /\
     m' !! (variance + idx) = Some (S754_finite false 10485760 (-22))).
Proof.
  intros idx record Hin Hfit. subst record idx.
  rewrite <- (rect_index_plain rect x y Hin Hfit).
  intros Hs1 Hs2 Hbase Hrm Hrv Hmean Hvariance Hdistinct Hreadonly.
  exact (feature_values_at_kernel_index sample tiles m_offset v_offset x y mean variance rect
           buffer_pass_stride buffer_denoising_offset use_split_variance m base rm rv
           Hbase Hrm Hrv Hmean Hvariance Hdistinct Hreadonly Hs1 Hs2).
Qed.

(** The feature example of the specification, at pixel [(5, 6)] of the
    scene, which has index 9, with the accumulators at offsets 0 and 1 of
    the record. *)
Lemma get_feature_values_witness :
  pixel_index scene_rect 5 6 = 9 /\
  exists m',
    kernel_filter_get_feature 2 scene_tiles 0 1 5 6 0 16 scene_rect 20 14 false
      (cells 1194 (F32.of_int <$> [10; 5]) ∪ cells 0 (replicate 32 F32.zero))
    = Some m' /\
    m' !! (0 + 9) = Some (F32.of_int 5) /\
    m' !! (16 + 9) = Some (S754_finite false 10485760 (-22)).
Proof.
  split; [reflexivity|].
  destruct (get_feature_values 2 scene_tiles 0 1 5 6 0 16 scene_rect 20 14 false
              (cells 1194 (F32.of_int <$> [10; 5]) ∪ cells 0 (replicate 32 F32.zero))
              1180 (F32.of_int 10) (F32.of_int 5))
    as (m' & Hrun & _ & _ & Hex);
    [by_comparison | by_comparison
    | vm_compute; split; discriminate | vm_compute; split; discriminate
    | reflexivity | reflexivity | reflexivity | by_compute | by_compute
    | vm_compute; discriminate | vm_compute; discriminate |].
  exists m'. split; [exact Hrun|]. apply Hex; reflexivity.
Defined.

(** At 46342 samples the product [sample*(sample-1)] is not an [int].  For
    [record[v_offset] = 5] and the split flag off,
    [record[v_offset]/(sample*(sample-1))] is positive, and the variance
    the kernel writes is negative: it divides by the product computed in
    [int], which has wrapped to [-2147432674]. *)
Lemma get_feature_values_overflow :
  let m : memory :=
    cells 1194 (F32.of_int <$> [10; 5]) ∪ cells 0 (replicate 32 F32.zero) in
  let sample := 46342 in
  let claimed := F32.div (F32.of_int 5) (F32.of_int (sample * (sample - 1))) in
  in_rect scene_rect 5 6 /\ rect_fits scene_rect /\
  Int32.mul sample (Int32.sub sample 1) = -2147432674 /\
  exists m' v,
    kernel_filter_get_feature sample scene_tiles 0 1 5 6 0 16 scene_rect 20 14 false m
    = Some m' /\
    m' !! (16 + pixel_index scene_rect 5 6) = Some v /\
    v <> claimed /\
    F32.gt claimed F32.zero = true /\ F32.gt F32.zero v = true.
Proof.
  cbv zeta.
  split; [by_comparison|]. split; [by_comparison|]. split; [reflexivity|].
  destruct (kernel_filter_get_feature 46342 scene_tiles 0 1 5 6 0 16 scene_rect 20 14
              false _) as [m'|] eqn:Hrun; [|vm_compute in Hrun; discriminate].
  destruct (m' !! (16 + pixel_index scene_rect 5 6)) as [v|] eqn:Hv;
    [|vm_compute in Hrun; injection Hrun as <-; vm_compute in Hv; discriminate].
  exists m', v. split; [reflexivity|]. split; [exact Hv|].
  vm_compute in Hrun. injection Hrun as <-. vm_compute in Hv. injection Hv as <-.
  split; [vm_compute; discriminate|]. split; vm_compute; reflexivity.
Qed.

(** ** The half combiner: loops and the local array *)

Lemma for_loop_fold {S : Type} (body : Z -> S -> option S) n i (s : S) :
  for_loop n i body s = fold_opt body (seqZ i (Z.of_nat n)) s.
Proof.
  revert i s. induction n as [|n IH]; intros i s.
  - reflexivity.
  - rewrite seqZ_cons by lia. simpl for_loop. simpl fold_opt.
    destruct (body i s) as [s'|]; simpl; [|reflexivity].
    rewrite IH. do 2 f_equal; lia.
Qed.

Lemma for_range_fold {S : Type} (body : Z -> S -> option S) lo hi (s : S) :
  for_range lo hi body s = fold_opt body (seqZ lo (hi - lo)) s.
Proof.
  unfold for_range. rewrite for_loop_fold.
  destruct (Z_le_gt_dec (hi - lo) 0) as [Hle|Hgt].
  - replace (Z.to_nat (hi - lo)) with 0%nat by lia.
    rewrite (seqZ_nil lo (hi - lo)) by lia. reflexivity.
  - rewrite Z2Nat.id by lia. reflexivity.
Qed.

Lemma fold_opt_ext {S : Type} (f g : Z -> S -> option S) l (s : S) :
  (forall i s, f i s = g i s) -> fold_opt f l s = fold_opt g l s.
Proof.
  intros H. revert s. induction l as [|i l IH]; intros s; simpl; [reflexivity|].
  rewrite H. destruct (g i s); simpl; auto.
Qed.

Lemma values_of_length acc : (length acc <= 25)%nat -> length (values_of acc) = 25%nat.
Proof.
  intros H. unfold values_of. rewrite length_app, length_fmap, length_replicate. lia.
Qed.

Lemma values_of_snoc acc v :
  (length acc < 25)%nat ->
  values_set (values_of acc) (Z.of_nat (length acc)) v = Some (values_of (acc ++ [v])).
Proof.
  intros H. unfold values_set.
  rewrite values_of_length by lia.
  replace (0 <=? Z.of_nat (length acc)) with true by (symmetry; apply Z.leb_le; lia).
  replace (Z.of_nat (length acc) <? Z.of_nat 25) with true by (symmetry; apply Z.ltb_lt; lia).
  simpl. f_equal. unfold values_of. rewrite Nat2Z.id.
  replace (25 - length acc)%nat with (S (25 - length (acc ++ [v])))%nat
    by (rewrite length_app; simpl; lia).
  simpl replicate.
  rewrite insert_app_r_alt by (rewrite length_fmap; lia).
  rewrite length_fmap, Nat.sub_diag. simpl.
  rewrite fmap_app, <- app_assoc. reflexivity.
Qed.

Lemma values_of_get acc (i : nat) v :
  acc !! i = Some v -> values_get (values_of acc) (Z.of_nat i) = Some v.
Proof.
  intros H. unfold values_get.
  replace (0 <=? Z.of_nat i) with true by (symmetry; apply Z.leb_le; lia).
  rewrite Nat2Z.id. unfold values_of.
  rewrite lookup_app_l by (rewrite length_fmap; eapply lookup_lt_Some; eauto).
  rewrite list_lookup_fmap, H. reflexivity.
Qed.

Lemma mapM_app_Some {A B : Type} (f : A -> option B) l1 l2 vs :
  mapM f (l1 ++ l2) = Some vs ->
  exists vs1 vs2, mapM f l1 = Some vs1 /\ mapM f l2 = Some vs2 /\ vs = vs1 ++ vs2.
Proof.
  revert vs. induction l1 as [|x l1 IH]; intros vs H; simpl in *.
  - exists [], vs. auto.
  - destruct (f x) as [v|]; simpl in *; [|discriminate].
    destruct (mapM f (l1 ++ l2)) as [ws|] eqn:E; simpl in *; [|discriminate].
    inversion H; subst.
    destruct (IH ws eq_refl) as (vs1 & vs2 & -> & -> & ->).
    exists (v :: vs1), vs2. auto.
Qed.

Arguments gather_pixel : simpl never.
Arguments values_set : simpl never.
Arguments values_get : simpl never.
Arguments sq_diff : simpl never.

Section Gather.

Variables (a b : Z) (rect : int4) (m : memory).

Lemma gather_pixel_snoc py px acc v :
  sq_diff m a b rect (px, py) = Some v ->
  (length acc < 25)%nat ->
  gather_pixel a b rect m py px (Z.of_nat (length acc), values_of acc)
  = Some (Z.of_nat (length (acc ++ [v])), values_of (acc ++ [v])).
Proof.
  unfold sq_diff, gather_pixel, load. simpl. intros H Hlen.
  destruct (m !! (a + rect_index rect px py)) as [a1|]; simpl in *; [|discriminate].
  destruct (m !! (b + rect_index rect px py)) as [b1|]; simpl in *; [|discriminate].
  inversion H; subst. rewrite values_of_snoc by assumption. simpl.
  do 2 f_equal. rewrite length_app. simpl. unfold Int32.add.
  rewrite wrap_id by (unfold Int32.in_range, Int32.int_min, Int32.int_max; lia). lia.
Qed.

Lemma gather_cols py cols acc vs :
  mapM (sq_diff m a b rect) ((fun px => (px, py)) <$> cols) = Some vs ->
  (length acc + length vs <= 25)%nat ->
  fold_opt (fun px => gather_pixel a b rect m py px) cols
    (Z.of_nat (length acc), values_of acc)
  = Some (Z.of_nat (length (acc ++ vs)), values_of (acc ++ vs)).
Proof.
  revert acc vs. induction cols as [|px cols IH]; intros acc vs H Hlen; simpl in *.
  - inversion H. rewrite app_nil_r. reflexivity.
  - destruct (sq_diff m a b rect (px, py)) as [v|] eqn:Ev; simpl in *; [|discriminate].
    destruct (mapM _ _) as [ws|] eqn:Ews; simpl in *; [|discriminate].
    inversion H; subst. simpl in Hlen.
    rewrite (gather_pixel_snoc _ _ _ _ Ev) by lia. simpl.
    rewrite (IH (acc ++ [v]) ws eq_refl) by (rewrite length_app; simpl; lia).
    rewrite <- app_assoc. reflexivity.
Qed.

Lemma gather_rows rows cols acc vs :
  mapM (sq_diff m a b rect) (py ← rows; (fun px => (px, py)) <$> cols) = Some vs ->
  (length acc + length vs <= 25)%nat ->
  fold_opt (fun py => fold_opt (fun px => gather_pixel a b rect m py px) cols) rows
    (Z.of_nat (length acc), values_of acc)
  = Some (Z.of_nat (length (acc ++ vs)), values_of (acc ++ vs)).
Proof.
  revert acc vs. induction rows as [|py rows IH]; intros acc vs H Hlen; simpl in *.
  - inversion H. rewrite app_nil_r. reflexivity.
  - apply mapM_app_Some in H as (vs1 & vs2 & H1 & H2 & ->).
    rewrite length_app in Hlen.
    rewrite (gather_cols _ _ _ _ H1) by lia. simpl.
    rewrite (IH (acc ++ vs1) vs2 H2) by (rewrite length_app; lia).
    rewrite <- app_assoc. reflexivity.
Qed.

(** The two gathering loops fill the array with the window's values. *)
Lemma gather_window x y r vs :
  window_values m a b rect x y r = Some vs ->
  (length vs <= 25)%nat ->
  for_range (Int32.max (Int32.sub y r) (i4y rect))
            (Int32.min (Int32.add (Int32.add y r) 1) (i4w rect))
    (fun py =>
       for_range (Int32.max (Int32.sub x r) (i4x rect))
                 (Int32.min (Int32.add (Int32.add x r) 1) (i4z rect))
         (fun px => gather_pixel a b rect m py px))
    (0, replicate 25 None)
  = Some (Z.of_nat (length vs), values_of vs).
Proof.
  intros H Hlen. rewrite for_range_fold.
  erewrite fold_opt_ext by (intros; apply for_range_fold).
  exact (gather_rows _ _ [] vs H Hlen).
Qed.

End Gather.

(** ** The half combiner: the insertion sort *)

Lemma sort_shift_unfold fuel v j values :
  sort_shift fuel v j values =
  if j >=? 0 then
    vj ← values_get values j;
    if F32.gt vj v then
      match fuel with
      | O => None
      | S fuel' =>
          values ← values_set values (Int32.add j 1) vj;
          sort_shift fuel' v (Int32.sub j 1) values
      end
    else Some (j, values)
  else Some (j, values).
Proof. destruct fuel; reflexivity. Qed.

Lemma insert_sorted_nil v : insert_sorted v [] = [v].
Proof. reflexivity. Qed.

Lemma insert_sorted_snoc v l w :
  insert_sorted v (l ++ [w]) =
  if F32.gt w v then insert_sorted v l ++ [w] else l ++ [w; v].
Proof.
  unfold insert_sorted. rewrite rev_app_distr. simpl.
  destruct (F32.gt w v); simpl.
  - reflexivity.
  - rewrite rev_involutive, <- app_assoc. reflexivity.
Qed.

Lemma values_get_middle (front : list spec_float) w tail :
  values_get ((Some <$> front) ++ Some w :: tail) (Z.of_nat (length front)) = Some w.
Proof.
  unfold values_get.
  replace (0 <=? Z.of_nat (length front)) with true by (symmetry; apply Z.leb_le; lia).
  rewrite Nat2Z.id.
  rewrite lookup_app_r by (rewrite length_fmap; lia).
  rewrite length_fmap, Nat.sub_diag. reflexivity.
Qed.

Lemma values_set_middle (front : list spec_float) o tail v :
  values_set ((Some <$> front) ++ o :: tail) (Z.of_nat (length front)) v
  = Some ((Some <$> front) ++ Some v :: tail).
Proof.
  unfold values_set.
  replace (0 <=? Z.of_nat (length front)) with true by (symmetry; apply Z.leb_le; lia).
  replace (Z.of_nat (length front) <? _) with true
    by (symmetry; apply Z.ltb_lt; rewrite length_app, length_fmap; simpl; lia).
  simpl. rewrite Nat2Z.id.
  rewrite insert_app_r_alt by (rewrite length_fmap; lia).
  rewrite length_fmap, Nat.sub_diag. reflexivity.
Qed.

Lemma sort_shift_insert v front :
  forall h tail fuel,
    (length front <= fuel)%nat -> Z.of_nat (length front) < Int32.int_max ->
    exists j values',
      sort_shift fuel v (Z.of_nat (length front) - 1)
        ((Some <$> front) ++ Some h :: tail) = Some (j, values') /\
      values_set values' (Int32.add j 1) v
      = Some ((Some <$> insert_sorted v front) ++ tail).
Proof.
  induction front as [|w front IH] using rev_ind; intros h tail fuel Hfuel Hmax.
  - exists (-1), (Some h :: tail). split.
    + rewrite sort_shift_unfold. reflexivity.
    + exact (values_set_middle [] (Some h) tail v).
  - rewrite length_app in *. simpl length in *.
    rewrite sort_shift_unfold.
    replace (Z.of_nat (length front + 1) - 1) with (Z.of_nat (length front)) by lia.
    replace (Z.of_nat (length front) >=? 0) with true by (symmetry; apply Z.geb_le; lia).
    rewrite fmap_app, <- app_assoc. simpl.
    rewrite values_get_middle. simpl.
    rewrite insert_sorted_snoc.
    assert (Hj1 : Int32.add (Z.of_nat (length front)) 1 = Z.of_nat (length (front ++ [w]))).
    { unfold Int32.add. rewrite length_app. simpl.
      rewrite wrap_id by (unfold Int32.in_range, Int32.int_min, Int32.int_max in *; lia). lia. }
    destruct (F32.gt w v).
    + destruct fuel as [|fuel]; [lia|].
      rewrite Hj1.
      replace ((Some <$> front) ++ Some w :: Some h :: tail)
        with ((Some <$> (front ++ [w])) ++ Some h :: tail)
        by (rewrite fmap_app, <- app_assoc; reflexivity).
      rewrite values_set_middle. simpl.
      replace (Int32.sub (Z.of_nat (length front)) 1) with (Z.of_nat (length front) - 1)
        by (unfold Int32.sub; rewrite wrap_id;
            [reflexivity | unfold Int32.in_range, Int32.int_min, Int32.int_max in *; lia]).
      rewrite fmap_app, <- app_assoc. simpl.
      destruct (IH w (Some w :: tail) fuel ltac:(lia) ltac:(lia)) as (j & values' & E1 & E2).
      exists j, values'. split; [exact E1|].
      rewrite E2, fmap_app, <- app_assoc. reflexivity.
    + eexists _, _. split; [reflexivity|].
      rewrite Hj1.
      replace ((Some <$> front) ++ Some w :: Some h :: tail)
        with ((Some <$> (front ++ [w])) ++ Some h :: tail)
        by (rewrite fmap_app, <- app_assoc; reflexivity).
      rewrite values_set_middle.
      rewrite !fmap_app, <- !app_assoc. reflexivity.
Qed.

Lemma sort_step_insert pre v post (rest : list (option spec_float)) :
  Z.of_nat (length pre) < Int32.int_max ->
  sort_step (Z.of_nat (length pre)) ((Some <$> (pre ++ v :: post)) ++ rest)
  = Some ((Some <$> (insert_sorted v pre ++ post)) ++ rest).
Proof.
  intros Hmax. unfold sort_step.
  rewrite fmap_app, fmap_cons, <- app_assoc, <- app_comm_cons.
  rewrite values_get_middle. cbn [mbind option_bind].
  replace (Int32.sub (Z.of_nat (length pre)) 1) with (Z.of_nat (length pre) - 1)
    by (unfold Int32.sub; rewrite wrap_id;
        [reflexivity | unfold Int32.in_range, Int32.int_min, Int32.int_max in *; lia]).
  rewrite Nat2Z.id.
  destruct (sort_shift_insert v pre v ((Some <$> post) ++ rest) (length pre)
              ltac:(lia) Hmax) as (j & values' & E1 & E2).
  rewrite E1. cbn [mbind option_bind]. rewrite E2, fmap_app, <- app_assoc. reflexivity.
Qed.

Lemma isort_snoc l v : isort (l ++ [v]) = insert_sorted v (isort l).
Proof. unfold isort. rewrite fold_left_app. reflexivity. Qed.

Lemma isort_length l : length (isort l) = length l.
Proof.
  induction l as [|v l IH] using rev_ind; [reflexivity|].
  rewrite isort_snoc. unfold insert_sorted.
  rewrite length_rev, length_app. simpl.
  assert (H : forall rl, length (ins_rev v rl) = S (length rl)).
  { induction rl as [|w rl IHr]; simpl; [reflexivity|].
    destruct (F32.gt w v); simpl; rewrite ?IHr; reflexivity. }
  rewrite H, length_rev, IH. lia.
Qed.

Lemma sort_loop done todo (rest : list (option spec_float)) :
  Z.of_nat (length done + length todo) < Int32.int_max ->
  fold_opt sort_step (seqZ (Z.of_nat (length done)) (Z.of_nat (length todo)))
    ((Some <$> (isort done ++ todo)) ++ rest)
  = Some ((Some <$> isort (done ++ todo)) ++ rest).
Proof.
  revert done. induction todo as [|v todo IH]; intros done Hmax.
  - rewrite !app_nil_r. reflexivity.
  - simpl length in *. rewrite seqZ_cons by lia. simpl.
    rewrite <- (isort_length done).
    rewrite sort_step_insert by (rewrite isort_length; lia). simpl.
    rewrite <- isort_snoc.
    replace (Z.succ (Z.of_nat (length (isort done)))) with (Z.of_nat (length (done ++ [v])))
      by (rewrite isort_length, length_app; simpl; lia).
    replace (Z.pred (Z.of_nat (S (length todo)))) with (Z.of_nat (length todo)) by lia.
    rewrite IH by (rewrite length_app; simpl; lia).
    rewrite <- app_assoc. reflexivity.
Qed.

(** The sorting loops leave the array sorted as [isort] does, whatever lies
    beyond the first [numValues] cells. *)
Lemma insertion_sort_isort l (rest : list (option spec_float)) :
  Z.of_nat (length l) < Int32.int_max ->
  insertion_sort (Z.of_nat (length l)) ((Some <$> l) ++ rest)
  = Some ((Some <$> isort l) ++ rest).
Proof.
  intros Hmax. unfold insertion_sort. rewrite for_range_fold.
  destruct l as [|v l]; [reflexivity|].
  simpl length.
  replace (Z.of_nat (S (length l)) - 1) with (Z.of_nat (length l)) by lia.
  exact (sort_loop [v] l rest ltac:(simpl in *; lia)).
Qed.

(** ** Order on binary32 values *)

Lemma SFcompare_antisym x y :
  SFcompare y x = CompOpp <$> SFcompare x y.
Proof.
  destruct x as [[]|[]| |[] mx ex], y as [[]|[]| |[] my ey]; simpl; try reflexivity;
    rewrite (Z.compare_antisym ex ey); destruct (ex ?= ey); simpl; try reflexivity;
    rewrite <- (Pos.compare_cont_antisym _ _ Eq); simpl;
    destruct (Pos.compare_cont Eq mx my); reflexivity.
Qed.

Lemma gt_asym x y : F32.gt x y = true -> F32.gt y x = false.
Proof.
  unfold F32.gt, SFltb. rewrite (SFcompare_antisym y x).
  destruct (SFcompare y x) as [[]|]; simpl; congruence.
Qed.

Lemma SFcompare_not_nan x y :
  F32.is_nan x = false -> F32.is_nan y = false -> is_Some (SFcompare x y).
Proof.
  destruct x as [[]|[]| |[] mx ex], y as [[]|[]| |[] my ey]; simpl;
    intros; try discriminate; eauto.
Qed.

Lemma not_gt_fle x y :
  F32.is_nan x = false -> F32.is_nan y = false -> not_gt x y -> fle x y.
Proof.
  unfold not_gt, fle, F32.gt, SFltb, SFleb. intros Hx Hy.
  rewrite (SFcompare_antisym y x).
  destruct (SFcompare_not_nan y x Hy Hx) as [c ->].
  destruct c; simpl; congruence.
Qed.

Lemma gt_fle x y : F32.gt x y = true -> fle y x.
Proof.
  unfold fle, F32.gt, SFltb, SFleb. destruct (SFcompare y x) as [[]|]; congruence.
Qed.

Lemma fle_key x y :
  F32.is_nan x = false -> F32.is_nan y = false ->
  fle x y <-> lex_le (key x) (key y).
Proof.
  unfold fle, SFleb, lex_le.
  destruct x as [[]|[]| |[] mx ex], y as [[]|[]| |[] my ey]; simpl;
    intros Hx Hy; try discriminate;
    try (split; intros; try discriminate; try reflexivity; lia);
    change (Pos.compare_cont Eq mx my) with (mx ?= my)%positive;
    destruct (Z.compare_spec ex ey); destruct (Pos.compare_spec mx my); simpl;
    split; intros; try discriminate; try reflexivity; lia.
Qed.

Lemma fle_trans x y z :
  F32.is_nan x = false -> F32.is_nan y = false -> F32.is_nan z = false ->
  fle x y -> fle y z -> fle x z.
Proof.
  intros Hx Hy Hz. rewrite !fle_key by assumption. unfold lex_le. lia.
Qed.

(** ** The sorted list *)

Lemma insert_sorted_split v l :
  exists l1 l2,
    l = l1 ++ l2 /\ insert_sorted v l = l1 ++ v :: l2 /\
    Forall (fun w => F32.gt w v = true) l2 /\
    (forall l1' w, l1 = l1' ++ [w] -> F32.gt w v = false).
Proof.
  induction l as [|w l IH] using rev_ind.
  - exists [], []. repeat split; auto. intros [|? ?] ? H; discriminate.
  - rewrite insert_sorted_snoc. destruct (F32.gt w v) eqn:E.
    + destruct IH as (l1 & l2 & -> & -> & H2 & H1).
      exists l1, (l2 ++ [w]). rewrite <- !app_assoc. repeat split; auto.
      apply Forall_app. auto.
    + exists (l ++ [w]), []. rewrite app_nil_r, <- app_assoc. repeat split; auto.
      intros l1' w' H. apply app_inj_tail in H as [_ <-]. exact E.
Qed.

Lemma insert_sorted_perm v l : Permutation (insert_sorted v l) (v :: l).
Proof.
  destruct (insert_sorted_split v l) as (l1 & l2 & -> & -> & _).
  symmetry. apply Permutation_middle.
Qed.

Lemma isort_perm l : Permutation (isort l) l.
Proof.
  induction l as [|v l IH] using rev_ind; [reflexivity|].
  rewrite isort_snoc, insert_sorted_perm, IH.
  apply Permutation_cons_append.
Qed.

Lemma insert_sorted_sorted v l :
  F32.is_nan v = false -> Forall (fun w => F32.is_nan w = false) l ->
  StronglySorted fle l -> StronglySorted fle (insert_sorted v l).
Proof.
  intros Hv Hl Hs.
  destruct (insert_sorted_split v l) as (l1 & l2 & -> & -> & H2 & H1).
  apply StronglySorted_app in Hs as (H12 & Hs1 & Hs2).
  apply Forall_app in Hl as [Hl1 Hl2].
  assert (Hv2 : Forall (fle v) l2).
  { eapply Forall_impl; [exact H2|]. intros w Hw. apply gt_fle. exact Hw. }
  assert (H1v : forall x, x ∈ l1 -> fle x v).
  { destruct l1 as [|a l1'] using rev_ind; [intros x Hx; inversion Hx|].
    clear IHl1'. intros x Hx.
    apply Forall_app in Hl1 as [Hl1 Ha]. rewrite Forall_singleton in Ha.
    assert (Hav : fle a v) by (apply not_gt_fle; [assumption | assumption | exact (H1 _ _ eq_refl)]).
    apply elem_of_app in Hx as [Hx|Hx].
    - apply StronglySorted_app in Hs1 as (Hxa & _ & _).
      apply (fle_trans x a v); auto.
      + rewrite Forall_forall in Hl1. auto.
      + apply Hxa; [exact Hx|]. apply list_elem_of_singleton. reflexivity.
    - apply list_elem_of_singleton in Hx. subst. exact Hav. }
  apply StronglySorted_app. split; [|split].
  - intros x1 x2 Hx1 Hx2. apply elem_of_cons in Hx2 as [->|Hx2]; auto.
  - exact Hs1.
  - apply StronglySorted_cons. auto.
Qed.

Lemma isort_sorted l :
  Forall (fun w => F32.is_nan w = false) l -> StronglySorted fle (isort l).
Proof.
  induction l as [|v l IH] using rev_ind; intros H.
  - constructor.
  - apply Forall_app in H as [Hl Hv]. rewrite Forall_singleton in Hv.
    rewrite isort_snoc. apply insert_sorted_sorted; auto.
    rewrite (isort_perm l). exact Hl.
Qed.

(** In a sorted list every element is below the last one. *)
Lemma sorted_last_max l (i : nat) w :
  StronglySorted fle l -> Forall (fun v => F32.is_nan v = false) l ->
  l !! i = Some w -> S i = length l -> Forall (fun v => fle v w) l.
Proof.
  intros Hs Hn Hi Hlen.
  destruct l as [|a l0] using rev_ind; [discriminate|]. clear IHl0.
  rewrite length_app in Hlen. simpl in Hlen.
  rewrite lookup_app_r in Hi by lia.
  replace (i - length l0)%nat with 0%nat in Hi by lia. simpl in Hi. inversion Hi; subst.
  apply StronglySorted_app in Hs as (H & _ & _).
  apply Forall_app. split.
  - apply Forall_forall. intros x Hx. apply H; [exact Hx|].
    apply list_elem_of_singleton. reflexivity.
  - apply Forall_singleton.
    apply Forall_app in Hn as [_ Hw]. rewrite Forall_singleton in Hw.
    unfold fle, SFleb. destruct w as [[]|[]| |[] mw ew]; simpl; try reflexivity;
      try discriminate; rewrite Z.compare_refl;
      change (Pos.compare_cont Eq mw mw) with (mw ?= mw)%positive;
      rewrite Pos.compare_refl; reflexivity.
Qed.

(** ** The half combiner *)

Arguments insertion_sort : simpl never.
Arguments for_range : simpl never.

(** A call with both outputs is the call that writes the mean followed by
    the call that writes the variance. *)
Lemma combine_halves_split x y mean variance a b rect r (m : memory) :
  kernel_filter_combine_halves x y mean variance a b rect r m
  = (m1 ← kernel_filter_combine_halves x y mean None a b rect r m;
     kernel_filter_combine_halves x y None variance a b rect r m1).
Proof.
  unfold kernel_filter_combine_halves. cbn [mbind option_bind].
  destruct mean as [mean|]; [|reflexivity].
  destruct (load m (a + rect_index rect x y)) as [a0|]; [|reflexivity].
  cbn [mbind option_bind].
  destruct (load m (b + rect_index rect x y)) as [b0|]; [|reflexivity].
  cbn [mbind option_bind].
  destruct (store m _ _) as [m1|]; reflexivity.
Qed.

Lemma rank_index_exact n :
  0 <= n <= 25 -> Int32.div (Int32.mul 7 n) 8 = 7 * n / 8.
Proof.
  intros H. unfold Int32.div, Int32.mul.
  rewrite (wrap_id (7 * n)) by (unfold Int32.in_range, Int32.int_min, Int32.int_max; lia).
  rewrite Z.quot_div_nonneg by lia.
  apply wrap_id. unfold Int32.in_range, Int32.int_min, Int32.int_max.
  pose proof (Z.div_mod (7 * n) 8). pose proof (Z.mod_pos_bound (7 * n) 8). lia.
Qed.

Lemma rank_index_lt n : 1 <= n -> 0 <= 7 * n / 8 < n.
Proof.
  intros H. pose proof (Z.div_mod (7 * n) 8). pose proof (Z.mod_pos_bound (7 * n) 8). lia.
Qed.

Lemma window_values_length m a b rect x y r vs :
  window_values m a b rect x y r = Some vs -> length vs = length (window rect x y r).
Proof.
  unfold window_values. generalize (window rect x y r). intros l. revert vs.
  induction l as [|p l IH]; intros vs H; simpl in *.
  - inversion H. reflexivity.
  - destruct (sq_diff m a b rect p); simpl in *; [|discriminate].
    destruct (mapM _ l) as [ws|]; simpl in *; [|discriminate].
    inversion H. simpl. f_equal. auto.
Qed.

(** The windowed branch: the variance cell is cleared, the window is
    gathered from the memory so obtained and sorted, and the element of rank
    [7*numValues/8] is written. *)
Lemma combine_halves_windowed x y variance a b rect r (m1 : memory) vs :
  r <> 0 ->
  is_Some (m1 !! (variance + rect_index rect x y)) ->
  window_values (<[variance + rect_index rect x y := F32.zero]> m1) a b rect x y r
    = Some vs ->
  (1 <= length vs <= 25)%nat ->
  exists w,
    isort vs !! Z.to_nat (7 * Z.of_nat (length vs) / 8) = Some w /\
    kernel_filter_combine_halves x y None (Some variance) a b rect r m1
    = Some (<[variance + rect_index rect x y := w]> m1).
Proof.
  intros Hr Hvar Hvs Hlen.
  pose proof (rank_index_lt (Z.of_nat (length vs)) ltac:(lia)) as Hk.
  destruct (lookup_lt_is_Some_2 (isort vs) (Z.to_nat (7 * Z.of_nat (length vs) / 8)))
    as [w Hw]; [rewrite isort_length; lia|].
  exists w. split; [exact Hw|].
  unfold kernel_filter_combine_halves. cbn [mbind option_bind].
  replace (r =? 0) with false by (symmetry; apply Z.eqb_neq; exact Hr).
  rewrite store_Some by assumption. cbn [mbind option_bind].
  rewrite (gather_window _ _ _ _ _ _ _ _ Hvs) by lia. cbn [mbind option_bind].
  unfold values_of.
  rewrite insertion_sort_isort by (unfold Int32.int_max; lia). cbn [mbind option_bind].
  rewrite rank_index_exact by lia.
  assert (Hvo : (Some <$> isort vs) ++ replicate (25 - length vs) None
                = values_of (isort vs))
    by (unfold values_of; rewrite isort_length; reflexivity).
  rewrite Hvo.
  rewrite <- (Z2Nat.id (7 * Z.of_nat (length vs) / 8)) by lia.
  rewrite (values_of_get _ _ _ Hw). cbn [mbind option_bind].
  rewrite store_Some by (rewrite lookup_insert_eq; eauto).
  rewrite insert_insert_eq. reflexivity.
Qed.

(** Writing a cell that is none of the window's [a] and [b] cells does not
    change the gathered values. *)
Lemma window_values_insert m a b rect x y r k v :
  Forall (fun p => k <> a + rect_index rect p.1 p.2 /\ k <> b + rect_index rect p.1 p.2)
         (window rect x y r) ->
  window_values (<[k := v]> m) a b rect x y r = window_values m a b rect x y r.
Proof.
  unfold window_values. generalize (window rect x y r). intros l H.
  induction H as [|p l [Ha Hb] _ IH]; [reflexivity|].
  simpl. rewrite IH. unfold sq_diff.
  rewrite !lookup_insert_ne by assumption. reflexivity.
Qed.

(** *** The clipped window *)

(** One axis of the window: the integers from [max(c-r, lo)] up to, and
    excluding, [min(c+r+1, hi)]. *)
Lemma window_axis c r lo hi :
  0 <= r -> lo <= c < hi ->
  Int32.in_range (c - r) -> Int32.in_range (c + r + 1) ->
  let first := Int32.max (Int32.sub c r) lo in
  let last := Int32.min (Int32.add (Int32.add c r) 1) hi in
  first <= c < last /\ last - first <= 2 * r + 1 /\ c - r <= first /\ last <= c + r + 1.
Proof.
  intros Hr Hc H1 H2.
  assert (H3 : Int32.in_range (c + r))
    by (unfold Int32.in_range, Int32.int_min, Int32.int_max in *; lia).
  unfold Int32.max, Int32.min, Int32.sub, Int32.add.
  rewrite (wrap_id (c - r)), (wrap_id (c + r)), (wrap_id (c + r + 1)) by assumption.
  cbv zeta.
  destruct (Z.gtb_spec (c - r) lo), (Z.ltb_spec (c + r + 1) hi); lia.
Qed.

Lemma length_window rect x y r :
  length (window rect x y r)
  = (length (window_rows rect y r) * length (window_cols rect x r))%nat.
Proof.
  unfold window. generalize (window_rows rect y r). intros rows.
  induction rows as [|py rows IH]; [reflexivity|].
  cbn [mbind list_bind]. rewrite length_app, length_fmap.
  cbn [mbind] in IH. rewrite IH. simpl. reflexivity.
Qed.

Section Window.

Variables (rect : int4) (x y r : Z).
Hypothesis Hr : 1 <= r.
Hypothesis Hx : i4x rect <= x < i4z rect.
Hypothesis Hy : i4y rect <= y < i4w rect.
Hypothesis Hxlo : Int32.in_range (x - r).
Hypothesis Hxhi : Int32.in_range (x + r + 1).
Hypothesis Hylo : Int32.in_range (y - r).
Hypothesis Hyhi : Int32.in_range (y + r + 1).

Lemma window_rows_bounds :
  y ∈ window_rows rect y r /\
  1 <= Z.of_nat (length (window_rows rect y r)) <= 2 * r + 1.
Proof.
  destruct (window_axis y r (i4y rect) (i4w rect)) as (H1 & H2 & _ & _); auto; [lia|].
  unfold window_rows. cbv zeta. rewrite elem_of_seqZ, length_seqZ. lia.
Qed.

Lemma window_cols_bounds :
  x ∈ window_cols rect x r /\
  1 <= Z.of_nat (length (window_cols rect x r)) <= 2 * r + 1.
Proof.
  destruct (window_axis x r (i4x rect) (i4z rect)) as (H1 & H2 & _ & _); auto; [lia|].
  unfold window_cols. cbv zeta. rewrite elem_of_seqZ, length_seqZ. lia.
Qed.

Lemma window_bounds :
  (x, y) ∈ window rect x y r /\
  1 <= Z.of_nat (length (window rect x y r)) <= (2 * r + 1) * (2 * r + 1).
Proof.
  destruct window_rows_bounds as [Hin1 Hlen1], window_cols_bounds as [Hin2 Hlen2].
  split.
  - unfold window. apply list_elem_of_bind. exists y. split; [|exact Hin1].
    apply list_elem_of_fmap. exists x. auto.
  - rewrite length_window, Nat2Z.inj_mul. nia.
Qed.

(** A window of one pixel is the centre pixel alone. *)
Lemma window_single :
  length (window rect x y r) = 1%nat ->
  window_rows rect y r = [y] /\ window_cols rect x r = [x].
Proof.
  destruct window_rows_bounds as [Hin1 Hlen1], window_cols_bounds as [Hin2 Hlen2].
  rewrite length_window. intros H.
  assert (H1 : length (window_rows rect y r) = 1%nat) by nia.
  assert (H2 : length (window_cols rect x r) = 1%nat) by nia.
  split.
  - destruct (window_rows rect y r) as [|y0 [|? ?]]; try discriminate.
    apply list_elem_of_singleton in Hin1. subst. reflexivity.
  - destruct (window_cols rect x r) as [|x0 [|? ?]]; try discriminate.
    apply list_elem_of_singleton in Hin2. subst. reflexivity.
Qed.

End Window.

(** C6.  In the windowed mode ([r >= 1]) the variance written is the element
    of rank [floor(7*count/8)] of the gathered values
    [0.25*(a[p]-b[p])^2], [p] ranging over the clipped window, arranged in
    ascending order: a permutation of the [count] gathered values that is
    sorted for [<=].  For a window of 8 values the rank is 7 and the element
    is the maximum, and the index expression evaluates to 0, 7, 7 and 21 at
    counts 1, 8, 9 and 25.  The variance cell is allocated and is not a cell
    of [a] or [b] in the window, the window holds between 1 and 25 pixels,
    and no gathered value is a NaN (which no order ranks). *)
Theorem combine_halves_rank x y mean variance a b rect r (m m1 : memory) vs :
  1 <= r ->
  kernel_filter_combine_halves x y mean None a b rect r m = Some m1 ->
  is_Some (m1 !! (variance + rect_index rect x y)) ->
  Forall (fun p => variance + rect_index rect x y <> a + rect_index rect p.1 p.2 /\
                   variance + rect_index rect x y <> b + rect_index rect p.1 p.2)
         (window rect x y r) ->
  window_values m1 a b rect x y r = Some vs ->
  (1 <= length vs <= 25)%nat ->
  Forall (fun v => F32.is_nan v = false) vs ->
  let count := Z.of_nat (length vs) in
  exists m' sorted w,
    kernel_filter_combine_halves x y mean (Some variance) a b rect r m = Some m' /\
    Permutation sorted vs /\ StronglySorted fle sorted /\
    sorted !! Z.to_nat (7 * count / 8) = Some w /\
    m' !! (variance + rect_index rect x y) = Some w /\
    (count = 8 -> 7 * count / 8 = 7 /\ Forall (fun v => fle v w) vs) /\
    Int32.div (Int32.mul 7 1) 8 = 0 /\ Int32.div (Int32.mul 7 8) 8 = 7 /\
    Int32.div (Int32.mul 7 9) 8 = 7 /\ Int32.div (Int32.mul 7 25) 8 = 21.
Proof.
  intros Hr Hmean Hvar Halias Hvs Hlen Hnan count.
  rewrite <- (window_values_insert m1 a b rect x y r _ F32.zero Halias) in Hvs.
  destruct (combine_halves_windowed x y variance a b rect r m1 vs
              ltac:(lia) Hvar Hvs Hlen) as (w & Hw & Hrun).
  exists (<[variance + rect_index rect x y := w]> m1), (isort vs), w.
  split; [|split; [|split; [|split; [|split; [|split]]]]].
  - rewrite combine_halves_split, Hmean. exact Hrun.
  - apply isort_perm.
  - apply isort_sorted. exact Hnan.
  - exact Hw.
  - apply lookup_insert_eq.
  - intros H8. subst count. rewrite H8 in *. split; [reflexivity|].
    rewrite <- (isort_perm vs).
    apply (sorted_last_max (isort vs) 7 w).
    + apply isort_sorted. exact Hnan.
    + rewrite (isort_perm vs). exact Hnan.
    + exact Hw.
    + rewrite isort_length. lia.
  - repeat split; reflexivity.
Qed.

(** The 4x2 rectangle, pixel [(1, 0)] and radius 2: the window is the whole
    rectangle, eight values, and the variance written is the largest,
    [0.25 * 9^2 = 20.25]. *)
Lemma combine_halves_rank_witness :
  exists m',
    kernel_filter_combine_halves 1 0 (Some 300) (Some 200) 0 100 halves_rect 2
      halves_memory = Some m' /\
    m' !! (200 + rect_index halves_rect 1 0) = Some (S754_finite false 10616832 (-19)).
Proof.
  destruct (kernel_filter_combine_halves 1 0 (Some 300) None 0 100 halves_rect 2
              halves_memory) as [m1|] eqn:Hmean; [|vm_compute in Hmean; discriminate].
  assert (Hm1 : Some m1 = Some (<[301 := S754_finite false 10485760 (-22)]> halves_memory))
    by (rewrite <- Hmean; vm_compute; reflexivity).
  inversion Hm1 as [Em1]. clear Hm1.
  destruct (combine_halves_rank 1 0 (Some 300) 200 0 100 halves_rect 2 halves_memory m1
              ((fun k => F32.mul (F32.mul F32.quarter (F32.of_int k)) (F32.of_int k))
                 <$> [1; 5; 2; 8; 7; 3; 9; 4]))
    as (m' & sorted & w & Hrun & _ & _ & Hw & Hm' & H8 & _);
    [lia | exact Hmean | subst m1; vm_compute; eauto | by_compute
    | subst m1; vm_compute; reflexivity | simpl; lia | by_compute |].
  exists m'. split; [exact Hrun|].
  change (m' !! (200 + rect_index halves_rect 1 0))
    with (Some m' ≫= (fun m0 : memory => m0 !! (200 + rect_index halves_rect 1 0))).
  rewrite <- Hrun. vm_compute. reflexivity.
Defined.

(** C7.  On a rectangle for which the clipped window of pixel [(x, y)]
    holds exactly one pixel, a call with [r >= 1] is the call with [r == 0]:
    it leaves the same memory, hence the same variance
    [0.25*(a[idx]-b[idx])^2], or faults with it.  The variance cell is not
    the [a] or [b] cell of the pixel. *)
Theorem combine_halves_single_pixel x y mean variance a b rect r (m : memory) :
  1 <= r ->
  i4x rect <= x < i4z rect -> i4y rect <= y < i4w rect ->
  Int32.in_range (x - r) -> Int32.in_range (x + r + 1) ->
  Int32.in_range (y - r) -> Int32.in_range (y + r + 1) ->
  length (window rect x y r) = 1%nat ->
  (forall v, variance = Some v ->
     v + rect_index rect x y <> a + rect_index rect x y /\
     v + rect_index rect x y <> b + rect_index rect x y) ->
  kernel_filter_combine_halves x y mean variance a b rect r m
  = kernel_filter_combine_halves x y mean variance a b rect 0 m.
Proof.
  intros Hr Hx Hy Hxlo Hxhi Hylo Hyhi Hone Halias.
  destruct (window_single rect x y r Hr Hx Hy Hxlo Hxhi Hylo Hyhi Hone) as [Hrows Hcols].
  rewrite (combine_halves_split x y mean variance a b rect r),
          (combine_halves_split x y mean variance a b rect 0).
  assert (Hmean : kernel_filter_combine_halves x y mean None a b rect r m
                  = kernel_filter_combine_halves x y mean None a b rect 0 m)
    by reflexivity.
  rewrite Hmean.
  destruct (kernel_filter_combine_halves x y mean None a b rect 0 m) as [m1|];
    [|reflexivity].
  cbn [mbind option_bind].
  destruct variance as [v|]; [|reflexivity].
  destruct (Halias v eq_refl) as [Ha Hb].
  unfold kernel_filter_combine_halves. cbn [mbind option_bind].
  replace (r =? 0) with false by (symmetry; apply Z.eqb_neq; lia).
  change (0 =? 0) with true. cbv iota.
  unfold load, store.
  destruct (m1 !! (v + rect_index rect x y)) as [old|] eqn:Ev.
  - cbn [mbind option_bind].
    rewrite for_range_fold.
    erewrite fold_opt_ext by (intros; apply for_range_fold).
    fold (window_rows rect y r) (window_cols rect x r).
    rewrite Hrows, Hcols. cbn [fold_opt mbind option_bind].
    unfold gather_pixel, load.
    assert (Ea : <[v + rect_index rect x y := F32.zero]> m1 !! (a + rect_index rect x y)
                 = m1 !! (a + rect_index rect x y)) by (apply lookup_insert_ne; exact Ha).
    assert (Eb : <[v + rect_index rect x y := F32.zero]> m1 !! (b + rect_index rect x y)
                 = m1 !! (b + rect_index rect x y)) by (apply lookup_insert_ne; exact Hb).
    rewrite Ea.
    destruct (m1 !! (a + rect_index rect x y)) as [a1|]; [|reflexivity].
    cbn [mbind option_bind]. rewrite Eb.
    destruct (m1 !! (b + rect_index rect x y)) as [b1|]; [|reflexivity].
    cbn [mbind option_bind].
    change (values_set (replicate 25 None) 0 ?w)
      with (Some (<[0%nat := Some w]> (replicate 25 (@None spec_float)))).
    cbn [mbind option_bind].
    change (insertion_sort (Int32.add 0 1) ?l) with (Some l).
    cbn [mbind option_bind].
    change (values_get (<[0%nat := Some ?w]> (replicate 25 None))
              (Int32.div (Int32.mul 7 (Int32.add 0 1)) 8)) with (Some w).
    cbn [mbind option_bind].
    rewrite lookup_insert_eq, insert_insert_eq. reflexivity.
  - cbn [mbind option_bind].
    destruct (m1 !! (a + rect_index rect x y)) as [a1|]; [|reflexivity].
    cbn [mbind option_bind].
    destruct (m1 !! (b + rect_index rect x y)) as [b1|]; reflexivity.
Qed.

(** The rectangle of the single pixel [(3, 5)], radius 2. *)
Lemma combine_halves_single_pixel_witness :
  kernel_filter_combine_halves 3 5 (Some 300) (Some 200) 0 100 pixel_rect 2 pixel_memory
  = kernel_filter_combine_halves 3 5 (Some 300) (Some 200) 0 100 pixel_rect 0 pixel_memory
  /\ exists m',
       kernel_filter_combine_halves 3 5 (Some 300) (Some 200) 0 100 pixel_rect 2
         pixel_memory = Some m' /\
       m' !! 200 = Some (F32.of_int 4).
Proof.
  split.
  - apply combine_halves_single_pixel;
      [lia | simpl; lia | simpl; lia | by_compute | by_compute | by_compute | by_compute
      | reflexivity | intros v [= <-]; vm_compute; split; discriminate].
  - eexists. split; [vm_compute; reflexivity|]. vm_compute. reflexivity.
Defined.

(** C10.  For a pixel inside the rectangle and [r >= 1] the clipped window
    holds the centre pixel and at most [(2r+1)^2] pixels, so
    [1 <= numValues <= (2r+1)^2], and the rank [7*numValues/8] is below
    [numValues].  For [r <= 2] that is at most 25: the gathering loops end
    with [numValues] equal to the number of window pixels and the array
    holding their values, the index expression is the rank, and a call whose
    global-memory accesses are to allocated cells returns; no access to
    [values] is out of bounds or reads an unwritten cell. *)
Theorem combine_halves_values_in_bounds x y rect r :
  1 <= r ->
  i4x rect <= x < i4z rect -> i4y rect <= y < i4w rect ->
  Int32.in_range (x - r) -> Int32.in_range (x + r + 1) ->
  Int32.in_range (y - r) -> Int32.in_range (y + r + 1) ->
  let numValues := Z.of_nat (length (window rect x y r)) in
  (x, y) ∈ window rect x y r /\
  1 <= numValues <= (2 * r + 1) * (2 * r + 1) /\
  0 <= 7 * numValues / 8 < numValues /\
  (r <= 2 ->
   numValues <= 25 /\
   Int32.div (Int32.mul 7 numValues) 8 = 7 * numValues / 8 /\
   (forall a b (m : memory) vs,
      window_values m a b rect x y r = Some vs ->
      for_range (Int32.max (Int32.sub y r) (i4y rect))
                (Int32.min (Int32.add (Int32.add y r) 1) (i4w rect))
        (fun py =>
           for_range (Int32.max (Int32.sub x r) (i4x rect))
                     (Int32.min (Int32.add (Int32.add x r) 1) (i4z rect))
             (fun px => gather_pixel a b rect m py px))
        (0, replicate 25 None)
      = Some (numValues, values_of vs)) /\
   (forall mean variance a b (m m1 : memory),
      kernel_filter_combine_halves x y mean None a b rect r m = Some m1 ->
      is_Some (m1 !! (variance + rect_index rect x y)) ->
      is_Some (window_values (<[variance + rect_index rect x y := F32.zero]> m1)
                 a b rect x y r) ->
      is_Some (kernel_filter_combine_halves x y mean (Some variance) a b rect r m))).
Proof.
  intros Hr Hx Hy Hxlo Hxhi Hylo Hyhi numValues.
  destruct (window_bounds rect x y r Hr Hx Hy Hxlo Hxhi Hylo Hyhi) as [Hin Hlen].
  fold numValues in Hlen.
  split; [exact Hin|]. split; [exact Hlen|].
  split; [apply rank_index_lt; lia|].
  intros Hr2. assert (H25 : numValues <= 25) by nia.
  split; [exact H25|]. split; [apply rank_index_exact; lia|]. split.
  - intros a b m vs Hvs.
    pose proof (window_values_length _ _ _ _ _ _ _ _ Hvs) as Hl.
    subst numValues. rewrite <- Hl.
    apply gather_window; [exact Hvs | lia].
  - intros mean variance a b m m1 Hmean Hvar [vs Hvs].
    pose proof (window_values_length _ _ _ _ _ _ _ _ Hvs) as Hl.
    destruct (combine_halves_windowed x y variance a b rect r m1 vs
                ltac:(lia) Hvar Hvs ltac:(lia)) as (w & _ & Hrun).
    rewrite combine_halves_split, Hmean. cbn [mbind option_bind].
    rewrite Hrun. eauto.
Qed.

(** The 4x2 rectangle, pixel [(1, 0)] and radius 2: eight values. *)
Lemma combine_halves_values_in_bounds_witness :
  (1, 0) ∈ window halves_rect 1 0 2 /\
  Z.of_nat (length (window halves_rect 1 0 2)) = 8 /\
  is_Some (kernel_filter_combine_halves 1 0 None (Some 200) 0 100 halves_rect 2
             halves_memory).
Proof.
  destruct (combine_halves_values_in_bounds 1 0 halves_rect 2)
    as (Hin & _ & _ & Hr2);
    [lia | simpl; lia | simpl; lia | by_compute | by_compute | by_compute | by_compute |].
  split; [exact Hin|]. split; [reflexivity|].
  destruct (Hr2 ltac:(lia)) as (_ & _ & _ & Hrun).
  apply (Hrun None 200 0 100 halves_memory halves_memory);
    [reflexivity | vm_compute; eauto | vm_compute; eauto].
Defined.

(** Beyond radius 2 the array can overflow: on a 6x6 rectangle with radius 3
    the window of pixel [(3, 3)] has 36 pixels and the call faults although
    every global cell it touches is allocated. *)
Example combine_halves_radius_3_overflows :
  let m : memory := cells 0 (replicate 48 F32.zero) ∪ cells 100 (replicate 48 F32.zero)
                    ∪ cells 200 (replicate 48 F32.zero) in
  length (window (mk_int4 0 0 6 6) 3 3 3) = 36%nat /\
  is_Some (window_values m 0 100 (mk_int4 0 0 6 6) 3 3 3) /\
  kernel_filter_combine_halves 3 3 None (Some 200) 0 100 (mk_int4 0 0 6 6) 3 m = None.
Proof. vm_compute. repeat split; eauto. Qed.

(** ** Sign symmetries of binary32 arithmetic *)

Lemma binary_round_aux_opp prec emax s m e l :
  binary_round_aux prec emax (negb s) m e l
  = SFopp (binary_round_aux prec emax s m e l).
Proof.
  unfold binary_round_aux.
  destruct (shr_fexp prec emax m e l) as [mrs' e'].
  destruct (shr_fexp prec emax _ e' loc_Exact) as [mrs'' e''].
  destruct (shr_m mrs''); simpl; try reflexivity.
  destruct (e'' <=? emax - prec); reflexivity.
Qed.

Lemma binary_normalize_opp prec emax z e :
  z <> 0 ->
  binary_normalize prec emax (- z) e false
  = SFopp (binary_normalize prec emax z e false).
Proof.
  intros Hz. destruct z as [|p|p]; [congruence| |];
    unfold binary_normalize, Z.opp, binary_round;
    destruct (shl_align p e _) as [mz ez].
  - exact (binary_round_aux_opp prec emax false _ _ _).
  - exact (binary_round_aux_opp prec emax true _ _ _).
Qed.

Lemma SFopp_involutive x : SFopp (SFopp x) = x.
Proof. destruct x as [s|s| |s m e]; simpl; rewrite ?negb_involutive; reflexivity. Qed.

Lemma add_comm x y : F32.add x y = F32.add y x.
Proof.
  unfold F32.add.
  destruct x as [[]|[]| |sx mx ex], y as [[]|[]| |sy my ey]; try reflexivity.
  simpl. rewrite (Z.min_comm ey ex), Z.add_comm. reflexivity.
Qed.

(** Exchanging the operands of a subtraction negates the difference, unless
    the difference is the zero of equal operands, which is [+0] both ways. *)
Lemma sub_swap x y :
  F32.sub y x = SFopp (F32.sub x y) \/
  (F32.sub x y = S754_zero false /\ F32.sub y x = S754_zero false).
Proof.
  unfold F32.sub.
  destruct x as [[]|[]| |sx mx ex], y as [[]|[]| |sy my ey]; simpl;
    rewrite ?negb_involutive; auto.
  rewrite (Z.min_comm ey ex).
  set (zx := cond_Zopp sx (Z.pos (shl_align mx ex (Z.min ex ey)).1)).
  set (zy := cond_Zopp sy (Z.pos (shl_align my ey (Z.min ex ey)).1)).
  destruct (Z.eq_dec (zx - zy) 0) as [E|E].
  - right. replace (zy - zx) with 0 by lia. rewrite E. auto.
  - left. replace (zy - zx) with (- (zx - zy)) by lia.
    apply binary_normalize_opp. exact E.
Qed.

Lemma mul_opp_r x y : F32.mul x (SFopp y) = SFopp (F32.mul x y).
Proof.
  unfold F32.mul, SFmul, SFopp.
  destruct x as [sx|sx| |sx mx ex], y as [sy|sy| |sy my ey]; cbv beta iota;
    rewrite <- ?negb_xorb_r; try reflexivity.
  apply binary_round_aux_opp.
Qed.

Lemma mul_opp_l x y : F32.mul (SFopp x) y = SFopp (F32.mul x y).
Proof.
  unfold F32.mul, SFmul, SFopp.
  destruct x as [sx|sx| |sx mx ex], y as [sy|sy| |sy my ey]; cbv beta iota;
    rewrite <- ?negb_xorb_l; try reflexivity.
  apply binary_round_aux_opp.
Qed.

(** The scaled square of a difference does not depend on the order of the
    operands. *)
Lemma sq_diff_swap q x y :
  F32.mul (F32.mul q (F32.sub x y)) (F32.sub x y)
  = F32.mul (F32.mul q (F32.sub y x)) (F32.sub y x).
Proof.
  destruct (sub_swap x y) as [E|[E1 E2]].
  - rewrite E, !mul_opp_r, mul_opp_l, SFopp_involutive. reflexivity.
  - rewrite E1, E2. reflexivity.
Qed.

(** C8.  With [r == 0] the half combiner is symmetric in its two half
    buffers: called with [a] and [b] exchanged it leaves the same memory,
    the mean [0.5*(a[idx]+b[idx])] and the variance
    [0.25*(a[idx]-b[idx])^2] alike, or faults alike. *)
Theorem combine_halves_swap x y mean variance a b rect (m : memory) :
  kernel_filter_combine_halves x y mean variance a b rect 0 m
  = kernel_filter_combine_halves x y mean variance b a rect 0 m.
Proof.
  unfold kernel_filter_combine_halves, load.
  assert (Hmean :
    match mean with
    | Some mean =>
        a0 ← m !! (a + rect_index rect x y);
        b0 ← m !! (b + rect_index rect x y);
        store m (mean + rect_index rect x y) (F32.mul F32.half (F32.add a0 b0))
    | None => Some m
    end
    = match mean with
      | Some mean =>
          a0 ← m !! (b + rect_index rect x y);
          b0 ← m !! (a + rect_index rect x y);
          store m (mean + rect_index rect x y) (F32.mul F32.half (F32.add a0 b0))
      | None => Some m
      end).
  { destruct mean as [mean|]; [|reflexivity].
    destruct (m !! (a + rect_index rect x y)) as [a0|],
             (m !! (b + rect_index rect x y)) as [b0|]; cbn [mbind option_bind];
      try reflexivity.
    rewrite add_comm. reflexivity. }
  cbv zeta. rewrite Hmean. clear Hmean.
  destruct (match mean with Some _ => _ | None => _ end) as [m1|]; [|reflexivity].
  cbn [mbind option_bind].
  destruct variance as [variance|]; [|reflexivity].
  change (0 =? 0) with true. cbv iota.
  destruct (m1 !! (a + rect_index rect x y)) as [a1|],
           (m1 !! (b + rect_index rect x y)) as [b1|]; cbn [mbind option_bind];
    try reflexivity.
  rewrite sq_diff_swap. reflexivity.
Qed.

(** ** The custom-data reader *)

Section ReaderFacts.

Import PTC.
Variable cd : CustomDataTypes.

(** Whatever the layer readers return, [CustomDataReader::read_sample]
    returns [PTC_READ_SAMPLE_EXACT]. *)
Lemma CustomDataReader_read_sample_exact m_name m_cdmask cdata num_data parent res cdata' :
  CustomDataReader_read_sample cd m_name m_cdmask cdata num_data parent
    = Some (res, cdata') ->
  res = PTC_READ_SAMPLE_EXACT.
Proof.
  unfold CustomDataReader_read_sample. intros H.
  destruct (add_compound_property m_name parent); simpl in H; [|discriminate].
  destruct (read_types _ _ _ _ _ _ _ _); simpl in H; [|discriminate].
  inversion H. reflexivity.
Qed.

(** Each specialised layer reader answers a sample whose size is not
    [num_data] with [PTC_READ_SAMPLE_INVALID]. *)
Lemma read_sample_MCOL_invalid parent name num_data sample :
  add_c4f_array name parent = Some sample ->
  size_differs sample num_data = true ->
  read_sample_MCOL parent name num_data = Some (PTC_READ_SAMPLE_INVALID, Unwritten).
Proof. unfold read_sample_MCOL. intros -> H. simpl. rewrite H. reflexivity. Qed.

Lemma read_sample_ORIGINDEX_invalid parent name num_data sample :
  add_int32_array name parent = Some sample ->
  size_differs sample num_data = true ->
  read_sample_ORIGINDEX parent name num_data = Some (PTC_READ_SAMPLE_INVALID, Unwritten).
Proof. unfold read_sample_ORIGINDEX. intros -> H. simpl. rewrite H. reflexivity. Qed.

Lemma read_sample_ORIGSPACE_invalid parent name num_data prop s0 s1 s2 s3 :
  add_compound_property name parent = Some prop ->
  add_v2f_array (name +:+ ":uv0") prop = Some s0 ->
  add_v2f_array (name +:+ ":uv1") prop = Some s1 ->
  add_v2f_array (name +:+ ":uv2") prop = Some s2 ->
  add_v2f_array (name +:+ ":uv3") prop = Some s3 ->
  size_differs s0 num_data || size_differs s1 num_data ||
  size_differs s2 num_data || size_differs s3 num_data = true ->
  read_sample_ORIGSPACE parent name num_data = Some (PTC_READ_SAMPLE_INVALID, Unwritten).
Proof.
  unfold read_sample_ORIGSPACE. intros E E0 E1 E2 E3 H.
  rewrite E. cbn [mbind option_bind]. rewrite E0. cbn [mbind option_bind].
  rewrite E1. cbn [mbind option_bind]. rewrite E2. cbn [mbind option_bind].
  rewrite E3. cbn [mbind option_bind]. rewrite H. reflexivity.
Qed.

Lemma read_sample_MDEFORMVERT_invalid parent name num_data prop st sf sd sw :
  add_compound_property name parent = Some prop ->
  add_int32_array (name +:+ ":totweight") prop = Some st ->
  add_int32_array (name +:+ ":flag") prop = Some sf ->
  add_int32_array (name +:+ ":def_nr") prop = Some sd ->
  add_float_array (name +:+ ":weight") prop = Some sw ->
  size_differs st num_data || size_differs sf num_data = true ->
  read_sample_MDEFORMVERT parent name num_data = Some (PTC_READ_SAMPLE_INVALID, Unwritten).
Proof.
  unfold read_sample_MDEFORMVERT. intros E E0 E1 E2 E3 H.
  rewrite E. cbn [mbind option_bind]. rewrite E0. cbn [mbind option_bind].
  rewrite E1. cbn [mbind option_bind]. rewrite E2. cbn [mbind option_bind].
  rewrite E3. cbn [mbind option_bind]. rewrite H. reflexivity.
Qed.

End ReaderFacts.

(** C3.  The store holds a vertex-colour layer of three colours and four
    are requested: the layer reader reached through the dispatch answers
    [PTC_READ_SAMPLE_INVALID], and [CustomDataReader::read_sample], which
    does not look at that answer, returns [PTC_READ_SAMPLE_EXACT] with the
    layer added and left unwritten. *)
Theorem read_sample_drops_invalid :
  PTC.read_sample_call blender_types colour_layers 6 "mesh:CDMCol:N0" 4
    = Some (PTC.PTC_READ_SAMPLE_INVALID, PTC.Unwritten) /\
  PTC.CustomDataReader_read_sample blender_types "mesh" 64 [] 4 colour_store
    = Some (PTC.PTC_READ_SAMPLE_EXACT, [PTC.mk_Layer 6 "" PTC.Unwritten]).
Proof. split; vm_compute; reflexivity. Qed.

(** ** Rounding to binary32 *)

(** The exponent function and the largest exponent of binary32. *)
Lemma fexp32 k : fexp F32.prec F32.emax k = Z.max (k - 24) (-149).
Proof. reflexivity. Qed.

Lemma digits2_pos_bounds p :
  2 ^ (Z.pos (digits2_pos p) - 1) <= Z.pos p < 2 ^ Z.pos (digits2_pos p).
Proof.
  induction p as [p IH|p IH|]; [| |simpl; lia];
    simpl digits2_pos; rewrite Pos2Z.inj_succ;
    set (d := Z.pos (digits2_pos p)) in *;
    replace (Z.succ d - 1) with d by lia;
    rewrite Z.pow_succ_r by lia;
    assert (Hd : 2 ^ d = 2 * 2 ^ (d - 1))
      by (rewrite <- Z.pow_succ_r by lia; f_equal; lia);
    lia.
Qed.

Lemma Zdigits2_nonneg m : 0 <= Zdigits2 m.
Proof. destruct m; simpl; lia. Qed.

Lemma Zdigits2_bounds m :
  0 < m -> 2 ^ (Zdigits2 m - 1) <= m < 2 ^ Zdigits2 m.
Proof. destruct m as [|p|p]; try lia. intros _. apply digits2_pos_bounds. Qed.

Lemma Zdigits2_pos m : 0 < m -> 1 <= Zdigits2 m.
Proof. destruct m; simpl; lia. Qed.

(** A number below [2^k] has at most [k] digits. *)
Lemma Zdigits2_le m k : 0 <= k -> 0 <= m < 2 ^ k -> Zdigits2 m <= k.
Proof.
  intros Hk Hm. destruct (Z.eq_dec m 0) as [->|Hne]; [simpl; lia|].
  destruct (Z_le_gt_dec (Zdigits2 m) k) as [H|H]; [exact H|].
  pose proof (Zdigits2_bounds m ltac:(lia)) as [Hlo _].
  pose proof (Z.pow_le_mono_r 2 k (Zdigits2 m - 1) ltac:(lia) ltac:(lia)). lia.
Qed.

(** A number of at least [2^k] has more than [k] digits. *)
Lemma Zdigits2_gt m k : 0 <= k -> 2 ^ k <= m -> k < Zdigits2 m.
Proof.
  intros Hk Hm. assert (Hpos : 0 < m) by (pose proof (Z.pow_pos_nonneg 2 k); lia).
  destruct (Z_lt_le_dec k (Zdigits2 m)) as [H|H]; [exact H|].
  pose proof (Zdigits2_bounds m ltac:(lia)) as [_ Hhi].
  pose proof (Zdigits2_nonneg m).
  pose proof (Z.pow_le_mono_r 2 (Zdigits2 m) k ltac:(lia) ltac:(lia)). lia.
Qed.

(** *** Shifting right *)

Lemma iter_pos_nat {A : Type} (f : A -> A) n x :
  SpecFloat.iter_pos f n x = Nat.iter (Pos.to_nat n) f x.
Proof.
  revert x. induction n as [n IH|n IH|]; intros x; simpl SpecFloat.iter_pos.
  - rewrite !IH, Pos2Nat.inj_xI.
    replace (S (2 * Pos.to_nat n)) with (Pos.to_nat n + (Pos.to_nat n + 1))%nat by lia.
    rewrite !Nat.iter_add. reflexivity.
  - rewrite !IH, Pos2Nat.inj_xO.
    replace (2 * Pos.to_nat n)%nat with (Pos.to_nat n + Pos.to_nat n)%nat by lia.
    rewrite Nat.iter_add. reflexivity.
  - reflexivity.
Qed.

Lemma shr_1_m r : 0 <= shr_m r -> shr_m (shr_1 r) = shr_m r / 2.
Proof.
  destruct r as [m rb sb]. simpl. intros Hm. rewrite <- Z.div2_div.
  destruct m as [|[p|p|]|p]; try reflexivity. lia.
Qed.

Lemma shr_iter_m n r :
  0 <= shr_m r -> shr_m (Nat.iter n shr_1 r) = shr_m r / 2 ^ Z.of_nat n.
Proof.
  intros Hm. induction n as [|n IH].
  - simpl. rewrite Z.div_1_r. reflexivity.
  - rewrite Nat2Z.inj_succ, Z.pow_succ_r by lia. simpl Nat.iter.
    rewrite shr_1_m.
    + rewrite IH, Z.div_div by (try apply Z.pow_pos_nonneg; lia).
      f_equal. lia.
    + rewrite IH. apply Z.div_pos; [lia|]. apply Z.pow_pos_nonneg; lia.
Qed.

(** Shifting out zero bits of an exactly known number keeps it exact. *)
Lemma shr_iter_exact n r :
  0 <= shr_m r -> shr_r r = false -> shr_s r = false ->
  shr_m r mod 2 ^ Z.of_nat n = 0 ->
  shr_r (Nat.iter n shr_1 r) = false /\ shr_s (Nat.iter n shr_1 r) = false.
Proof.
  intros Hm Hr Hs. induction n as [|n IH]; intros Hmod.
  - simpl. auto.
  - rewrite Nat2Z.inj_succ, Z.pow_succ_r in Hmod by lia.
    assert (Hpos : 0 < 2 ^ Z.of_nat n) by (apply Z.pow_pos_nonneg; lia).
    assert (Hmod' : shr_m r mod 2 ^ Z.of_nat n = 0).
    { apply Z.mod_divide in Hmod; [|lia]. apply Z.mod_divide; [lia|].
      destruct Hmod as [c Hc]. exists (c * 2). lia. }
    destruct (IH Hmod') as [IHr IHs].
    assert (Heven : (shr_m (Nat.iter n shr_1 r)) mod 2 = 0).
    { rewrite shr_iter_m by assumption.
      apply Z.mod_divide in Hmod; [|lia]. destruct Hmod as [c Hc].
      rewrite Hc. replace (c * (2 * 2 ^ Z.of_nat n)) with ((c * 2) * 2 ^ Z.of_nat n) by lia.
      rewrite Z.div_mul by lia. apply Z.mod_mul; lia. }
    assert (Hge : 0 <= shr_m (Nat.iter n shr_1 r)).
    { rewrite shr_iter_m by assumption. apply Z.div_pos; lia. }
    simpl Nat.iter. destruct (Nat.iter n shr_1 r) as [m' r' s']. simpl in *. subst r' s'.
    destruct m' as [|[p|p|]|p]; simpl; auto; try lia.
    + rewrite Pos2Z.inj_xI in Heven. rewrite Z.add_comm, Z.mul_comm, Z.mod_add in Heven by lia.
      discriminate.
    + discriminate.
Qed.

Lemma shr_record_of_loc_m m l : shr_m (shr_record_of_loc m l) = m.
Proof. destruct l as [|[]]; reflexivity. Qed.

(** The result of [shr]: the exponent grows by the shift, the mantissa is
    divided by its power of two, and an exact input whose low bits are zero
    stays exact. *)
Lemma shr_spec m l e n :
  0 <= m ->
  let k := Z.max 0 n in
  let res := shr (shr_record_of_loc m l) e n in
  res.2 = e + k /\ shr_m res.1 = m / 2 ^ k /\
  (l = loc_Exact -> m mod 2 ^ k = 0 -> loc_of_shr_record res.1 = loc_Exact).
Proof.
  intros Hm k res. subst k res. destruct n as [|p|p]; unfold shr; cbn [fst snd].
  - change (Z.max 0 0) with 0. rewrite Z.add_0_r, Z.div_1_r, shr_record_of_loc_m.
    repeat split; auto. intros -> _. reflexivity.
  - replace (Z.max 0 (Z.pos p)) with (Z.pos p) by lia.
    rewrite iter_pos_nat.
    assert (Hp : Z.pos p = Z.of_nat (Pos.to_nat p)) by (symmetry; apply positive_nat_Z).
    split; [reflexivity|]. rewrite Hp. split.
    + rewrite shr_iter_m by (rewrite shr_record_of_loc_m; exact Hm).
      rewrite shr_record_of_loc_m. reflexivity.
    + intros -> Hmod.
      destruct (shr_iter_exact (Pos.to_nat p) (shr_record_of_loc m loc_Exact))
        as [Hr Hs]; simpl; auto.
      destruct (Nat.iter _ _ _) as [m' r' s']. simpl in *. subst. reflexivity.
  - replace (Z.max 0 (Z.neg p)) with 0 by lia.
    rewrite Z.add_0_r, Z.div_1_r, shr_record_of_loc_m.
    repeat split; auto. intros -> _. reflexivity.
Qed.

(** *** The rounding function *)

Lemma round_nearest_even_cases m l :
  (round_nearest_even m l = m \/ round_nearest_even m l = m + 1) /\
  (l = loc_Exact -> round_nearest_even m l = m).
Proof.
  destruct l as [|[]]; simpl; split; auto; try discriminate.
  destruct (Z.even m); auto.
Qed.

Lemma fshift_nonneg m e : 0 <= fshift m e.
Proof. unfold fshift. lia. Qed.

Lemma fshift_exponent m e : -149 <= e + fshift m e.
Proof. unfold fshift. rewrite fexp32. lia. Qed.

(** After the shift the mantissa fits in 24 bits. *)
Lemma fshift_mantissa m e : 0 <= m -> 0 <= m / 2 ^ fshift m e < 2 ^ 24.
Proof.
  intros Hm. pose proof (fshift_nonneg m e) as Hn.
  assert (Hp : 0 < 2 ^ fshift m e) by (apply Z.pow_pos_nonneg; lia).
  split; [apply Z.div_pos; lia|].
  destruct (Z.eq_dec m 0) as [->|Hne]; [rewrite Z.div_0_l by lia; lia|].
  pose proof (Zdigits2_bounds m ltac:(lia)) as [_ Hhi].
  pose proof (Zdigits2_pos m ltac:(lia)) as Hd.
  destruct (Z_le_gt_dec (Zdigits2 m) 24) as [Hle|Hgt].
  - apply Z.le_lt_trans with m.
    + apply Z.div_le_upper_bound; [lia|]. nia.
    + apply Z.lt_le_trans with (2 ^ Zdigits2 m); [lia|].
      apply Z.pow_le_mono_r; lia.
  - apply Z.div_lt_upper_bound; [lia|].
    apply Z.lt_le_trans with (2 ^ Zdigits2 m); [lia|].
    rewrite <- Z.pow_add_r by lia.
    apply Z.pow_le_mono_r; [lia|]. unfold fshift. rewrite fexp32. lia.
Qed.

(** A mantissa of at most [2^24] is shifted by at most one place, and not at
    all if it is below [2^24], once the exponent is at least the smallest. *)
Lemma fshift_small m e :
  0 <= m <= 2 ^ 24 -> -149 <= e ->
  fshift m e <= 1 /\ (m < 2 ^ 24 -> fshift m e = 0).
Proof.
  intros Hm He. unfold fshift. rewrite fexp32.
  assert (H25 : Zdigits2 m <= 25) by (apply Zdigits2_le; [lia|]; change (2 ^ 25) with (2 * 2 ^ 24); lia).
  split; [lia|]. intros Hlt.
  assert (H24 : Zdigits2 m <= 24) by (apply Zdigits2_le; lia). lia.
Qed.

(** A positive mantissa that is not below the smallest exponent keeps a
    digit. *)
Lemma fshift_positive m e :
  0 < m -> -149 < Zdigits2 m + e -> 1 <= m / 2 ^ fshift m e.
Proof.
  intros Hm He. pose proof (Zdigits2_bounds m Hm) as [Hlo _].
  pose proof (Zdigits2_pos m Hm) as Hd.
  assert (Hn : 0 <= fshift m e <= Zdigits2 m - 1) by (unfold fshift; rewrite fexp32; lia).
  apply Z.div_le_lower_bound; [apply Z.pow_pos_nonneg; lia|].
  rewrite Z.mul_1_r. apply Z.le_trans with (2 ^ (Zdigits2 m - 1)); [|lia].
  apply Z.pow_le_mono_r; lia.
Qed.

Lemma shr_fexp_spec m e l :
  0 <= m ->
  let res := shr_fexp F32.prec F32.emax m e l in
  res.2 = e + fshift m e /\ shr_m res.1 = m / 2 ^ fshift m e /\
  (l = loc_Exact -> m mod 2 ^ fshift m e = 0 -> loc_of_shr_record res.1 = loc_Exact).
Proof. intros Hm. apply (shr_spec m l e _ Hm). Qed.

(** [binary_round_aux] in terms of its two shifts. *)
Lemma binary_round_aux_spec s mx ex l :
  0 <= mx ->
  exists m2,
    (m2 = mx / 2 ^ fshift mx ex \/ m2 = mx / 2 ^ fshift mx ex + 1) /\
    (l = loc_Exact -> mx mod 2 ^ fshift mx ex = 0 -> m2 = mx / 2 ^ fshift mx ex) /\
    binary_round_aux F32.prec F32.emax s mx ex l
    = round_result s (m2 / 2 ^ fshift m2 (ex + fshift mx ex))
        (ex + fshift mx ex + fshift m2 (ex + fshift mx ex)).
Proof.
  intros Hm. unfold binary_round_aux.
  pose proof (shr_fexp_spec mx ex l Hm) as (E1 & M1 & X1).
  destruct (shr_fexp F32.prec F32.emax mx ex l) as [mrs' e']. cbn [fst snd] in *.
  destruct (round_nearest_even_cases (shr_m mrs') (loc_of_shr_record mrs')) as [Hrne Hex].
  set (m2 := round_nearest_even (shr_m mrs') (loc_of_shr_record mrs')) in *.
  pose proof (fshift_mantissa mx ex Hm) as Hm1.
  assert (Hm2 : 0 <= m2) by lia.
  pose proof (shr_fexp_spec m2 e' loc_Exact Hm2) as (E2 & M2 & _).
  destruct (shr_fexp F32.prec F32.emax m2 e' loc_Exact) as [mrs'' e'']. cbn [fst snd] in *.
  exists m2. rewrite <- M1. split; [exact Hrne|]. split.
  - intros Hl Hmod. apply Hex. apply X1; assumption.
  - subst e' e''. rewrite M2. unfold round_result.
    pose proof (fshift_nonneg m2 (ex + fshift mx ex)) as Hn2.
    assert (0 <= m2 / 2 ^ fshift m2 (ex + fshift mx ex))
      by (apply Z.div_pos; [lia | apply Z.pow_pos_nonneg; lia]).
    destruct (m2 / 2 ^ fshift m2 (ex + fshift mx ex)) as [|p|p]; try reflexivity. lia.
Qed.

(** The result of rounding: a zero, a finite number of at most 24 bits or an
    infinity, of the given sign; not a zero when the input is large enough,
    not an infinity when the input does not exceed the largest finite
    number [(2^24 - 1) * 2^104]. *)
Lemma binary_round_aux_result s mx ex l :
  0 <= mx ->
  exists m e,
    binary_round_aux F32.prec F32.emax s mx ex l = round_result s m e /\
    0 <= m < 2 ^ 24 /\ -149 <= e /\
    (0 < mx -> -149 < Zdigits2 mx + ex -> 1 <= m) /\
    (ex <= 104 ->
     mx / 2 ^ (104 - ex) <= 2 ^ 24 - 2 \/
     (mx / 2 ^ (104 - ex) = 2 ^ 24 - 1 /\ mx mod 2 ^ (104 - ex) = 0 /\ l = loc_Exact) ->
     e <= 104).
Proof.
  intros Hm.
  destruct (binary_round_aux_spec s mx ex l Hm) as (m2 & Hm2 & Hexact & ->).
  pose proof (fshift_mantissa mx ex Hm) as Hm1.
  pose proof (fshift_exponent mx ex) as He1.
  pose proof (fshift_nonneg mx ex) as Hn1.
  set (e1 := ex + fshift mx ex) in *.
  assert (Hm2r : 0 <= m2 <= 2 ^ 24) by lia.
  pose proof (fshift_mantissa m2 e1 ltac:(lia)) as Hm3.
  pose proof (fshift_nonneg m2 e1) as Hn2.
  pose proof (fshift_small m2 e1 Hm2r He1) as [Hn2le Hn2z].
  eexists _, _. split; [reflexivity|]. split; [exact Hm3|]. split; [lia|]. split.
  - intros Hpos Hbig.
    pose proof (fshift_positive mx ex Hpos Hbig) as H1.
    apply fshift_positive; [lia|].
    pose proof (Zdigits2_pos m2 ltac:(lia)). lia.
  - intros Hex Hcond. set (n := 104 - ex) in *.
    assert (Hpn : 0 < 2 ^ n) by (apply Z.pow_pos_nonneg; lia).
    assert (Hlt : mx < 2 ^ (24 + n)).
    { rewrite Z.pow_add_r by lia.
      assert (mx / 2 ^ n < 2 ^ 24) by lia.
      pose proof (Z.div_mod mx (2 ^ n) ltac:(lia)).
      pose proof (Z.mod_pos_bound mx (2 ^ n) ltac:(lia)). nia. }
    assert (HD : Zdigits2 mx <= 24 + n) by (apply Zdigits2_le; lia).
    assert (He1le : e1 <= 104) by (subst e1 n; unfold fshift; rewrite fexp32; lia).
    destruct (Z.eq_dec e1 104) as [E|E]; [|lia].
    assert (En : fshift mx ex = n) by (subst e1 n; lia).
    rewrite En in *.
    assert (Hm2lt : m2 < 2 ^ 24).
    { destruct Hcond as [Hc|(Hc & Hmod & Hl)]; [lia|].
      rewrite (Hexact Hl Hmod). lia. }
    rewrite (Hn2z Hm2lt). lia.
Qed.

Lemma Zdigits2_unique m d :
  0 < m -> 2 ^ (d - 1) <= m < 2 ^ d -> Zdigits2 m = d.
Proof.
  intros Hm [Hlo Hhi].
  assert (Hd : 1 <= d).
  { destruct (Z_lt_le_dec d 1) as [H|H]; [|exact H].
    assert (2 ^ d <= 2 ^ 0) by (destruct (Z_lt_le_dec d 0);
      [rewrite Z.pow_neg_r by lia; simpl; lia | apply Z.pow_le_mono_r; lia]).
    simpl in *. lia. }
  pose proof (Zdigits2_le m d ltac:(lia) ltac:(lia)).
  pose proof (Zdigits2_gt m (d - 1) ltac:(lia) Hlo). lia.
Qed.

Lemma Zdigits2_shift m k :
  0 < m -> 0 <= k -> Zdigits2 (m * 2 ^ k) = Zdigits2 m + k.
Proof.
  intros Hm Hk. pose proof (Zdigits2_bounds m Hm) as [Hlo Hhi].
  pose proof (Zdigits2_pos m Hm) as Hd.
  assert (Hp : 0 < 2 ^ k) by (apply Z.pow_pos_nonneg; lia).
  apply Zdigits2_unique; [nia|].
  replace (Zdigits2 m + k - 1) with ((Zdigits2 m - 1) + k) by lia.
  rewrite !Z.pow_add_r by lia. nia.
Qed.

Lemma iter_xO_value p d : Z.pos (Pos.iter xO p d) = Z.pos p * 2 ^ Z.pos d.
Proof.
  induction d as [|d IH] using Pos.peano_ind.
  - simpl. lia.
  - rewrite Pos.iter_succ, Pos2Z.inj_xO, IH, Pos2Z.inj_succ, Z.pow_succ_r by lia. lia.
Qed.

(** [shl_align] lowers the exponent to the requested one, if that is lower,
    keeping the value. *)
Lemma shl_align_spec mx ex ex' :
  (shl_align mx ex ex').2 = Z.min ex ex' /\
  Z.pos (shl_align mx ex ex').1 = Z.pos mx * 2 ^ (ex - Z.min ex ex').
Proof.
  unfold shl_align. destruct (ex' - ex) as [|d|d] eqn:E; cbn [fst snd].
  - replace (Z.min ex ex') with ex by lia. rewrite Z.sub_diag. simpl. lia.
  - replace (Z.min ex ex') with ex by lia. rewrite Z.sub_diag. simpl. lia.
  - replace (Z.min ex ex') with ex' by lia. split; [reflexivity|].
    rewrite iter_xO_value. do 2 f_equal. lia.
Qed.

(** The result of [binary_round], as for [binary_round_aux]; the number
    rounded is [mx * 2^ex]. *)
Lemma binary_round_result s mx ex :
  exists m e,
    binary_round F32.prec F32.emax s mx ex = round_result s m e /\
    0 <= m < 2 ^ 24 /\ -149 <= e /\
    (-149 < Zdigits2 (Z.pos mx) + ex -> 1 <= m) /\
    (ex <= 104 -> Z.pos mx < (2 ^ 24 - 1) * 2 ^ (104 - ex) -> e <= 104).
Proof.
  unfold binary_round.
  pose proof (shl_align_spec mx ex (fexp F32.prec F32.emax (Z.pos (digits2_pos mx) + ex)))
    as [Ez Mz].
  destruct (shl_align mx ex _) as [mz ez]. cbn [fst snd] in *.
  set (ex' := fexp F32.prec F32.emax (Z.pos (digits2_pos mx) + ex)) in *.
  assert (Hk : 0 <= ex - ez) by lia.
  assert (Hp : 0 < 2 ^ (ex - ez)) by (apply Z.pow_pos_nonneg; lia).
  destruct (binary_round_aux_result s (Z.pos mz) ez loc_Exact ltac:(lia))
    as (m & e & Hres & Hm & He & Hnz & Hfin).
  exists m, e. split; [exact Hres|]. split; [exact Hm|]. split; [exact He|]. split.
  - intros Hbig. apply Hnz; [lia|].
    rewrite Mz, Zdigits2_shift by lia. lia.
  - intros Hex Hlt. apply Hfin; [lia|]. left.
    assert (Hq : Z.pos mz / 2 ^ (104 - ez) < 2 ^ 24 - 1); [|lia].
    apply Z.div_lt_upper_bound; [apply Z.pow_pos_nonneg; lia|].
    rewrite Mz. replace (104 - ez) with ((104 - ex) + (ex - ez)) by lia.
    rewrite Z.pow_add_r by lia. rewrite <- Ez.
    replace (2 ^ (104 - ex) * 2 ^ (ex - ez) * (2 ^ 24 - 1))
      with ((2 ^ 24 - 1) * 2 ^ (104 - ex) * 2 ^ (ex - ez)) by ring.
    apply Z.mul_lt_mono_pos_r; lia.
Qed.

(** *** Conversion of integers *)

(** A positive [int] converts to a positive finite number. *)
Lemma of_int_positive n :
  1 <= n <= Int32.int_max -> exists m e, F32.of_int n = S754_finite false m e.
Proof.
  intros Hn. destruct n as [|p|p]; try lia.
  unfold F32.of_int, binary_normalize.
  destruct (binary_round_result false p 0) as (m & e & -> & Hm & He & Hnz & Hfin).
  pose proof (Zdigits2_pos (Z.pos p) ltac:(lia)).
  specialize (Hnz ltac:(lia)).
  assert (He' : e <= 104).
  { apply Hfin; [lia|]. unfold Int32.int_max in Hn.
    change (104 - 0) with 104.
    assert (2 ^ 31 <= (2 ^ 24 - 1) * 2 ^ 104) by (vm_compute; discriminate).
    change (2 ^ 31) with 2147483648 in *. lia. }
  unfold round_result.
  replace (m =? 0) with false by (symmetry; apply Z.eqb_neq; lia).
  replace (e <=? 104) with true by (symmetry; apply Z.leb_le; lia).
  eauto.
Qed.

(** An [int] from 1 to [2^24 - 1] converts exactly, to a mantissa and a
    non-positive exponent. *)
Lemma of_int_exact n :
  1 <= n < 2 ^ 24 ->
  exists m e, F32.of_int n = S754_finite false m e /\ e <= 0 /\ Z.pos m = n * 2 ^ (- e).
Proof.
  intros Hn. destruct n as [|p|p]; try lia.
  unfold F32.of_int, binary_normalize, binary_round.
  set (d := Z.pos (digits2_pos p)).
  assert (Hd : 1 <= d <= 24).
  { split; [subst d; lia|]. apply (Zdigits2_le (Z.pos p) 24); lia. }
  pose proof (shl_align_spec p 0 (fexp F32.prec F32.emax (d + 0))) as [Ez Mz].
  destruct (shl_align p 0 _) as [mz ez]. cbn [fst snd] in *.
  rewrite fexp32 in Ez, Mz.
  assert (Eez : ez = d - 24) by lia. clear Ez. subst ez.
  replace (0 - Z.min 0 (Z.max (d + 0 - 24) (-149))) with (24 - d) in Mz by lia.
  assert (HDz : Zdigits2 (Z.pos mz) = 24).
  { rewrite Mz, Zdigits2_shift by lia. change (Zdigits2 (Z.pos p)) with d. lia. }
  assert (Hs : fshift (Z.pos mz) (d - 24) = 0)
    by (unfold fshift; rewrite HDz, fexp32; lia).
  destruct (binary_round_aux_spec false (Z.pos mz) (d - 24) loc_Exact ltac:(lia))
    as (m2 & _ & Hexact & ->).
  rewrite Hs in *. change (2 ^ 0) with 1 in *. rewrite Z.div_1_r in *.
  rewrite (Hexact eq_refl (Z.mod_1_r _)).
  rewrite Z.add_0_r, Hs, Z.div_1_r, Z.add_0_r.
  unfold round_result.
  replace (d - 24 <=? 104) with true by (symmetry; apply Z.leb_le; lia).
  cbn [Z.eqb Z.to_pos].
  exists mz, (d - 24). split; [reflexivity|]. split; [lia|].
  rewrite Mz. do 2 f_equal. lia.
Qed.

(** *** Sign classes *)

Lemma nonneg_is_nn x : nonneg x = is_nn x.
Proof. destruct x as [[]|[]| |[] m e]; reflexivity. Qed.

Lemma bounded_nn_is_nn x : bounded_nn x -> is_nn x = true.
Proof. destruct x as [[]|[]| |[] m e]; simpl; tauto. Qed.

Lemma is_nn_not_nan x : is_nn x = true -> F32.is_nan x = false.
Proof. destruct x as [[]|[]| |[] m e]; simpl; congruence. Qed.

Lemma valid_bounded_nn x :
  F32.valid x = true -> F32.is_finite x = true -> is_nn x = true -> bounded_nn x.
Proof.
  destruct x as [[]|[]| |[] m e]; simpl; try congruence; auto. intros Hv _ _.
  unfold F32.valid, valid_binary, bounded, canonical_mantissa in Hv.
  apply andb_true_iff in Hv as [Hc He].
  apply Z.eqb_eq in Hc. apply Z.leb_le in He. rewrite fexp32 in Hc.
  change (F32.emax - F32.prec) with 104 in He.
  pose proof (digits2_pos_bounds m) as [_ Hhi].
  assert (Z.pos (digits2_pos m) <= 24) by lia.
  pose proof (Z.pow_le_mono_r 2 (Z.pos (digits2_pos m)) 24 ltac:(lia) ltac:(lia)). lia.
Qed.

Lemma round_result_nn m e : 0 <= m -> is_nn (round_result false m e) = true.
Proof.
  intros Hm. unfold round_result.
  destruct (m =? 0); [reflexivity|]. destruct (e <=? 104); reflexivity.
Qed.

Lemma round_result_not_nan s m e : F32.is_nan (round_result s m e) = false.
Proof.
  unfold round_result.
  destruct (m =? 0); [reflexivity|]. destruct (e <=? 104); reflexivity.
Qed.

Lemma round_result_bounded m e :
  0 <= m < 2 ^ 24 -> -149 <= e <= 104 -> bounded_nn (round_result false m e).
Proof.
  intros Hm He. unfold round_result.
  destruct (Z.eqb_spec m 0); [exact I|].
  replace (e <=? 104) with true by (symmetry; apply Z.leb_le; lia).
  simpl. rewrite Z2Pos.id by lia. lia.
Qed.

(** A rounded result of negative sign is dropped by [max(0, .)], except for
    the zero, which stays. *)
Lemma max_zero_negative m e :
  bounded_nn (F32.max F32.zero (round_result true m e)).
Proof.
  unfold round_result.
  destruct (m =? 0); [exact I|]. destruct (e <=? 104); exact I.
Qed.

Lemma max_zero_bounded x : bounded_nn x -> F32.max F32.zero x = x.
Proof. destruct x as [[]|[]| |[] m e]; simpl; try tauto; reflexivity. Qed.

(** *** Products *)

Lemma mul_finite sx mx ex sy my ey :
  exists m e,
    F32.mul (S754_finite sx mx ex) (S754_finite sy my ey)
    = round_result (xorb sx sy) m e /\ 0 <= m.
Proof.
  unfold F32.mul, SFmul.
  destruct (binary_round_aux_result (xorb sx sy) (Z.pos (mx * my)) (ex + ey) loc_Exact
              ltac:(lia)) as (m & e & Hres & Hm & _).
  exists m, e. split; [exact Hres | lia].
Qed.

Lemma mul_self_nn x : F32.is_nan x = false -> is_nn (F32.mul x x) = true.
Proof.
  destruct x as [s|s| |s m e]; try discriminate; intros _.
  - destruct s; reflexivity.
  - destruct s; reflexivity.
  - destruct (mul_finite s m e s m e) as (m' & e' & -> & Hm).
    rewrite xorb_nilpotent. apply round_result_nn. exact Hm.
Qed.

Lemma mul_nn_pos x y :
  is_nn x = true -> pos_finite y -> is_nn (F32.mul x y) = true.
Proof.
  intros Hx (my & ey & ->).
  destruct x as [[]|[]| |[] m e]; try discriminate; try reflexivity.
  destruct (mul_finite false m e false my ey) as (m' & e' & -> & Hm).
  apply round_result_nn. exact Hm.
Qed.

Lemma mul_pos_nn y x :
  pos_finite y -> is_nn x = true -> is_nn (F32.mul y x) = true.
Proof.
  intros (my & ey & ->) Hx.
  destruct x as [[]|[]| |[] m e]; try discriminate; try reflexivity.
  destruct (mul_finite false my ey false m e) as (m' & e' & -> & Hm).
  apply round_result_nn. exact Hm.
Qed.

(** A scaled square is non-negative, whatever the sign of its root. *)
Lemma scaled_square_nn q d :
  pos_finite q -> F32.is_nan d = false ->
  is_nn (F32.mul (F32.mul q d) d) = true.
Proof.
  intros (mq & eq & ->) Hd.
  destruct d as [s|s| |s m e]; try discriminate.
  - destruct s; reflexivity.
  - destruct s; reflexivity.
  - destruct (mul_finite false mq eq s m e) as (m1 & e1 & -> & Hm1).
    simpl xorb. unfold round_result.
    destruct (m1 =? 0).
    + destruct s; reflexivity.
    + destruct (e1 <=? 104).
      * destruct (mul_finite s (Z.to_pos m1) e1 s m e) as (m2 & e2 & -> & Hm2).
        rewrite xorb_nilpotent. apply round_result_nn. exact Hm2.
      * destruct s; reflexivity.
Qed.

(** *** Sums and differences *)

Lemma binary_normalize_cases z e :
  exists m e',
    0 <= m /\
    binary_normalize F32.prec F32.emax z e false
    = round_result (z <? 0) m e'.
Proof.
  destruct z as [|p|p]; simpl.
  - exists 0, 0. split; [lia|]. reflexivity.
  - destruct (binary_round_result false p e) as (m & e' & -> & Hm & _).
    exists m, e'. split; [lia|reflexivity].
  - destruct (binary_round_result true p e) as (m & e' & -> & Hm & _).
    exists m, e'. split; [lia|reflexivity].
Qed.

Lemma add_nn x y : is_nn x = true -> is_nn y = true -> is_nn (F32.add x y) = true.
Proof.
  destruct x as [[]|[]| |[] mx ex], y as [[]|[]| |[] my ey]; try discriminate;
    try reflexivity.
  intros _ _. unfold F32.add, SFadd. cbn [cond_Zopp].
  destruct (binary_normalize_cases
              (Z.pos (shl_align mx ex (Z.min ex ey)).1 + Z.pos (shl_align my ey (Z.min ex ey)).1)
              (Z.min ex ey)) as (m & e' & Hm & ->).
  replace (_ <? 0) with false by (symmetry; apply Z.ltb_ge; lia).
  apply round_result_nn. exact Hm.
Qed.

Lemma sub_bounded_not_nan x y :
  bounded_nn x -> bounded_nn y -> F32.is_nan (F32.sub x y) = false.
Proof.
  destruct x as [[]|[]| |[] mx ex], y as [[]|[]| |[] my ey]; simpl; try tauto;
    try reflexivity.
  intros _ _. unfold F32.sub, SFsub.
  destruct (binary_normalize_cases
              (cond_Zopp false (Z.pos (shl_align mx ex (Z.min ex ey)).1)
               - cond_Zopp false (Z.pos (shl_align my ey (Z.min ex ey)).1))
              (Z.min ex ey)) as (m & e' & Hm & ->).
  apply round_result_not_nan.
Qed.

(** The difference of a bounded non-negative number and a non-negative one
    never overflows upwards: floored at zero it is bounded again. *)
Lemma max_zero_sub_bounded x p :
  bounded_nn x -> is_nn p = true -> bounded_nn (F32.max F32.zero (F32.sub x p)).
Proof.
  destruct x as [[]|[]| |[] mx ex], p as [[]|[]| |[] mp ep]; simpl; try tauto;
    try discriminate; try (intros; exact I).
  intros [Hmx Hex] _. unfold F32.sub, SFsub. cbn [cond_Zopp].
  pose proof (shl_align_spec mx ex (Z.min ex ep)) as [_ Mx].
  set (ez := Z.min ex ep) in *. set (zx := Z.pos (shl_align mx ex ez).1) in *.
  set (zp := Z.pos (shl_align mp ep ez).1).
  replace (Z.min ex ez) with ez in Mx by lia.
  assert (Hp : 0 < 2 ^ (ex - ez)) by (apply Z.pow_pos_nonneg; lia).
  destruct (zx - zp) as [|pz|pz] eqn:Ez; unfold binary_normalize.
  - exact I.
  - destruct (binary_round_result false pz ez) as (m & e & -> & Hm & He & _ & Hfin).
    assert (He' : e <= 104).
    { apply Hfin; [lia|].
      assert (Hlt : Z.pos pz < zx) by (subst zp; lia).
      apply Z.lt_le_trans with zx; [exact Hlt|]. rewrite Mx.
      replace (104 - ez) with ((104 - ex) + (ex - ez)) by lia.
      rewrite Z.pow_add_r by lia.
      assert (1 <= 2 ^ (104 - ex)) by (pose proof (Z.pow_pos_nonneg 2 (104 - ex)); lia).
      nia. }
    rewrite max_zero_bounded; apply round_result_bounded; lia.
  - destruct (binary_round_result true pz ez) as (m & e & -> & _).
    apply max_zero_negative.
Qed.

(** *** Quotients *)

Lemma div_finite sx mx ex sy my ey :
  let e' := Z.min (fexp F32.prec F32.emax
                     (Zdigits2 (Z.pos mx) + ex - (Zdigits2 (Z.pos my) + ey)))
                  (ex - ey) in
  let s := ex - ey - e' in
  F32.div (S754_finite sx mx ex) (S754_finite sy my ey)
  = binary_round_aux F32.prec F32.emax (xorb sx sy)
      (Z.pos mx * 2 ^ s / Z.pos my) e'
      (new_location (Z.pos my) ((Z.pos mx * 2 ^ s) mod Z.pos my)).
Proof.
  intros e' s. unfold F32.div, SFdiv, SFdiv_core_binary. fold e'. fold s.
  assert (Hs : 0 <= s) by (subst s e'; lia).
  assert (Hm' : match s with
                | Z.pos _ => Z.shiftl (Z.pos mx) s
                | 0 => Z.pos mx
                | Z.neg _ => 0
                end = Z.pos mx * 2 ^ s).
  { destruct s as [|ps|ps]; [simpl; lia| |lia].
    apply Z.shiftl_mul_pow2. lia. }
  rewrite Hm'. unfold Z.div, Z.modulo.
  destruct (Z.div_eucl (Z.pos mx * 2 ^ s) (Z.pos my)) as [q r]. reflexivity.
Qed.

Lemma div_finite_result sx mx ex sy my ey :
  exists m e,
    F32.div (S754_finite sx mx ex) (S754_finite sy my ey)
    = round_result (xorb sx sy) m e /\ 0 <= m.
Proof.
  rewrite div_finite.
  match goal with |- context [binary_round_aux _ _ ?s ?q ?e ?l] =>
    destruct (binary_round_aux_result s q e l) as (m & e0 & Hres & Hm & _)
  end.
  - apply Z.div_pos; [|lia].
    apply Z.mul_nonneg_nonneg; [lia|]. apply Z.pow_nonneg. lia.
  - exists m, e0. split; [exact Hres|lia].
Qed.

Lemma div_nn_pos x y :
  is_nn x = true -> pos_finite y -> is_nn (F32.div x y) = true.
Proof.
  intros Hx (my & ey & ->).
  destruct x as [[]|[]| |[] m e]; try discriminate; try reflexivity.
  destruct (div_finite_result false m e false my ey) as (m' & e' & -> & Hm).
  apply round_result_nn. exact Hm.
Qed.

Lemma div_finite_not_nan x y :
  F32.is_finite x = true -> is_pos y = true -> F32.is_nan (F32.div x y) = false.
Proof.
  destruct x as [sx|sx| |sx mx ex], y as [[]|[]| |[] my ey]; try discriminate;
    try reflexivity.
  intros _ _. destruct (div_finite_result sx mx ex false my ey) as (m' & e' & -> & Hm).
  apply round_result_not_nan.
Qed.

(** The denominator [max(w, 1e-7f)] of the ratio is positive, whatever [w]
    is. *)
Lemma max_eps_pos w : is_pos (F32.max w F32.eps) = true.
Proof.
  unfold F32.max. destruct (F32.gt w F32.eps) eqn:E; [|reflexivity].
  destruct w as [[]|[]| |[] m e]; try reflexivity; discriminate.
Qed.

Lemma new_location_zero n : new_location n 0 = loc_Exact.
Proof. unfold new_location. destruct (Z.even n); reflexivity. Qed.

(** Dividing a bounded non-negative number by an exactly converted integer
    from 1 on does not overflow. *)
Lemma div_bounded x y :
  bounded_nn x -> at_least_one y -> bounded_nn (F32.div x y).
Proof.
  intros Hx (my & ey & -> & Hey & Hmy).
  destruct x as [[]|[]| |[] mx ex]; simpl in Hx; try tauto; try exact I.
  destruct Hx as [Hmx Hex].
  rewrite div_finite. cbv zeta. change (xorb false false) with false.
  set (a := - ey) in *.
  assert (Hd1 : Zdigits2 (Z.pos mx) <= 24) by (apply Zdigits2_le; lia).
  assert (Hd2 : a < Zdigits2 (Z.pos my)) by (apply Zdigits2_gt; lia).
  set (e' := Z.min _ (ex - ey)).
  assert (He' : e' <= ex) by (subst e'; rewrite fexp32; lia).
  assert (He'' : e' <= ex - 1 \/ e' <= -149) by (subst e'; rewrite fexp32; lia).
  set (s := ex - ey - e').
  assert (Es : s = a + (ex - e')) by (subst s a; lia).
  assert (Hpa : 0 < 2 ^ a) by (apply Z.pow_pos_nonneg; lia).
  assert (Hpk : 0 < 2 ^ (ex - e')) by (apply Z.pow_pos_nonneg; lia).
  assert (Hpn : 0 < 2 ^ (104 - ex)) by (apply Z.pow_pos_nonneg; lia).
  assert (En : 2 ^ (104 - e') = 2 ^ (104 - ex) * 2 ^ (ex - e'))
    by (rewrite <- Z.pow_add_r by lia; f_equal; lia).
  assert (Epow : 2 ^ s = 2 ^ a * 2 ^ (ex - e'))
    by (rewrite Es, Z.pow_add_r by lia; reflexivity).
  set (q := Z.pos mx * 2 ^ s / Z.pos my).
  assert (Hq0 : 0 <= q) by (apply Z.div_pos; [nia|lia]).
  assert (Hqm : Z.pos my * q <= Z.pos mx * 2 ^ s) by (apply Z.mul_div_le; lia).
  destruct (binary_round_aux_result false q e'
              (new_location (Z.pos my) ((Z.pos mx * 2 ^ s) mod Z.pos my)) Hq0)
    as (m & e & -> & Hm & He & _ & Hfin).
  apply round_result_bounded; [exact Hm|]. split; [exact He|].
  apply Hfin; [lia|]. rewrite En.
  destruct (Z.eq_dec (Z.pos my) (2 ^ a)) as [Emy|Nmy].
  - assert (Eq : q = Z.pos mx * 2 ^ (ex - e')).
    { subst q. rewrite Emy, Epow.
      replace (Z.pos mx * (2 ^ a * 2 ^ (ex - e'))) with (Z.pos mx * 2 ^ (ex - e') * 2 ^ a) by ring.
      apply Z.div_mul. lia. }
    assert (Er : (Z.pos mx * 2 ^ s) mod Z.pos my = 0).
    { rewrite Emy, Epow.
      replace (Z.pos mx * (2 ^ a * 2 ^ (ex - e'))) with (Z.pos mx * 2 ^ (ex - e') * 2 ^ a) by ring.
      apply Z.mod_mul. lia. }
    rewrite Er, new_location_zero, Eq.
    rewrite Z.div_mul_cancel_r by lia.
    destruct (Z.eq_dec ex 104) as [E104|N104].
    + rewrite E104 in *. change (2 ^ (104 - 104)) with 1 in *.
      rewrite Z.div_1_r, Z.mul_1_l.
      destruct (Z_le_gt_dec (Z.pos mx) (2 ^ 24 - 2)) as [Hle|Hgt]; [left; exact Hle|].
      right. split; [lia|]. split; [|reflexivity].
      apply Z.mod_mul. lia.
    + left. assert (H2 : 2 <= 2 ^ (104 - ex)).
      { change 2 with (2 ^ 1) at 1. apply Z.pow_le_mono_r; lia. }
      assert (Hlt : Z.pos mx / 2 ^ (104 - ex) < 2 ^ 24 - 1); [|lia].
      apply Z.div_lt_upper_bound; [lia|].
      change (2 ^ 24) with 16777216 in *. nia.
  - left. assert (Hgt : 2 ^ a + 1 <= Z.pos my) by lia.
    assert (Hqlt : q < Z.pos mx * 2 ^ (ex - e')).
    { rewrite Epow in Hqm.
      assert (Hqm' : (2 ^ a + 1) * q <= Z.pos mx * 2 ^ (ex - e') * 2 ^ a) by nia.
      destruct (Z.eq_dec q 0) as [->|Hq]; [nia|].
      apply (Z.mul_lt_mono_pos_r (2 ^ a)); [lia|]. nia. }
    assert (Hlt : q / (2 ^ (104 - ex) * 2 ^ (ex - e')) < 2 ^ 24 - 1); [|lia].
    apply Z.div_lt_upper_bound; [nia|].
    change (2 ^ 24) with 16777216 in *.
    assert (Z.pos mx * 2 ^ (ex - e') <= 16777215 * 2 ^ (ex - e')) by nia.
    assert (16777215 * 2 ^ (ex - e') <= 2 ^ (104 - ex) * 2 ^ (ex - e') * 16777215) by nia.
    lia.
Qed.

(** ** The sub-sample counts and the variance divisions *)

Lemma sub_sample_counts sample :
  0 <= sample < Int32.int_max ->
  odd_sample sample = (sample + 1) / 2 /\ even_sample sample = sample / 2.
Proof.
  intros H. unfold odd_sample, even_sample, Int32.div, Int32.add, Int32.int_max in *.
  rewrite (wrap_id (sample + 1)) by (unfold Int32.in_range, Int32.int_min, Int32.int_max; lia).
  rewrite !Z.quot_div_nonneg by lia.
  pose proof (Z.div_mod (sample + 1) 2). pose proof (Z.mod_pos_bound (sample + 1) 2).
  pose proof (Z.div_mod sample 2). pose proof (Z.mod_pos_bound sample 2).
  split; apply wrap_id; unfold Int32.in_range, Int32.int_min, Int32.int_max; lia.
Qed.

Lemma divisors_from_4 sample :
  4 <= sample < Int32.int_max ->
  1 <= Int32.sub (odd_sample sample) 1 <= sample /\
  1 <= Int32.sub (even_sample sample) 1 <= sample /\
  1 <= odd_sample sample <= sample /\ 1 <= even_sample sample <= sample.
Proof.
  intros H. destruct (sub_sample_counts sample ltac:(lia)) as [-> ->].
  unfold Int32.sub, Int32.int_max in *.
  pose proof (Z.div_mod (sample + 1) 2). pose proof (Z.mod_pos_bound (sample + 1) 2).
  pose proof (Z.div_mod sample 2). pose proof (Z.mod_pos_bound sample 2).
  rewrite !wrap_id by (unfold Int32.in_range, Int32.int_min, Int32.int_max; lia).
  lia.
Qed.

(** C2, as the code has it.  For a sample count of at least 4 (and below
    [INT_MAX]) neither sub-sample count is 1: the divisors
    [odd_sample - 1] and [even_sample - 1] are at least 1 and convert to
    non-zero finite numbers, so the variance divisions do not divide by
    zero. *)
Theorem shadow_divisors_nonzero sample :
  4 <= sample < Int32.int_max ->
  odd_sample sample <> 1 /\ even_sample sample <> 1 /\
  divisors_nonzero sample /\
  pos_finite (F32.of_int (Int32.sub (odd_sample sample) 1)) /\
  pos_finite (F32.of_int (Int32.sub (even_sample sample) 1)).
Proof.
  intros H. destruct (divisors_from_4 sample H) as (Ho & He & Ho' & He').
  assert (Ho1 : odd_sample sample <> 1).
  { intros E. rewrite E in Ho. vm_compute in Ho. destruct Ho as [Ho _]. apply Ho. reflexivity. }
  assert (He1 : even_sample sample <> 1).
  { intros E. rewrite E in He. vm_compute in He. destruct He as [He _]. apply He. reflexivity. }
  unfold divisors_nonzero.
  repeat split; try assumption; try lia;
    apply of_int_positive; unfold Int32.int_max in *; lia.
Qed.

Lemma shadow_divisors_nonzero_witness :
  divisors_nonzero 4 /\ pos_finite (F32.of_int (Int32.sub (odd_sample 4) 1)).
Proof.
  destruct (shadow_divisors_nonzero 4) as (_ & _ & Hd & Hp & _);
    [unfold Int32.int_max; lia|].
  split; assumption.
Defined.

(** C2 as stated fails: with two samples (and with three) a sub-sample count
    is 1, the divisor is 0 and the division of a positive second moment
    gives [+inf]. *)
Lemma shadow_divisors_zero_at_2 :
  2 <= 2 /\ odd_sample 2 = 1 /\ even_sample 2 = 1 /\ ~ divisors_nonzero 2 /\
  2 <= 3 /\ even_sample 3 = 1 /\ ~ divisors_nonzero 3 /\
  F32.div (F32.of_int 9) (F32.of_int (Int32.sub (odd_sample 2) 1)) = S754_infinity false.
Proof.
  repeat split; try reflexivity; try lia.
  - intros [H _]. apply H. reflexivity.
  - intros [_ H]. apply H. reflexivity.
Qed.

(** ** Sign of the written variances *)

Lemma pos_finite_half : pos_finite F32.half.
Proof. eexists _, _. reflexivity. Qed.

Lemma of_int_at_least_one n : 1 <= n < 2 ^ 24 -> at_least_one (F32.of_int n).
Proof.
  intros Hn. destruct (of_int_exact n Hn) as (m & e & -> & He & Hm).
  exists m, e. split; [reflexivity|]. split; [exact He|].
  rewrite Hm. assert (0 < 2 ^ (- e)) by (apply Z.pow_pos_nonneg; lia). nia.
Qed.

(** One half variance of the split path: the floored difference divided by
    the sub-sample count less one. *)
Lemma half_variance_bounded r1 r0 r2 count :
  F32.is_finite r1 = true ->
  F32.valid r2 = true -> F32.is_finite r2 = true -> nonneg r2 = true ->
  2 <= count < 2 ^ 24 ->
  let u := F32.div r1 (F32.max r0 F32.eps) in
  bounded_nn
    (F32.div (F32.max F32.zero (F32.sub r2 (F32.mul (F32.mul u u) (F32.of_int count))))
       (F32.of_int (count - 1))).
Proof.
  intros Hr1 Hv Hf Hn Hc u.
  assert (Hu : F32.is_nan u = false)
    by (apply div_finite_not_nan; [exact Hr1 | apply max_eps_pos]).
  assert (Hp : is_nn (F32.mul (F32.mul u u) (F32.of_int count)) = true).
  { apply mul_nn_pos; [apply mul_self_nn; exact Hu|].
    apply of_int_positive. unfold Int32.int_max. change (2 ^ 24) with 16777216 in Hc. lia. }
  apply div_bounded.
  - apply max_zero_sub_bounded; [|exact Hp].
    apply valid_bounded_nn; try assumption. rewrite <- nonneg_is_nn. exact Hn.
  - apply of_int_at_least_one. lia.
Qed.

(** The two variances written from two bounded half variances. *)
Lemma variances_nonneg vA vB sample :
  bounded_nn vA -> bounded_nn vB -> 1 <= sample -> sample * sample <= Int32.int_max ->
  nonneg (F32.div (F32.mul F32.half (F32.add vA vB)) (F32.of_int sample)) = true /\
  nonneg (F32.div (F32.mul (F32.mul F32.half (F32.sub vA vB)) (F32.sub vA vB))
                  (F32.of_int (sample * sample))) = true.
Proof.
  intros HA HB Hs Hsq. rewrite !nonneg_is_nn. split.
  - apply div_nn_pos; [|apply of_int_positive; nia].
    apply mul_pos_nn; [apply pos_finite_half|].
    apply add_nn; apply bounded_nn_is_nn; assumption.
  - apply div_nn_pos; [|apply of_int_positive; nia].
    apply scaled_square_nn; [apply pos_finite_half|].
    apply sub_bounded_not_nan; assumption.
Qed.

(** C4, as the code has it.  With the split-variance flag on, a sample count
    from 4 to 46340 (so that no sub-sample count is 1 and [sample*sample]
    is an [int]) and a record whose ratio numerators [record[1]],
    [record[4]] are finite and whose second moments [record[2]],
    [record[5]] are finite binary32 values with [>= 0], the kernel returns
    and the [sampleVariance] and [sampleVarianceV] it writes are both
    [>= 0]. *)
Theorem divide_shadow_variances_nonneg
    sample tiles x y unfilteredA unfilteredB sampleVariance sampleVarianceV bufferVariance
    rect buffer_pass_stride buffer_denoising_offset (m : memory)
    base r0 r1 r2 r3 r4 r5 :
  let idx := rect_index rect x y in
  let outputs :=
    shadow_outputs unfilteredA unfilteredB sampleVariance sampleVarianceV
      bufferVariance idx in
  let record := base + Int32.add buffer_denoising_offset 14 in
  pixel_base tiles x y buffer_pass_stride = Some base ->
  m !! (record + 0) = Some r0 -> m !! (record + 1) = Some r1 ->
  m !! (record + 2) = Some r2 -> m !! (record + 3) = Some r3 ->
  m !! (record + 4) = Some r4 -> m !! (record + 5) = Some r5 ->
  NoDup outputs ->
  Forall (fun p => is_Some (m !! p)) outputs ->
  Forall (fun p => p ∉ outputs) (shadow_record record) ->
  4 <= sample -> sample * sample <= Int32.int_max ->
  F32.is_finite r1 = true -> F32.is_finite r4 = true ->
  F32.valid r2 = true -> F32.is_finite r2 = true -> nonneg r2 = true ->
  F32.valid r5 = true -> F32.is_finite r5 = true -> nonneg r5 = true ->
  exists m' sv svv,
    kernel_filter_divide_shadow sample tiles x y
      unfilteredA unfilteredB sampleVariance sampleVarianceV bufferVariance
      rect buffer_pass_stride buffer_denoising_offset true m = Some m' /\
    m' !! (sampleVariance + idx) = Some sv /\
    m' !! (sampleVarianceV + idx) = Some svv /\
    nonneg sv = true /\ nonneg svv = true.
Proof.
  intros idx outputs record Hbase Hr0 Hr1 Hr2 Hr3 Hr4 Hr5 Hdistinct Hallocated Hreadonly
    Hs Hsq Hf1 Hf4 Hv2 Hf2 Hn2 Hv5 Hf5 Hn5.
  assert (Hsmall : sample <= 46340) by (unfold Int32.int_max in Hsq; nia).
  destruct (divisors_from_4 sample ltac:(unfold Int32.int_max; lia)) as (Ho & He & Ho' & He').
  pose proof (divide_shadow_exec sample tiles x y unfilteredA unfilteredB sampleVariance
                sampleVarianceV bufferVariance rect buffer_pass_stride
                buffer_denoising_offset true m base r0 r1 r2 r3 r4 r5
                Hbase Hr0 Hr1 Hr2 Hr3 Hr4 Hr5 Hdistinct Hallocated Hreadonly) as Hexec.
  cbv iota in Hexec.
  assert (Eo : Int32.sub (odd_sample sample) 1 = odd_sample sample - 1).
  { unfold Int32.sub. apply wrap_id.
    unfold Int32.in_range, Int32.int_min, Int32.int_max. lia. }
  assert (Ee : Int32.sub (even_sample sample) 1 = even_sample sample - 1).
  { unfold Int32.sub. apply wrap_id.
    unfold Int32.in_range, Int32.int_min, Int32.int_max. lia. }
  assert (Em : Int32.mul sample sample = sample * sample).
  { unfold Int32.mul. apply wrap_id.
    unfold Int32.in_range, Int32.int_min, Int32.int_max in *. nia. }
  rewrite Eo, Ee, Em in *.
  assert (H24 : 46340 < 2 ^ 24) by reflexivity.
  pose proof (half_variance_bounded r1 r0 r2 (odd_sample sample)
                Hf1 Hv2 Hf2 Hn2 ltac:(lia)) as HA.
  pose proof (half_variance_bounded r4 r3 r5 (even_sample sample)
                Hf4 Hv5 Hf5 Hn5 ltac:(lia)) as HB.
  cbv zeta in HA, HB.
  destruct (variances_nonneg _ _ sample HA HB ltac:(lia) Hsq) as [HsV HsVV].
  subst outputs. unfold shadow_outputs in Hdistinct.
  rewrite !NoDup_cons, !not_elem_of_cons in Hdistinct. destruct_and!. subst idx.
  eexists _, _, _. split; [exact Hexec|].
  split; [mem_lookup; reflexivity|]. split; [mem_lookup; reflexivity|].
  split; assumption.
Qed.

(** The shadow example of the specification: the variances written are
    [0.25] and [0]. *)
Lemma divide_shadow_variances_nonneg_witness :
  exists m' sv svv,
    kernel_filter_divide_shadow 4 scene_tiles 5 6 0 16 32 48 64 scene_rect 20 0 true
      scene_memory = Some m' /\
    m' !! (32 + rect_index scene_rect 5 6) = Some sv /\
    m' !! (48 + rect_index scene_rect 5 6) = Some svv /\
    nonneg sv = true /\ nonneg svv = true.
Proof.
  apply (divide_shadow_variances_nonneg 4 scene_tiles 5 6 0 16 32 48 64 scene_rect 20 0
           scene_memory 1180
           (F32.of_int 2) (F32.of_int 4) (F32.of_int 9)
           (F32.of_int 2) (F32.of_int 4) (F32.of_int 9));
    try reflexivity; try by_compute; try lia.
Defined.

(** C4 as stated fails: with two samples both divisors are zero and, for the
    record [2, 4, 9, 2, 4, 9] with its non-negative second moments, the
    [sampleVarianceV] written is [inf - inf], a NaN, which is not [>= 0]. *)
Lemma divide_shadow_nan_at_2 :
  nonneg (F32.of_int 9) = true /\
  exists m',
    kernel_filter_divide_shadow 2 scene_tiles 5 6 0 16 32 48 64 scene_rect 20 0 true
      scene_memory = Some m' /\
    m' !! (32 + rect_index scene_rect 5 6) = Some (S754_infinity false) /\
    m' !! (48 + rect_index scene_rect 5 6) = Some S754_nan /\
    nonneg S754_nan = false.
Proof.
  split; [reflexivity|]. eexists. split; [vm_compute; reflexivity|].
  repeat split; vm_compute; reflexivity.
Qed.

(** The bounds of the amended statement are needed: infinite second moments
    give a NaN at four samples, and at 46341 samples [sample*sample] leaves
    the [int] range, where the wrapped product is negative and so is the
    [sampleVarianceV] written from the record [1, 0, 2, 1, 0, 0]. *)
Example divide_shadow_nan_at_infinity :
  let m : memory :=
    cells 1194 [F32.of_int 2; F32.of_int 4; S754_infinity false;
                F32.of_int 2; F32.of_int 4; S754_infinity false]
    ∪ cells 0 (replicate 80 F32.zero) in
  (fun m' : memory => m' !! 57) <$>
    kernel_filter_divide_shadow 4 scene_tiles 5 6 0 16 32 48 64 scene_rect 20 0 true m
  = Some (Some S754_nan).
Proof. vm_compute. reflexivity. Qed.

Example divide_shadow_negative_at_46341 :
  let m : memory :=
    cells 1194 (F32.of_int <$> [1; 0; 2; 1; 0; 0]) ∪ cells 0 (replicate 80 F32.zero) in
  Int32.mul 46341 46341 = -2147479015 /\
  exists v,
    (fun m' : memory => m' !! 57) <$>
      kernel_filter_divide_shadow 46341 scene_tiles 5 6 0 16 32 48 64 scene_rect 20 0
        true m
    = Some (Some v) /\ F32.gt F32.zero v = true.
Proof. split; [reflexivity|]. eexists. split; vm_compute; reflexivity. Qed.

(** * Further properties of the kernels *)

(** ** Frames of the feature loader and of the half combiner *)

(** Splitting a successful run at its binds. *)
Ltac split_binds H :=
  repeat match type of H with
  | (?o ≫= _) = Some _ =>
      let E := fresh "E" in destruct o eqn:E; simpl in H; [|discriminate]
  | (let '(_, _) := ?o in _) = _ => destruct o
  | (match ?o with Some _ => _ | None => _ end) = Some _ =>
      let E := fresh "E" in destruct o eqn:E; simpl in H; [|discriminate]
  end.

(** X1.  A call of [kernel_filter_get_feature] that returns has changed no cell
    other than [mean[idx]] and [variance[idx]], which were both allocated,
    and has allocated or freed nothing. *)
Theorem get_feature_frame sample tiles m_offset v_offset x y mean variance rect
    buffer_pass_stride buffer_denoising_offset use_split_variance (m m' : memory) :
  kernel_filter_get_feature sample tiles m_offset v_offset x y mean variance rect
    buffer_pass_stride buffer_denoising_offset use_split_variance m = Some m' ->
  let idx := rect_index rect x y in
  (forall p, p <> mean + idx -> p <> variance + idx -> m' !! p = m !! p) /\
  (forall p, is_Some (m' !! p) <-> is_Some (m !! p)) /\
  is_Some (m !! (mean + idx)) /\ is_Some (m !! (variance + idx)).
Proof.
  unfold kernel_filter_get_feature. intros H.
  split_binds H.
  destruct use_split_variance; split_binds H; cbv zeta;
    repeat match goal with
    | E : load _ _ = Some _ |- _ => clear E
    end.
  all: match goal with
       | S1 : store _ _ _ = Some ?m1, S2 : store ?m1 _ _ = Some _ |- _ =>
           pose proof (store_inv _ _ _ _ S1) as [A1 _];
           pose proof (store_inv _ _ _ _ S2) as [A2 _];
           apply (store_allocated _ _ _ _ _ S1) in A2;
           split; [|split; [|split; assumption]];
           [ intros p Hm Hv;
             rewrite (store_other _ _ _ _ p S2) by assumption;
             apply (store_other _ _ _ _ p S1); assumption
           | intros p;
             rewrite (store_allocated _ _ _ _ p S2);
             apply (store_allocated _ _ _ _ p S1) ]
       end.
Qed.

Lemma get_feature_frame_witness :
  exists m',
    kernel_filter_get_feature 2 scene_tiles 0 1 5 6 0 16 scene_rect 20 14 false
      (cells 1194 (F32.of_int <$> [10; 5]) ∪ cells 0 (replicate 32 F32.zero))
    = Some m' /\
    m' !! 1194 = Some (F32.of_int 10) /\ m' !! 8 = Some F32.zero.
Proof.
  destruct (kernel_filter_get_feature 2 scene_tiles 0 1 5 6 0 16 scene_rect 20 14 false
              (cells 1194 (F32.of_int <$> [10; 5]) ∪ cells 0 (replicate 32 F32.zero)))
    as [m'|] eqn:Hrun; [|vm_compute in Hrun; discriminate].
  exists m'. split; [reflexivity|].
  destruct (get_feature_frame _ _ _ _ _ _ _ _ _ _ _ _ _ _ Hrun) as (Hframe & _ & _).
  split; (rewrite Hframe; [reflexivity | by_compute | by_compute]).
Defined.

(** ** The half combiner: what a run that returns has done *)

Section GatherReturns.

Variables (a b : Z) (rect : int4) (m : memory).

(** One gathering step that returns has read both halves at the pixel and
    found room in the array. *)
Lemma gather_pixel_inv py px acc st' :
  (length acc <= 25)%nat ->
  gather_pixel a b rect m py px (Z.of_nat (length acc), values_of acc) = Some st' ->
  exists v,
    sq_diff m a b rect (px, py) = Some v /\ (length acc < 25)%nat /\
    st' = (Z.of_nat (length (acc ++ [v])), values_of (acc ++ [v])).
Proof.
  intros Hlen H.
  assert (Hv : exists v, sq_diff m a b rect (px, py) = Some v /\ (length acc < 25)%nat).
  { revert H. unfold sq_diff, gather_pixel, load. simpl.
    destruct (m !! (a + rect_index rect px py)) as [a1|]; simpl; [|discriminate].
    destruct (m !! (b + rect_index rect px py)) as [b1|]; simpl; [|discriminate].
    unfold values_set. rewrite values_of_length by assumption.
    destruct (Z.ltb_spec (Z.of_nat (length acc)) (Z.of_nat 25)) as [Hlt|Hge].
    - intros _. eexists. split; [reflexivity|lia].
    - rewrite andb_false_r. discriminate. }
  destruct Hv as (v & Hv & Hlt). exists v. split; [exact Hv|]. split; [exact Hlt|].
  rewrite (gather_pixel_snoc _ _ _ _ _ _ _ _ Hv Hlt) in H. congruence.
Qed.

Lemma mapM_cons_intro {A B : Type} (f : A -> option B) p l v vs :
  f p = Some v -> mapM f l = Some vs -> mapM f (p :: l) = Some (v :: vs).
Proof. intros H1 H2. simpl. rewrite H1. simpl. rewrite H2. reflexivity. Qed.

Lemma gather_cols_inv py cols acc st' :
  (length acc <= 25)%nat ->
  fold_opt (fun px => gather_pixel a b rect m py px) cols
    (Z.of_nat (length acc), values_of acc) = Some st' ->
  exists vs,
    mapM (sq_diff m a b rect) ((fun px => (px, py)) <$> cols) = Some vs /\
    (length acc + length vs <= 25)%nat /\
    st' = (Z.of_nat (length (acc ++ vs)), values_of (acc ++ vs)).
Proof.
  revert acc. induction cols as [|px cols IH]; intros acc Hlen H.
  - simpl in *. exists []. rewrite app_nil_r.
    split; [reflexivity|]. split; [simpl; lia|congruence].
  - simpl fold_opt in H.
    destruct (gather_pixel a b rect m py px _) as [st1|] eqn:E1; simpl in H; [|discriminate].
    destruct (gather_pixel_inv _ _ _ _ Hlen E1) as (v & Hv & Hlt & ->).
    destruct (IH (acc ++ [v])) with (2 := H) as (vs & Hvs & Hl & ->).
    { rewrite length_app. simpl. lia. }
    exists (v :: vs). rewrite length_app in Hl. simpl in Hl.
    split; [|split; [simpl; lia|rewrite <- app_assoc; reflexivity]].
    rewrite fmap_cons. apply mapM_cons_intro; assumption.
Qed.

Lemma mapM_app_intro {A B : Type} (f : A -> option B) l1 l2 vs1 vs2 :
  mapM f l1 = Some vs1 -> mapM f l2 = Some vs2 ->
  mapM f (l1 ++ l2) = Some (vs1 ++ vs2).
Proof.
  revert vs1. induction l1 as [|p l IHl]; intros vs1 H1 H2; simpl in *.
  - inversion H1. exact H2.
  - destruct (f p); simpl in *; [|discriminate].
    destruct (mapM f l) as [ws|]; simpl in *; [|discriminate].
    inversion H1; subst. rewrite (IHl ws eq_refl H2). reflexivity.
Qed.

Lemma gather_rows_inv rows cols acc st' :
  (length acc <= 25)%nat ->
  fold_opt (fun py => fold_opt (fun px => gather_pixel a b rect m py px) cols) rows
    (Z.of_nat (length acc), values_of acc) = Some st' ->
  exists vs,
    mapM (sq_diff m a b rect) (py ← rows; (fun px => (px, py)) <$> cols) = Some vs /\
    (length acc + length vs <= 25)%nat /\
    st' = (Z.of_nat (length (acc ++ vs)), values_of (acc ++ vs)).
Proof.
  revert acc. induction rows as [|py rows IH]; intros acc Hlen H.
  - simpl in *. exists []. rewrite app_nil_r.
    split; [reflexivity|]. split; [simpl; lia|congruence].
  - simpl fold_opt in H.
    destruct (fold_opt _ cols _) as [st1|] eqn:E1; simpl in H; [|discriminate].
    destruct (gather_cols_inv _ _ _ _ Hlen E1) as (vs1 & Hvs1 & Hl1 & ->).
    destruct (IH (acc ++ vs1)) with (2 := H) as (vs2 & Hvs2 & Hl2 & ->).
    { rewrite length_app. lia. }
    exists (vs1 ++ vs2). rewrite length_app in Hl2 |- *.
    split; [|split; [lia|rewrite <- app_assoc; reflexivity]].
    rewrite bind_cons. apply mapM_app_intro; assumption.
Qed.

(** The two gathering loops, when they return, have gathered the values of
    the whole window, and these are at most 25. *)
Lemma gather_window_inv x y r st' :
  for_range (Int32.max (Int32.sub y r) (i4y rect))
            (Int32.min (Int32.add (Int32.add y r) 1) (i4w rect))
    (fun py =>
       for_range (Int32.max (Int32.sub x r) (i4x rect))
                 (Int32.min (Int32.add (Int32.add x r) 1) (i4z rect))
         (fun px => gather_pixel a b rect m py px))
    (0, replicate 25 None) = Some st' ->
  exists vs,
    window_values m a b rect x y r = Some vs /\ (length vs <= 25)%nat /\
    st' = (Z.of_nat (length vs), values_of vs).
Proof.
  rewrite for_range_fold.
  erewrite fold_opt_ext by (intros; apply for_range_fold).
  intros H.
  destruct (gather_rows_inv _ _ [] st' ltac:(simpl; lia) H) as (vs & Hvs & Hl & ->).
  exists vs. split; [exact Hvs|]. split; [simpl in Hl; lia|reflexivity].
Qed.

End GatherReturns.

(** A windowed call that returns has cleared the variance cell, gathered
    between 1 and 25 values from the memory so obtained, and written the
    element of rank [7*numValues/8] of their sorted list. *)
Lemma combine_halves_windowed_inv x y variance a b rect r (m1 m' : memory) :
  r <> 0 ->
  kernel_filter_combine_halves x y None (Some variance) a b rect r m1 = Some m' ->
  exists vs w,
    is_Some (m1 !! (variance + rect_index rect x y)) /\
    window_values (<[variance + rect_index rect x y := F32.zero]> m1) a b rect x y r
      = Some vs /\
    (1 <= length vs <= 25)%nat /\
    isort vs !! Z.to_nat (7 * Z.of_nat (length vs) / 8) = Some w /\
    m' = <[variance + rect_index rect x y := w]> m1.
Proof.
  intros Hr H.
  assert (Hrun := H).
  unfold kernel_filter_combine_halves in H. cbn [mbind option_bind] in H.
  replace (r =? 0) with false in H by (symmetry; apply Z.eqb_neq; exact Hr).
  destruct (store m1 _ F32.zero) as [m2|] eqn:Es; cbn [mbind option_bind] in H;
    [|discriminate].
  apply store_inv in Es as [Halloc ->].
  destruct (for_range _ _ _ _) as [st|] eqn:Eg; cbn [mbind option_bind] in H;
    [|discriminate].
  destruct (gather_window_inv _ _ _ _ _ _ _ _ Eg) as (vs & Hvs & Hlen & ->).
  assert (Hne : (1 <= length vs)%nat).
  { destruct vs as [|v vs]; [|simpl; lia]. exfalso. revert H.
    vm_compute. discriminate. }
  destruct (combine_halves_windowed x y variance a b rect r m1 vs Hr Halloc Hvs
              ltac:(lia)) as (w & Hw & Hk).
  exists vs, w. repeat split; try assumption; try lia. congruence.
Qed.

(** The call that writes the mean only: one store of [0.5*(a[idx]+b[idx])]. *)
Lemma combine_halves_mean_inv x y mean a b rect r (m m1 : memory) :
  kernel_filter_combine_halves x y mean None a b rect r m = Some m1 ->
  match mean with
  | None => m1 = m
  | Some mn =>
      exists a0 b0,
        m !! (a + rect_index rect x y) = Some a0 /\
        m !! (b + rect_index rect x y) = Some b0 /\
        is_Some (m !! (mn + rect_index rect x y)) /\
        m1 = <[mn + rect_index rect x y := F32.mul F32.half (F32.add a0 b0)]> m
  end.
Proof.
  unfold kernel_filter_combine_halves, load. cbn [mbind option_bind].
  destruct mean as [mn|].
  - destruct (m !! (a + rect_index rect x y)) as [a0|]; cbn [mbind option_bind];
      [|discriminate].
    destruct (m !! (b + rect_index rect x y)) as [b0|]; cbn [mbind option_bind];
      [|discriminate].
    destruct (store m _ _) as [m2|] eqn:Es; cbn [mbind option_bind]; [|discriminate].
    intros [= <-]. apply store_inv in Es as [Ha ->]. exists a0, b0. auto.
  - intros [= <-]. reflexivity.
Qed.

(** The call that writes the variance only: one cell changes, to a value
    the branch taken determines. *)
Lemma combine_halves_variance_inv x y v a b rect r (m1 m' : memory) :
  kernel_filter_combine_halves x y None (Some v) a b rect r m1 = Some m' ->
  exists w,
    is_Some (m1 !! (v + rect_index rect x y)) /\
    m' = <[v + rect_index rect x y := w]> m1 /\
    if r =? 0 then
      exists a1 b1,
        m1 !! (a + rect_index rect x y) = Some a1 /\
        m1 !! (b + rect_index rect x y) = Some b1 /\
        w = F32.mul (F32.mul F32.quarter (F32.sub a1 b1)) (F32.sub a1 b1)
    else
      exists vs,
        window_values (<[v + rect_index rect x y := F32.zero]> m1) a b rect x y r
          = Some vs /\
        (1 <= length vs <= 25)%nat /\
        isort vs !! Z.to_nat (7 * Z.of_nat (length vs) / 8) = Some w.
Proof.
  destruct (Z.eqb_spec r 0) as [->|Hr].
  - unfold kernel_filter_combine_halves, load. cbn [mbind option_bind].
    change (0 =? 0) with true. cbv iota.
    destruct (m1 !! (a + rect_index rect x y)) as [a1|]; cbn [mbind option_bind];
      [|discriminate].
    destruct (m1 !! (b + rect_index rect x y)) as [b1|]; cbn [mbind option_bind];
      [|discriminate].
    intros Es. apply store_inv in Es as [Ha ->].
    eexists. split; [exact Ha|]. split; [reflexivity|]. exists a1, b1. auto.
  - intros H.
    destruct (combine_halves_windowed_inv _ _ _ _ _ _ _ _ _ Hr H)
      as (vs & w & Ha & Hvs & Hlen & Hw & ->).
    exists w. split; [exact Ha|]. split; [reflexivity|]. exists vs. auto.
Qed.

(** X2.  A call of [kernel_filter_combine_halves] that returns has changed no
    cell other than [mean[idx]] and [variance[idx]] (of the outputs that
    are not null), for every radius, and has allocated or freed nothing:
    the window is only read. *)
Theorem combine_halves_frame x y mean variance a b rect r (m m' : memory) :
  kernel_filter_combine_halves x y mean variance a b rect r m = Some m' ->
  let idx := rect_index rect x y in
  (forall p, mean <> Some (p - idx) -> variance <> Some (p - idx) -> m' !! p = m !! p) /\
  (forall p, is_Some (m' !! p) <-> is_Some (m !! p)).
Proof.
  rewrite combine_halves_split. intros H.
  destruct (kernel_filter_combine_halves x y mean None a b rect r m) as [m1|] eqn:E1;
    cbn [mbind option_bind] in H; [|discriminate].
  apply combine_halves_mean_inv in E1.
  assert (Hm1 : (forall p, mean <> Some (p - rect_index rect x y) -> m1 !! p = m !! p) /\
                (forall p, is_Some (m1 !! p) <-> is_Some (m !! p))).
  { destruct mean as [mn|]; [|subst; split; reflexivity].
    destruct E1 as (a0 & b0 & _ & _ & Ha & ->). split.
    - intros p Hp. apply lookup_insert_ne. intros Heq. apply Hp. f_equal. lia.
    - intros p. destruct (decide (p = mn + rect_index rect x y)) as [->|Hne].
      + rewrite lookup_insert_eq. split; eauto.
      + rewrite lookup_insert_ne by congruence. reflexivity. }
  destruct Hm1 as [Hval Hal].
  destruct variance as [v|].
  - apply combine_halves_variance_inv in H as (w & Ha & -> & _). split.
    + intros p Hp Hv. rewrite lookup_insert_ne; [auto|].
      intros Heq. apply Hv. f_equal. lia.
    + intros p. destruct (decide (p = v + rect_index rect x y)) as [->|Hne].
      * rewrite lookup_insert_eq, <- Hal. split; eauto.
      * rewrite lookup_insert_ne by congruence. apply Hal.
  - unfold kernel_filter_combine_halves in H. cbn [mbind option_bind] in H.
    injection H as <-. split; [intros; apply Hval; assumption|exact Hal].
Qed.

Lemma combine_halves_frame_witness :
  exists m',
    kernel_filter_combine_halves 1 0 (Some 300) (Some 200) 0 100 halves_rect 2
      halves_memory = Some m' /\
    m' !! 0 = halves_memory !! 0 /\ m' !! 202 = halves_memory !! 202.
Proof.
  destruct (kernel_filter_combine_halves 1 0 (Some 300) (Some 200) 0 100 halves_rect 2
              halves_memory) as [m'|] eqn:Hrun; [|vm_compute in Hrun; discriminate].
  exists m'. split; [reflexivity|].
  destruct (combine_halves_frame _ _ _ _ _ _ _ _ _ _ Hrun) as (Hframe & _).
  split; apply Hframe; vm_compute; discriminate.
Defined.

(** ** The half combiner: capacity, mean, sign and symmetry *)

(** X3.  A windowed call ([r != 0]) that returns without a store past the
    end of [values] has gathered at most 25 pixels, whatever the radius and
    wherever the pixel lies: every pixel of the clipped window is stored in
    [values], one element each, and the array has 25 elements. *)
Theorem combine_halves_window_capacity x y mean variance a b rect r (m m' : memory) :
  r <> 0 ->
  kernel_filter_combine_halves x y mean (Some variance) a b rect r m = Some m' ->
  (length (window rect x y r) <= 25)%nat.
Proof.
  intros Hr. rewrite combine_halves_split. intros H.
  destruct (kernel_filter_combine_halves x y mean None a b rect r m) as [m1|];
    cbn [mbind option_bind] in H; [|discriminate].
  destruct (combine_halves_windowed_inv _ _ _ _ _ _ _ _ _ Hr H)
    as (vs & w & _ & Hvs & Hlen & _).
  rewrite <- (window_values_length _ _ _ _ _ _ _ _ Hvs). lia.
Qed.

Lemma combine_halves_window_capacity_witness :
  (length (window halves_rect 1 0 2) <= 25)%nat.
Proof.
  destruct (kernel_filter_combine_halves 1 0 (Some 300) (Some 200) 0 100 halves_rect 2
              halves_memory) as [m'|] eqn:Hrun; [|vm_compute in Hrun; discriminate].
  apply (combine_halves_window_capacity 1 0 (Some 300) 200 0 100 halves_rect 2
           halves_memory m' ltac:(lia) Hrun).
Defined.

(** X4.  The mean written by the half combiner is [0.5*(a[idx]+b[idx])] of the
    values the two halves held on entry, for every radius, unless the
    variance is written to the same array. *)
Theorem combine_halves_mean_value x y mean variance a b rect r (m m' : memory) :
  kernel_filter_combine_halves x y (Some mean) variance a b rect r m = Some m' ->
  variance <> Some mean ->
  let idx := rect_index rect x y in
  exists a0 b0,
    m !! (a + idx) = Some a0 /\ m !! (b + idx) = Some b0 /\
    m' !! (mean + idx) = Some (F32.mul F32.half (F32.add a0 b0)).
Proof.
  rewrite combine_halves_split. intros H Hv.
  destruct (kernel_filter_combine_halves x y (Some mean) None a b rect r m) as [m1|] eqn:E1;
    cbn [mbind option_bind] in H; [|discriminate].
  apply combine_halves_mean_inv in E1 as (a0 & b0 & Ha & Hb & _ & ->).
  exists a0, b0. split; [exact Ha|]. split; [exact Hb|].
  destruct variance as [v|].
  - apply combine_halves_variance_inv in H as (w & _ & -> & _).
    rewrite lookup_insert_ne by (intros Heq; apply Hv; f_equal; lia).
    apply lookup_insert_eq.
  - unfold kernel_filter_combine_halves in H. cbn [mbind option_bind] in H.
    injection H as <-. apply lookup_insert_eq.
Qed.

Lemma combine_halves_mean_value_witness :
  exists m',
    kernel_filter_combine_halves 1 0 (Some 300) (Some 200) 0 100 halves_rect 2
      halves_memory = Some m' /\
    m' !! (300 + rect_index halves_rect 1 0) = Some (S754_finite false 10485760 (-22)).
Proof.
  destruct (kernel_filter_combine_halves 1 0 (Some 300) (Some 200) 0 100 halves_rect 2
              halves_memory) as [m'|] eqn:Hrun; [|vm_compute in Hrun; discriminate].
  exists m'. split; [reflexivity|].
  destruct (combine_halves_mean_value _ _ _ _ _ _ _ _ _ _ Hrun ltac:(discriminate))
    as (a0 & b0 & Ha & Hb & Hm).
  vm_compute in Ha, Hb. injection Ha as <-. injection Hb as <-. exact Hm.
Defined.

(** A squared difference [q*d*d] with [q > 0] is a NaN or is [>= 0]. *)
Lemma scaled_square_sign q d :
  pos_finite q ->
  let v := F32.mul (F32.mul q d) d in
  F32.is_nan v = true \/ nonneg v = true.
Proof.
  intros Hq v. destruct (F32.is_nan d) eqn:Ed.
  - left. destruct d; try discriminate.
    destruct Hq as (mq & eq & ->). reflexivity.
  - right. rewrite nonneg_is_nn. apply scaled_square_nn; assumption.
Qed.

Lemma pos_finite_quarter : pos_finite F32.quarter.
Proof. eexists _, _. reflexivity. Qed.

Lemma window_values_sign m a b rect x y r vs w :
  window_values m a b rect x y r = Some vs -> w ∈ vs ->
  F32.is_nan w = true \/ nonneg w = true.
Proof.
  unfold window_values. intros H Hw. apply mapM_Some in H.
  apply list_elem_of_lookup in Hw as [i Hi].
  destruct (Forall2_lookup_r _ _ _ _ _ H Hi) as (p & _ & Hp).
  unfold sq_diff in Hp. cbv zeta in Hp.
  destruct (m !! (a + _)) as [a1|]; cbn [mbind option_bind] in Hp; [|discriminate].
  destruct (m !! (b + _)) as [b1|]; cbn [mbind option_bind] in Hp; [|discriminate].
  injection Hp as <-. apply scaled_square_sign, pos_finite_quarter.
Qed.

(** X5.  The variance written by the half combiner is never negative, for every
    radius and whatever the two halves hold: it is a NaN or it is [>= 0].
    In windowed mode it is one of the squared half differences of the
    window. *)
Theorem combine_halves_variance_sign x y mean variance a b rect r (m m' : memory) :
  kernel_filter_combine_halves x y mean (Some variance) a b rect r m = Some m' ->
  exists w,
    m' !! (variance + rect_index rect x y) = Some w /\
    (F32.is_nan w = true \/ nonneg w = true).
Proof.
  rewrite combine_halves_split. intros H.
  destruct (kernel_filter_combine_halves x y mean None a b rect r m) as [m1|];
    cbn [mbind option_bind] in H; [|discriminate].
  apply combine_halves_variance_inv in H as (w & _ & -> & Hw).
  exists w. split; [apply lookup_insert_eq|].
  destruct (r =? 0).
  - destruct Hw as (a1 & b1 & _ & _ & ->). apply scaled_square_sign, pos_finite_quarter.
  - destruct Hw as (vs & Hvs & _ & Hw).
    apply (window_values_sign _ _ _ _ _ _ _ _ _ Hvs).
    rewrite <- (isort_perm vs). eapply list_elem_of_lookup_2. exact Hw.
Qed.

Lemma combine_halves_variance_sign_witness :
  exists m' w,
    kernel_filter_combine_halves 1 0 (Some 300) (Some 200) 0 100 halves_rect 2
      halves_memory = Some m' /\
    m' !! (200 + rect_index halves_rect 1 0) = Some w /\
    (F32.is_nan w = true \/ nonneg w = true).
Proof.
  destruct (kernel_filter_combine_halves 1 0 (Some 300) (Some 200) 0 100 halves_rect 2
              halves_memory) as [m'|] eqn:Hrun; [|vm_compute in Hrun; discriminate].
  destruct (combine_halves_variance_sign _ _ _ _ _ _ _ _ _ _ Hrun) as (w & Hw & Hs).
  exists m', w. auto.
Defined.

(** One gathering step does not depend on the order of the two halves. *)
Lemma gather_pixel_swap a b rect (m : memory) py px st :
  gather_pixel a b rect m py px st = gather_pixel b a rect m py px st.
Proof.
  unfold gather_pixel, load. destruct st as [numValues values]. cbv zeta.
  destruct (m !! (a + rect_index rect px py)) as [a1|],
           (m !! (b + rect_index rect px py)) as [b1|]; cbn [mbind option_bind];
    try reflexivity.
  rewrite sq_diff_swap. reflexivity.
Qed.

Lemma for_range_ext {S : Type} (f g : Z -> S -> option S) lo hi (s : S) :
  (forall i s, f i s = g i s) -> for_range lo hi f s = for_range lo hi g s.
Proof. intros H. rewrite !for_range_fold. apply fold_opt_ext, H. Qed.

(** X6.  The half combiner is symmetric in its two half buffers for every
    radius, in windowed mode as well: called with [a] and [b] exchanged it
    leaves the same memory or faults alike. *)
Theorem combine_halves_swap_windowed x y mean variance a b rect r (m : memory) :
  kernel_filter_combine_halves x y mean variance a b rect r m
  = kernel_filter_combine_halves x y mean variance b a rect r m.
Proof.
  rewrite (combine_halves_split x y mean variance a b),
          (combine_halves_split x y mean variance b a).
  assert (Hmean : kernel_filter_combine_halves x y mean None a b rect r m
                  = kernel_filter_combine_halves x y mean None b a rect r m).
  { unfold kernel_filter_combine_halves, load. cbv zeta.
    destruct mean as [mean|]; [|reflexivity].
    destruct (m !! (a + rect_index rect x y)) as [a0|],
             (m !! (b + rect_index rect x y)) as [b0|]; cbn [mbind option_bind];
      try reflexivity.
    rewrite add_comm. reflexivity. }
  rewrite Hmean.
  destruct (kernel_filter_combine_halves x y mean None b a rect r m) as [m1|];
    [|reflexivity].
  cbn [mbind option_bind].
  unfold kernel_filter_combine_halves, load. cbn [mbind option_bind].
  destruct variance as [variance|]; [|reflexivity].
  destruct (r =? 0).
  - destruct (m1 !! (a + rect_index rect x y)) as [a1|],
             (m1 !! (b + rect_index rect x y)) as [b1|]; cbn [mbind option_bind];
      try reflexivity.
    rewrite sq_diff_swap. reflexivity.
  - destruct (store m1 _ _) as [m2|]; [|reflexivity]. cbn [mbind option_bind].
    f_equal. apply for_range_ext. intros py st.
    apply for_range_ext. intros px st'. apply gather_pixel_swap.
Qed.

(** ** Sign of the variance written by the feature loader *)

Lemma max_zero_nn x : F32.is_nan x = false -> is_nn (F32.max F32.zero x) = true.
Proof. destruct x as [[]|[]| |[] m e]; try discriminate; reflexivity. Qed.

Lemma div_pos_not_nan x y :
  F32.is_nan x = false -> pos_finite y -> F32.is_nan (F32.div x y) = false.
Proof.
  intros Hx (my & ey & ->).
  destruct x as [sx|sx| |sx mx ex]; try discriminate; try reflexivity.
  destruct (div_finite_result sx mx ex false my ey) as (m & e & -> & _).
  apply round_result_not_nan.
Qed.

Lemma sub_finite_nn_not_nan x p :
  F32.is_finite x = true -> is_nn p = true -> F32.is_nan (F32.sub x p) = false.
Proof.
  destruct x as [[]|[]| |sx mx ex], p as [[]|[]| |[] mp ep]; try discriminate;
    try reflexivity; intros _ _.
  unfold F32.sub, SFsub.
  destruct (binary_normalize_cases
              (cond_Zopp sx (Z.pos (shl_align mx ex (Z.min ex ep)).1)
               - cond_Zopp false (Z.pos (shl_align mp ep (Z.min ex ep)).1))
              (Z.min ex ep)) as (m & e' & Hm & ->).
  apply round_result_not_nan.
Qed.

Lemma of_int_pos_finite n : 1 <= n <= Int32.int_max -> pos_finite (F32.of_int n).
Proof. intros H. destruct (of_int_positive n H) as (m & e & ->). eexists _, _. reflexivity. Qed.

(** The variance formula of the split path, on operands that are not
    NaN. *)
Lemma split_variance_nonneg rm rv sample count :
  F32.is_nan rm = false -> F32.is_finite rv = true ->
  1 <= sample <= Int32.int_max -> 1 <= count <= Int32.int_max ->
  let mu := F32.div rm (F32.of_int sample) in
  nonneg (F32.max F32.zero
            (F32.div (F32.sub rv (F32.mul (F32.mul mu mu) (F32.of_int sample)))
                     (F32.of_int count))) = true.
Proof.
  intros Hrm Hrv Hs Hc mu. rewrite nonneg_is_nn. apply max_zero_nn.
  apply div_pos_not_nan; [|apply of_int_pos_finite; exact Hc].
  apply sub_finite_nn_not_nan; [exact Hrv|].
  apply mul_nn_pos; [|apply of_int_pos_finite; exact Hs].
  apply mul_self_nn. subst mu.
  apply div_pos_not_nan; [exact Hrm|apply of_int_pos_finite; exact Hs].
Qed.

(** X7.  With the split flag and at least two samples the variance written by
    [kernel_filter_get_feature] is [>= 0], whatever finite second moment
    the record holds and whatever first moment that is not a NaN: the
    difference that cancellation makes negative is floored at zero, and no
    NaN arises.  The product [sample*(sample-1)] is an [int]; the two
    output cells are allocated and distinct, and the second moment is not
    read from the mean cell. *)
Theorem get_feature_split_variance_nonneg
    sample tiles m_offset v_offset x y mean variance rect
    buffer_pass_stride buffer_denoising_offset (m : memory) base rm rv :
  let idx := rect_index rect x y in
  let record := base + buffer_denoising_offset in
  pixel_base tiles x y buffer_pass_stride = Some base ->
  m !! (record + m_offset) = Some rm ->
  m !! (record + v_offset) = Some rv ->
  is_Some (m !! (mean + idx)) -> is_Some (m !! (variance + idx)) ->
  mean + idx <> variance + idx ->
  record + v_offset <> mean + idx ->
  2 <= sample -> sample * (sample - 1) <= Int32.int_max ->
  F32.is_nan rm = false -> F32.is_finite rv = true ->
  exists m' w,
    kernel_filter_get_feature sample tiles m_offset v_offset x y mean variance rect
      buffer_pass_stride buffer_denoising_offset true m = Some m' /\
    m' !! (variance + idx) = Some w /\ nonneg w = true.
Proof.
  intros idx record Hbase Hrm Hrv Hmean Hvar Hdist Hro Hs Hprod Hnan Hfin.
  pose proof (get_feature_exec sample tiles m_offset v_offset x y mean variance rect
                buffer_pass_stride buffer_denoising_offset true m base rm rv
                Hbase Hrm Hrv Hmean Hvar Hdist Hro) as Hexec.
  cbv iota in Hexec.
  assert (Hle : sample <= Int32.int_max) by (unfold Int32.int_max in *; nia).
  assert (Hmul : Int32.mul sample (Int32.sub sample 1) = sample * (sample - 1)).
  { unfold Int32.mul, Int32.sub.
    rewrite (wrap_id (sample - 1))
      by (unfold Int32.in_range, Int32.int_min, Int32.int_max in *; lia).
    apply wrap_id. unfold Int32.in_range, Int32.int_min, Int32.int_max in *. nia. }
  rewrite Hmul in Hexec.
  eexists _, _. split; [exact Hexec|]. split; [apply lookup_insert_eq|].
  apply split_variance_nonneg; try assumption; [lia|nia].
Qed.

Lemma get_feature_split_variance_nonneg_witness :
  exists m' w,
    kernel_filter_get_feature 2 scene_tiles 0 1 5 6 0 16 scene_rect 20 14 true
      (cells 1194 (F32.of_int <$> [10; 5]) ∪ cells 0 (replicate 32 F32.zero))
    = Some m' /\
    m' !! (16 + rect_index scene_rect 5 6) = Some w /\ nonneg w = true.
Proof.
  apply (get_feature_split_variance_nonneg 2 scene_tiles 0 1 5 6 0 16 scene_rect 20 14
           (cells 1194 (F32.of_int <$> [10; 5]) ∪ cells 0 (replicate 32 F32.zero))
           1180 (F32.of_int 10) (F32.of_int 5));
    try reflexivity; try by_compute; try lia;
    try (vm_compute; discriminate).
Defined.

(** ** The buffer variance of the shadow divider *)

(** The difference of a number with itself: [+0] for a finite number, a
    NaN for an infinity or a NaN. *)
Lemma sub_self u :
  F32.sub u u = if F32.is_finite u then S754_zero false else S754_nan.
Proof.
  destruct u as [[]|[]| |s m e]; try reflexivity.
  unfold F32.sub, SFsub. rewrite Z.sub_diag. reflexivity.
Qed.

(** X8.  The [bufferVariance] written by [kernel_filter_divide_shadow] is never
    negative, for every sample count and every record: it is a NaN or it
    is [>= 0].  The output cells are allocated, pairwise distinct and none
    of them is a cell of the record. *)
Theorem divide_shadow_buffer_variance_sign
    sample tiles x y unfilteredA unfilteredB sampleVariance sampleVarianceV bufferVariance
    rect buffer_pass_stride buffer_denoising_offset use_split_variance (m : memory)
    base r0 r1 r2 r3 r4 r5 :
  let idx := rect_index rect x y in
  let outputs :=
    shadow_outputs unfilteredA unfilteredB sampleVariance sampleVarianceV
      bufferVariance idx in
  let record := base + Int32.add buffer_denoising_offset 14 in
  pixel_base tiles x y buffer_pass_stride = Some base ->
  m !! (record + 0) = Some r0 -> m !! (record + 1) = Some r1 ->
  m !! (record + 2) = Some r2 -> m !! (record + 3) = Some r3 ->
  m !! (record + 4) = Some r4 -> m !! (record + 5) = Some r5 ->
  NoDup outputs ->
  Forall (fun p => is_Some (m !! p)) outputs ->
  Forall (fun p => p ∉ outputs) (shadow_record record) ->
  exists m' w,
    kernel_filter_divide_shadow sample tiles x y
      unfilteredA unfilteredB sampleVariance sampleVarianceV bufferVariance
      rect buffer_pass_stride buffer_denoising_offset use_split_variance m = Some m' /\
    m' !! (bufferVariance + idx) = Some w /\
    (F32.is_nan w = true \/ nonneg w = true).
Proof.
  intros idx outputs record Hbase Hr0 Hr1 Hr2 Hr3 Hr4 Hr5 Hdistinct Hallocated Hreadonly.
  pose proof (divide_shadow_exec sample tiles x y unfilteredA unfilteredB sampleVariance
                sampleVarianceV bufferVariance rect buffer_pass_stride
                buffer_denoising_offset use_split_variance m base r0 r1 r2 r3 r4 r5
                Hbase Hr0 Hr1 Hr2 Hr3 Hr4 Hr5 Hdistinct Hallocated Hreadonly) as Hexec.
  eexists _, _. split; [exact Hexec|]. split; [apply lookup_insert_eq|].
  apply scaled_square_sign, pos_finite_half.
Qed.

Lemma divide_shadow_buffer_variance_sign_witness :
  exists m' w,
    kernel_filter_divide_shadow 4 scene_tiles 5 6 0 16 32 48 64 scene_rect 20 0 true
      scene_memory = Some m' /\
    m' !! (64 + rect_index scene_rect 5 6) = Some w /\
    (F32.is_nan w = true \/ nonneg w = true).
Proof.
  apply (divide_shadow_buffer_variance_sign 4 scene_tiles 5 6 0 16 32 48 64 scene_rect
           20 0 true scene_memory 1180
           (F32.of_int 2) (F32.of_int 4) (F32.of_int 9)
           (F32.of_int 2) (F32.of_int 4) (F32.of_int 9));
    try reflexivity; by_compute.
Defined.

(** X9.  For a record whose two halves have the same weight sum and the same
    ratio numerator, [kernel_filter_divide_shadow] writes the same ratio
    [u] to [unfilteredA] and [unfilteredB], and the [bufferVariance] it
    writes is [+0] when [u] is finite; when the ratio overflows to an
    infinity or is a NaN, the [bufferVariance] is a NaN. *)
Theorem divide_shadow_equal_halves
    sample tiles x y unfilteredA unfilteredB sampleVariance sampleVarianceV bufferVariance
    rect buffer_pass_stride buffer_denoising_offset use_split_variance (m : memory)
    base r0 r1 r2 r5 :
  let idx := rect_index rect x y in
  let outputs :=
    shadow_outputs unfilteredA unfilteredB sampleVariance sampleVarianceV
      bufferVariance idx in
  let record := base + Int32.add buffer_denoising_offset 14 in
  pixel_base tiles x y buffer_pass_stride = Some base ->
  m !! (record + 0) = Some r0 -> m !! (record + 1) = Some r1 ->
  m !! (record + 2) = Some r2 -> m !! (record + 3) = Some r0 ->
  m !! (record + 4) = Some r1 -> m !! (record + 5) = Some r5 ->
  NoDup outputs ->
  Forall (fun p => is_Some (m !! p)) outputs ->
  Forall (fun p => p ∉ outputs) (shadow_record record) ->
  let u := F32.div r1 (F32.max r0 F32.eps) in
  exists m',
    kernel_filter_divide_shadow sample tiles x y
      unfilteredA unfilteredB sampleVariance sampleVarianceV bufferVariance
      rect buffer_pass_stride buffer_denoising_offset use_split_variance m = Some m' /\
    m' !! (unfilteredA + idx) = Some u /\
    m' !! (unfilteredB + idx) = Some u /\
    m' !! (bufferVariance + idx)
      = Some (if F32.is_finite u then S754_zero false else S754_nan).
Proof.
  intros idx outputs record Hbase Hr0 Hr1 Hr2 Hr3 Hr4 Hr5 Hdistinct Hallocated Hreadonly u.
  pose proof (divide_shadow_exec sample tiles x y unfilteredA unfilteredB sampleVariance
                sampleVarianceV bufferVariance rect buffer_pass_stride
                buffer_denoising_offset use_split_variance m base r0 r1 r2 r0 r1 r5
                Hbase Hr0 Hr1 Hr2 Hr3 Hr4 Hr5 Hdistinct Hallocated Hreadonly) as Hexec.
  subst outputs. unfold shadow_outputs in Hdistinct.
  rewrite !NoDup_cons, !not_elem_of_cons in Hdistinct. destruct_and!. subst idx.
  eexists. split; [exact Hexec|].
  split; [mem_lookup; reflexivity|]. split; [mem_lookup; reflexivity|].
  mem_lookup. fold u. rewrite sub_self.
  destruct (F32.is_finite u); reflexivity.
Qed.

Lemma divide_shadow_equal_halves_witness :
  exists m',
    kernel_filter_divide_shadow 4 scene_tiles 5 6 0 16 32 48 64 scene_rect 20 0 true
      scene_memory = Some m' /\
    m' !! (0 + rect_index scene_rect 5 6) = Some (F32.of_int 2) /\
    m' !! (16 + rect_index scene_rect 5 6) = Some (F32.of_int 2) /\
    m' !! (64 + rect_index scene_rect 5 6) = Some (S754_zero false).
Proof.
  apply (divide_shadow_equal_halves 4 scene_tiles 5 6 0 16 32 48 64 scene_rect
           20 0 true scene_memory 1180
           (F32.of_int 2) (F32.of_int 4) (F32.of_int 9) (F32.of_int 9));
    try reflexivity; by_compute.
Defined.

(** ** The rectangle-space index *)

(** X10.  Inside the prefilter rectangle the index [idx] the kernels compute is
    the row-major index for the row length [align_up(rect.z - rect.x, 4)],
    which is the width rounded up to a multiple of four: [idx] lies within
    an array of that row length times the height, and two pixels of the
    rectangle never share a cell.  The padded area is an [int]. *)
Theorem rect_index_injective rect x y x' y' :
  let w := i4z rect - i4x rect in
  let h := i4w rect - i4y rect in
  0 <= w <= Int32.int_max - 4 -> h * (w + 3) <= Int32.int_max ->
  i4x rect <= x < i4z rect -> i4y rect <= y < i4w rect ->
  i4x rect <= x' < i4z rect -> i4y rect <= y' < i4w rect ->
  buffer_w rect = 4 * ((w + 3) / 4) /\
  w <= buffer_w rect <= w + 3 /\
  rect_index rect x y = (y - i4y rect) * buffer_w rect + (x - i4x rect) /\
  0 <= rect_index rect x y < buffer_w rect * h /\
  (rect_index rect x y = rect_index rect x' y' -> x = x' /\ y = y').
Proof.
  intros w h Hw Harea Hx Hy Hx' Hy'.
  assert (HW : buffer_w rect = 4 * ((w + 3) / 4)).
  { unfold buffer_w, Int32.sub. fold w.
    rewrite (wrap_id w)
      by (unfold Int32.in_range, Int32.int_min, Int32.int_max in *; lia).
    apply align_up_4. exact Hw. }
  assert (Hpad : w <= buffer_w rect <= w + 3).
  { rewrite HW. pose proof (Z.div_mod (w + 3) 4). pose proof (Z.mod_pos_bound (w + 3) 4).
    lia. }
  assert (Hidx : forall u v, i4x rect <= u < i4z rect -> i4y rect <= v < i4w rect ->
            rect_index rect u v = (v - i4y rect) * buffer_w rect + (u - i4x rect) /\
            0 <= rect_index rect u v < buffer_w rect * h).
  { intros u v Hu Hv. unfold rect_index, Int32.add, Int32.mul, Int32.sub.
    set (W := buffer_w rect) in *.
    assert (P0 : 0 <= (v - i4y rect) * W) by (apply Z.mul_nonneg_nonneg; lia).
    assert (P1 : (v - i4y rect) * W <= (h - 1) * W)
      by (apply Z.mul_le_mono_nonneg_r; lia).
    assert (P2 : h * W <= h * (w + 3)) by (apply Z.mul_le_mono_nonneg_l; lia).
    assert (P3 : h * 1 <= h * (w + 3)) by (apply Z.mul_le_mono_nonneg_l; lia).
    rewrite (wrap_id (v - i4y rect))
      by (unfold Int32.in_range, Int32.int_min, Int32.int_max in *; lia).
    rewrite (wrap_id (u - i4x rect))
      by (unfold Int32.in_range, Int32.int_min, Int32.int_max in *; lia).
    rewrite (wrap_id ((v - i4y rect) * W))
      by (unfold Int32.in_range, Int32.int_min, Int32.int_max in *; lia).
    rewrite wrap_id
      by (unfold Int32.in_range, Int32.int_min, Int32.int_max in *; lia).
    lia. }
  destruct (Hidx x y Hx Hy) as [E1 B1]. destruct (Hidx x' y' Hx' Hy') as [E2 B2].
  split; [exact HW|]. split; [exact Hpad|]. split; [exact E1|]. split; [exact B1|].
  intros Heq. rewrite E1, E2 in Heq.
  set (W := buffer_w rect) in *.
  assert (Hy2 : y = y').
  { destruct (Z.lt_trichotomy y y') as [Hlt|[Heq'|Hgt]]; [|exact Heq'|].
    - assert ((y - i4y rect + 1) * W <= (y' - i4y rect) * W)
        by (apply Z.mul_le_mono_nonneg_r; lia). lia.
    - assert ((y' - i4y rect + 1) * W <= (y - i4y rect) * W)
        by (apply Z.mul_le_mono_nonneg_r; lia). lia. }
  subst y'. split; [lia|reflexivity].
Qed.

Lemma rect_index_injective_witness :
  buffer_w (mk_int4 4 4 9 8) = 8 /\ rect_index (mk_int4 4 4 9 8) 8 6 = 20.
Proof.
  destruct (rect_index_injective (mk_int4 4 4 9 8) 8 6 4 7)
    as (HW & _ & Hidx & _); simpl; try (unfold Int32.int_max; lia).
  split; [exact HW|]. rewrite Hidx, HW. reflexivity.
Defined.

(** ** The ratio estimates of the shadow divider *)

(** X20.  The floor [max(w, 1e-7f)] of the weight sum makes both ratio
    denominators positive, whatever the weight sum is (zero, negative or a
    NaN): for finite numerators the [unfilteredA] and [unfilteredB]
    written by [kernel_filter_divide_shadow] are never a NaN. *)
Theorem divide_shadow_ratios_not_nan
    sample tiles x y unfilteredA unfilteredB sampleVariance sampleVarianceV bufferVariance
    rect buffer_pass_stride buffer_denoising_offset use_split_variance (m : memory)
    base r0 r1 r2 r3 r4 r5 :
  let idx := rect_index rect x y in
  let outputs :=
    shadow_outputs unfilteredA unfilteredB sampleVariance sampleVarianceV
      bufferVariance idx in
  let record := base + Int32.add buffer_denoising_offset 14 in
  pixel_base tiles x y buffer_pass_stride = Some base ->
  m !! (record + 0) = Some r0 -> m !! (record + 1) = Some r1 ->
  m !! (record + 2) = Some r2 -> m !! (record + 3) = Some r3 ->
  m !! (record + 4) = Some r4 -> m !! (record + 5) = Some r5 ->
  NoDup outputs ->
  Forall (fun p => is_Some (m !! p)) outputs ->
  Forall (fun p => p ∉ outputs) (shadow_record record) ->
  F32.is_finite r1 = true -> F32.is_finite r4 = true ->
  exists m' uA uB,
    kernel_filter_divide_shadow sample tiles x y
      unfilteredA unfilteredB sampleVariance sampleVarianceV bufferVariance
      rect buffer_pass_stride buffer_denoising_offset use_split_variance m = Some m' /\
    m' !! (unfilteredA + idx) = Some uA /\ m' !! (unfilteredB + idx) = Some uB /\
    F32.is_nan uA = false /\ F32.is_nan uB = false.
Proof.
  intros idx outputs record Hbase Hr0 Hr1 Hr2 Hr3 Hr4 Hr5 Hdistinct Hallocated Hreadonly
    Hf1 Hf4.
  pose proof (divide_shadow_exec sample tiles x y unfilteredA unfilteredB sampleVariance
                sampleVarianceV bufferVariance rect buffer_pass_stride
                buffer_denoising_offset use_split_variance m base r0 r1 r2 r3 r4 r5
                Hbase Hr0 Hr1 Hr2 Hr3 Hr4 Hr5 Hdistinct Hallocated Hreadonly) as Hexec.
  subst outputs. unfold shadow_outputs in Hdistinct.
  rewrite !NoDup_cons, !not_elem_of_cons in Hdistinct. destruct_and!. subst idx.
  eexists _, _, _. split; [exact Hexec|].
  split; [mem_lookup; reflexivity|]. split; [mem_lookup; reflexivity|].
  split; apply div_finite_not_nan; try assumption; apply max_eps_pos.
Qed.

Lemma divide_shadow_ratios_not_nan_witness :
  exists m' uA uB,
    kernel_filter_divide_shadow 4 scene_tiles 5 6 0 16 32 48 64 scene_rect 20 0 true
      (cells 1194 (F32.of_int <$> [0; 4; 9; -3; 4; 9]) ∪ cells 0 (replicate 80 F32.zero))
    = Some m' /\
    m' !! (0 + rect_index scene_rect 5 6) = Some uA /\
    m' !! (16 + rect_index scene_rect 5 6) = Some uB /\
    F32.is_nan uA = false /\ F32.is_nan uB = false.
Proof.
  apply (divide_shadow_ratios_not_nan 4 scene_tiles 5 6 0 16 32 48 64 scene_rect
           20 0 true
           (cells 1194 (F32.of_int <$> [0; 4; 9; -3; 4; 9]) ∪ cells 0 (replicate 80 F32.zero))
           1180
           (F32.of_int 0) (F32.of_int 4) (F32.of_int 9)
           (F32.of_int (-3)) (F32.of_int 4) (F32.of_int 9));
    try reflexivity; by_compute.
Defined.

(** ** The insertion sort on its own *)

(** X21.  The insertion sort of [kernel_filter_combine_halves] on an array whose
    first [numValues] cells are written stays inside these cells and
    returns; it leaves them a permutation of what they held, whatever the
    values, NaNs included, and in ascending order when none is a NaN; the
    cells after them keep what they held. *)
Theorem insertion_sort_permutes (l : list spec_float) (rest : list (option spec_float)) :
  Z.of_nat (length l) < Int32.int_max ->
  exists sorted,
    insertion_sort (Z.of_nat (length l)) ((Some <$> l) ++ rest)
      = Some ((Some <$> sorted) ++ rest) /\
    Permutation sorted l /\
    (Forall (fun v => F32.is_nan v = false) l -> StronglySorted fle sorted).
Proof.
  intros Hlen. exists (isort l).
  split; [apply insertion_sort_isort; exact Hlen|].
  split; [apply isort_perm|apply isort_sorted].
Qed.

Lemma insertion_sort_permutes_witness :
  exists sorted,
    insertion_sort 4
      ((Some <$> [F32.of_int 3; S754_nan; F32.of_int 1; F32.of_int 2]) ++ [None; None])
    = Some ((Some <$> sorted) ++ [None; None]) /\
    Permutation sorted [F32.of_int 3; S754_nan; F32.of_int 1; F32.of_int 2].
Proof.
  destruct (insertion_sort_permutes
              [F32.of_int 3; S754_nan; F32.of_int 1; F32.of_int 2] [None; None])
    as (sorted & Hrun & Hperm & _); [simpl; unfold Int32.int_max; lia|].
  exists sorted. split; [exact Hrun|exact Hperm].
Defined.

(** * The custom-data writer against the reader *)

(** ** The property store *)

Section Store.

Import PTC PTCWriter.

Lemma get_property_app children name e name' :
  get_property (children ++ [(name, e)]) name'
  = match get_property children name' with
    | Some q => Some q
    | None => if decide (name = name') then Some e else None
    end.
Proof.
  induction children as [|[n q] rest IH]; simpl.
  - reflexivity.
  - destruct (decide (n = name')); [reflexivity|exact IH].
Qed.

Lemma get_set_property_eq children name p :
  is_Some (get_property children name) ->
  get_property (set_property name p children) name = Some p.
Proof.
  induction children as [|[n q] rest IH]; simpl; intros H.
  - destruct H as [? H]. discriminate.
  - destruct (decide (n = name)) as [->|Hne]; simpl.
    + rewrite decide_True by reflexivity. reflexivity.
    + rewrite decide_False by assumption. auto.
Qed.

Lemma get_set_property_ne children name p name' :
  name' <> name ->
  get_property (set_property name p children) name' = get_property children name'.
Proof.
  intros Hne. induction children as [|[n q] rest IH]; simpl.
  - reflexivity.
  - destruct (decide (n = name)) as [->|Hn]; simpl.
    + rewrite !decide_False by congruence. reflexivity.
    + destruct (decide (n = name')); [reflexivity|exact IH].
Qed.

(** Creating or opening a child leaves a child of that name and kind, and
    every other name as it was. *)
Lemma add_property_spec name e parent parent' :
  add_property name e parent = Some parent' ->
  (exists q, get_property parent' name = Some q /\ kind q = kind e) /\
  (forall name', name' <> name -> get_property parent' name' = get_property parent name').
Proof.
  unfold add_property. destruct (get_property parent name) as [q|] eqn:E.
  - destruct (decide (kind q = kind e)) as [Hk|]; [|discriminate].
    intros [= <-]. split; [eauto|reflexivity].
  - intros [= <-]. split.
    + exists e. rewrite get_property_app, E, decide_True by reflexivity. auto.
    + intros name' Hne. rewrite get_property_app.
      destruct (get_property parent name'); [reflexivity|].
      rewrite decide_False by congruence. reflexivity.
Qed.

Lemma in_compound_spec name parent body parent' :
  in_compound name parent body = Some parent' ->
  exists children children',
    get_property parent name = Some (PCompound children) /\
    body children = Some children' /\
    parent' = set_property name (PCompound children') parent /\
    get_property parent' name = Some (PCompound children').
Proof.
  unfold in_compound. destruct (get_property parent name) as [[| | | |children]|] eqn:E;
    try discriminate.
  destruct (body children) as [children'|] eqn:Eb; simpl; [|discriminate].
  intros [= <-]. exists children, children'. split; [reflexivity|]. split; [exact Eb|].
  split; [reflexivity|]. apply get_set_property_eq. rewrite E. eauto.
Qed.

(** A child created under a name that was free is the last child. *)
Lemma add_property_fresh name e parent :
  get_property parent name = None ->
  add_property name e parent = Some (parent ++ [(name, e)]).
Proof. unfold add_property. intros ->. reflexivity. Qed.

Lemma set_property_fresh name p e parent :
  get_property parent name = None ->
  set_property name p (parent ++ [(name, e)]) = parent ++ [(name, p)].
Proof.
  induction parent as [|[n q] rest IH]; simpl; intros H.
  - rewrite decide_True by reflexivity. reflexivity.
  - destruct (decide (n = name)); [discriminate|]. rewrite IH by assumption. reflexivity.
Qed.

Lemma get_property_fresh_last name p parent :
  get_property parent name = None ->
  get_property (parent ++ [(name, p)]) name = Some p.
Proof. intros H. rewrite get_property_app, H, decide_True by reflexivity. reflexivity. Qed.

End Store.

(** ** Strings *)

Lemma append_inj_l (s a b : string) : s +:+ a = s +:+ b -> a = b.
Proof. induction s as [|c s IH]; simpl; [auto|]. intros [= H]. auto. Qed.

(** ** Colours *)

Section RoundTrips.

Import PTC PTCWriter.

(** An [unsigned char] converted to [float] and back is unchanged. *)
Lemma uchar_of_float_of_int r :
  0 <= r <= 255 -> uchar_of_float (F32.of_int r) = r.
Proof.
  intros H.
  assert (Hall : Forall (fun r => uchar_of_float (F32.of_int r) = r) (seqZ 0 256))
    by by_compute.
  rewrite Forall_forall in Hall. apply Hall. apply elem_of_seqZ. lia.
Qed.

Lemma write_cols_length n mcol mcol_data :
  write_cols n mcol = Some mcol_data -> (n <= length mcol)%nat.
Proof.
  revert mcol mcol_data. induction n as [|n IH]; intros [|c rest] l; simpl;
    try discriminate; try lia.
  destruct (write_cols n rest) as [l'|] eqn:E; simpl; [|discriminate].
  intros _. apply IH in E. lia.
Qed.

Lemma write_cols_all mcol :
  write_cols (length mcol) mcol
  = Some ((fun c => mk_C4f (F32.of_int (mcol_r c)) (F32.of_int (mcol_g c))
                           (F32.of_int (mcol_b c)) (F32.of_int (mcol_a c))) <$> mcol).
Proof. induction mcol as [|c rest IH]; simpl; [reflexivity|]. rewrite IH. reflexivity. Qed.

Lemma size_differs_length {A : Type} (sample : list A) num_data :
  Z.of_nat (length sample) = num_data -> num_data <= Int32.int_max ->
  size_differs sample num_data = false.
Proof.
  intros H Hmax. unfold size_differs.
  rewrite Z.mod_small by (unfold Int32.int_max in Hmax; lia).
  apply negb_false_iff, Z.eqb_eq, H.
Qed.

(** What [write_sample<CD_MCOL>] leaves under the layer's name, and what
    [read_sample<CD_MCOL>] makes of it in any store that holds it. *)
Lemma write_MCOL_stored parent name data num_data parent' :
  write_sample_MCOL parent name data num_data = Some parent' ->
  Z.of_nat (length data) = num_data -> num_data <= Int32.int_max ->
  Forall (fun c => 0 <= mcol_r c <= 255 /\ 0 <= mcol_g c <= 255 /\
                   0 <= mcol_b c <= 255 /\ 0 <= mcol_a c <= 255) data ->
  exists p,
    get_property parent' name = Some p /\
    (get_property parent name = None -> parent' = parent ++ [(name, p)]) /\
    forall q, get_property q name = Some p ->
      read_sample_MCOL q name num_data = Some (PTC_READ_SAMPLE_EXACT, Cols data).
Proof.
  unfold write_sample_MCOL. intros H Hlen Hmax Hchan.
  destruct (PTCWriter.add_c4f_array name parent) as [p1|] eqn:Eadd;
    cbn [mbind option_bind] in H; [|discriminate].
  destruct (reserve num_data); cbn [mbind option_bind] in H; [|discriminate].
  replace (Z.to_nat num_data) with (length data) in H by lia.
  rewrite write_cols_all in H. cbn [mbind option_bind] in H. injection H as <-.
  eexists. split; [|split].
  - apply add_property_spec in Eadd as [(q & Hq & _) _].
    apply get_set_property_eq. rewrite Hq. eauto.
  - intros Hfresh. unfold PTCWriter.add_c4f_array in Eadd.
    rewrite add_property_fresh in Eadd by assumption. injection Eadd as <-.
    apply set_property_fresh. exact Hfresh.
  - intros q Hq. unfold read_sample_MCOL, PTC.add_c4f_array. rewrite Hq.
    cbn [mbind option_bind].
    rewrite size_differs_length by (rewrite ?length_fmap; assumption).
    do 3 f_equal. rewrite take_ge by (rewrite length_fmap; lia).
    rewrite <- list_fmap_compose.
    rewrite <- (list_fmap_id data) at 2. apply Forall_fmap_ext_1.
    eapply Forall_impl; [exact Hchan|].
    intros [r g b a] (Hr & Hg & Hb & Ha). simpl in *.
    rewrite !uchar_of_float_of_int by assumption. reflexivity.
Qed.

(** X11.  A vertex-colour layer written by [write_sample<CD_MCOL>] is read back
    unchanged by [read_sample<CD_MCOL>], which returns
    [PTC_READ_SAMPLE_EXACT]: every channel is an [unsigned char], which the
    conversion to [float] and back preserves.  The layer holds [num_data]
    colours. *)
Theorem write_read_MCOL parent name data num_data parent' :
  write_sample_MCOL parent name data num_data = Some parent' ->
  Z.of_nat (length data) = num_data -> num_data <= Int32.int_max ->
  Forall (fun c => 0 <= mcol_r c <= 255 /\ 0 <= mcol_g c <= 255 /\
                   0 <= mcol_b c <= 255 /\ 0 <= mcol_a c <= 255) data ->
  read_sample_MCOL parent' name num_data = Some (PTC_READ_SAMPLE_EXACT, Cols data).
Proof.
  intros H Hlen Hmax Hchan.
  destruct (write_MCOL_stored _ _ _ _ _ H Hlen Hmax Hchan) as (p & Hp & _ & Hread).
  apply Hread, Hp.
Qed.

Lemma write_read_MCOL_witness :
  exists parent',
    write_sample_MCOL [] "mesh:CDMCol:N0" [mk_MCol 0 128 255 7; mk_MCol 1 2 3 4] 2
      = Some parent' /\
    read_sample_MCOL parent' "mesh:CDMCol:N0" 2
      = Some (PTC_READ_SAMPLE_EXACT, Cols [mk_MCol 0 128 255 7; mk_MCol 1 2 3 4]).
Proof.
  destruct (write_sample_MCOL [] "mesh:CDMCol:N0" [mk_MCol 0 128 255 7; mk_MCol 1 2 3 4] 2)
    as [parent'|] eqn:Hw; [|vm_compute in Hw; discriminate].
  exists parent'. split; [reflexivity|].
  apply (write_read_MCOL _ _ _ _ _ Hw); [reflexivity|unfold Int32.int_max; lia|].
  repeat constructor; simpl; lia.
Defined.

(** ** Original indices *)

Lemma write_ORIGINDEX_stored parent name data num_data parent' :
  write_sample_ORIGINDEX parent name data num_data = Some parent' ->
  Z.of_nat (length data) = num_data -> num_data <= Int32.int_max ->
  exists p,
    get_property parent' name = Some p /\
    (get_property parent name = None -> parent' = parent ++ [(name, p)]) /\
    forall q, get_property q name = Some p ->
      read_sample_ORIGINDEX q name num_data
      = Some (PTC_READ_SAMPLE_EXACT, OrigIndex data).
Proof.
  unfold write_sample_ORIGINDEX. intros H Hlen Hmax.
  destruct (PTCWriter.add_int32_array name parent) as [p1|] eqn:Eadd;
    cbn [mbind option_bind] in H; [|discriminate].
  rewrite Z.mod_small in H by (unfold Int32.int_max in Hmax; lia).
  destruct (decide _) as [_|]; [|discriminate]. injection H as <-.
  rewrite take_ge by lia.
  eexists. split; [|split].
  - apply add_property_spec in Eadd as [(q & Hq & _) _].
    apply get_set_property_eq. rewrite Hq. eauto.
  - intros Hfresh. unfold PTCWriter.add_int32_array in Eadd.
    rewrite add_property_fresh in Eadd by assumption. injection Eadd as <-.
    apply set_property_fresh. exact Hfresh.
  - intros q Hq. unfold read_sample_ORIGINDEX, PTC.add_int32_array. rewrite Hq.
    cbn [mbind option_bind].
    rewrite size_differs_length by assumption.
    rewrite take_ge by lia. reflexivity.
Qed.

(** X12.  An index layer written by [write_sample<CD_ORIGINDEX>] is read back
    unchanged by [read_sample<CD_ORIGINDEX>], which returns
    [PTC_READ_SAMPLE_EXACT].  The layer holds [num_data] indices. *)
Theorem write_read_ORIGINDEX parent name data num_data parent' :
  write_sample_ORIGINDEX parent name data num_data = Some parent' ->
  Z.of_nat (length data) = num_data -> num_data <= Int32.int_max ->
  read_sample_ORIGINDEX parent' name num_data
  = Some (PTC_READ_SAMPLE_EXACT, OrigIndex data).
Proof.
  intros H Hlen Hmax.
  destruct (write_ORIGINDEX_stored _ _ _ _ _ H Hlen Hmax) as (p & Hp & _ & Hread).
  apply Hread, Hp.
Qed.

Lemma write_read_ORIGINDEX_witness :
  exists parent',
    write_sample_ORIGINDEX [] "mesh:CDOrigIndex:N0" [3; -1; 0] 3 = Some parent' /\
    read_sample_ORIGINDEX parent' "mesh:CDOrigIndex:N0" 3
      = Some (PTC_READ_SAMPLE_EXACT, OrigIndex [3; -1; 0]).
Proof.
  destruct (write_sample_ORIGINDEX [] "mesh:CDOrigIndex:N0" [3; -1; 0] 3)
    as [parent'|] eqn:Hw; [|vm_compute in Hw; discriminate].
  exists parent'. split; [reflexivity|].
  apply (write_read_ORIGINDEX _ _ _ _ _ Hw); [reflexivity|unfold Int32.int_max; lia].
Defined.

End RoundTrips.

(** ** Original-space faces and deform vertices *)

Section RoundTrips2.

Import PTC PTCWriter.

Lemma get_set_is_Some children name p name' :
  is_Some (get_property children name') ->
  is_Some (get_property (set_property name p children) name').
Proof.
  intros H. destruct (decide (name' = name)) as [->|Hne].
  - rewrite get_set_property_eq by assumption. eauto.
  - rewrite get_set_property_ne by assumption. exact H.
Qed.

Lemma add_is_Some_new name e parent parent' :
  add_property name e parent = Some parent' -> is_Some (get_property parent' name).
Proof. intros H. apply add_property_spec in H as [(q & Hq & _) _]. rewrite Hq. eauto. Qed.

Lemma add_is_Some_old name e parent parent' name' :
  add_property name e parent = Some parent' ->
  is_Some (get_property parent name') -> is_Some (get_property parent' name').
Proof.
  intros H Hs. destruct (decide (name' = name)) as [->|Hne].
  - eapply add_is_Some_new. exact H.
  - apply add_property_spec in H as [_ H]. rewrite H by assumption. exact Hs.
Qed.

Lemma suffix_ne (name a b : string) : a <> b -> name +:+ a <> name +:+ b.
Proof. intros H E. apply H. eapply append_inj_l. exact E. Qed.

Lemma write_orig_space_all ospace :
  write_orig_space (length ospace) ospace
  = Some (uv0 <$> ospace, uv1 <$> ospace, uv2 <$> ospace, uv3 <$> ospace).
Proof. induction ospace as [|f rest IH]; simpl; [reflexivity|]. rewrite IH. reflexivity. Qed.

Lemma read_orig_space_all ospace :
  read_orig_space (length ospace)
    (uv0 <$> ospace) (uv1 <$> ospace) (uv2 <$> ospace) (uv3 <$> ospace)
  = Some ospace.
Proof.
  induction ospace as [|[a b c d] rest IH]; [reflexivity|].
  rewrite !fmap_cons. cbn [length read_orig_space uv0 uv1 uv2 uv3].
  rewrite IH. reflexivity.
Qed.

Lemma in_compound_fresh name parent body parent' :
  get_property parent name = None ->
  in_compound name (parent ++ [(name, PCompound [])]) body = Some parent' ->
  exists children', parent' = parent ++ [(name, PCompound children')].
Proof.
  intros Hfresh H. apply in_compound_spec in H as (c & c' & _ & _ & -> & _).
  exists c'. apply set_property_fresh. exact Hfresh.
Qed.

Lemma write_ORIGSPACE_stored parent name data num_data parent' :
  write_sample_ORIGSPACE parent name data num_data = Some parent' ->
  Z.of_nat (length data) = num_data -> num_data <= Int32.int_max ->
  exists p,
    get_property parent' name = Some p /\
    (get_property parent name = None -> parent' = parent ++ [(name, p)]) /\
    forall q, get_property q name = Some p ->
      read_sample_ORIGSPACE q name num_data
      = Some (PTC_READ_SAMPLE_EXACT, OrigSpace data).
Proof.
  unfold write_sample_ORIGSPACE. intros H Hlen Hmax.
  destruct (PTCWriter.add_compound_property name parent) as [p1|] eqn:Eadd;
    cbn [mbind option_bind] in H; [|discriminate].
  assert (Hin := H).
  apply in_compound_spec in H as (c0 & c' & _ & Hbody & _ & Hget).
  exists (PCompound c'). split; [exact Hget|]. split.
  { intros Hfresh. unfold PTCWriter.add_compound_property in Eadd.
    rewrite add_property_fresh in Eadd by assumption. injection Eadd as <-.
    destruct (in_compound_fresh _ _ _ _ Hfresh Hin) as (c'' & ->).
    rewrite get_property_fresh_last in Hget by assumption. congruence. }
  destruct (PTCWriter.add_v2f_array (name +:+ ":uv0") c0) as [c1|] eqn:E0;
    cbn [mbind option_bind] in Hbody; [|discriminate].
  destruct (PTCWriter.add_v2f_array (name +:+ ":uv1") c1) as [c2|] eqn:E1;
    cbn [mbind option_bind] in Hbody; [|discriminate].
  destruct (PTCWriter.add_v2f_array (name +:+ ":uv2") c2) as [c3|] eqn:E2;
    cbn [mbind option_bind] in Hbody; [|discriminate].
  destruct (PTCWriter.add_v2f_array (name +:+ ":uv3") c3) as [c4|] eqn:E3;
    cbn [mbind option_bind] in Hbody; [|discriminate].
  destruct (reserve num_data); cbn [mbind option_bind] in Hbody; [|discriminate].
  replace (Z.to_nat num_data) with (length data) in Hbody by lia.
  rewrite write_orig_space_all in Hbody. cbn [mbind option_bind] in Hbody.
  injection Hbody as <-.
  assert (H0 : is_Some (get_property c4 (name +:+ ":uv0")))
    by eauto using add_is_Some_new, add_is_Some_old.
  assert (H1 : is_Some (get_property c4 (name +:+ ":uv1")))
    by eauto using add_is_Some_new, add_is_Some_old.
  assert (H2 : is_Some (get_property c4 (name +:+ ":uv2")))
    by eauto using add_is_Some_new, add_is_Some_old.
  assert (H3 : is_Some (get_property c4 (name +:+ ":uv3")))
    by eauto using add_is_Some_new, add_is_Some_old.
  intros q Hq.
  unfold read_sample_ORIGSPACE, PTC.add_compound_property. rewrite Hq.
  cbn [mbind option_bind]. unfold PTC.add_v2f_array.
  repeat first
    [ rewrite get_set_property_eq by auto using get_set_is_Some
    | rewrite get_set_property_ne by (apply suffix_ne; discriminate) ].
  cbn [mbind option_bind].
  rewrite !size_differs_length by (rewrite ?length_fmap; assumption).
  cbn [orb]. replace (Z.to_nat num_data) with (length data) by lia.
  rewrite read_orig_space_all. reflexivity.
Qed.

(** X13.  An original-space layer written by [write_sample<CD_ORIGSPACE>] is
    read back unchanged by [read_sample<CD_ORIGSPACE>], which returns
    [PTC_READ_SAMPLE_EXACT]: the four corners travel in the four arrays
    [uv0] to [uv3] of the layer's compound.  The layer holds [num_data]
    faces. *)
Theorem write_read_ORIGSPACE parent name data num_data parent' :
  write_sample_ORIGSPACE parent name data num_data = Some parent' ->
  Z.of_nat (length data) = num_data -> num_data <= Int32.int_max ->
  read_sample_ORIGSPACE parent' name num_data
  = Some (PTC_READ_SAMPLE_EXACT, OrigSpace data).
Proof.
  intros H Hlen Hmax.
  destruct (write_ORIGSPACE_stored _ _ _ _ _ H Hlen Hmax) as (p & Hp & _ & Hread).
  apply Hread, Hp.
Qed.

Lemma write_read_ORIGSPACE_witness :
  let face :=
    mk_OrigSpaceFace (mk_V2f F32.zero F32.zero) (mk_V2f F32.half F32.zero)
                     (mk_V2f F32.half F32.half) (mk_V2f F32.zero F32.half) in
  exists parent',
    write_sample_ORIGSPACE [] "mesh:CDOrigSpace:N0" [face; face] 2 = Some parent' /\
    read_sample_ORIGSPACE parent' "mesh:CDOrigSpace:N0" 2
      = Some (PTC_READ_SAMPLE_EXACT, OrigSpace [face; face]).
Proof.
  intros face.
  destruct (write_sample_ORIGSPACE [] "mesh:CDOrigSpace:N0" [face; face] 2)
    as [parent'|] eqn:Hw; [|vm_compute in Hw; discriminate].
  exists parent'. split; [reflexivity|].
  apply (write_read_ORIGSPACE _ _ _ _ _ Hw); [reflexivity|unfold Int32.int_max; lia].
Defined.

Lemma write_weights_all mw :
  write_weights (length mw) mw = Some (def_nr <$> mw, weight <$> mw).
Proof. induction mw as [|w rest IH]; simpl; [reflexivity|]. rewrite IH. reflexivity. Qed.

Lemma read_weights_all mw ds ws :
  read_weights (length mw) ((def_nr <$> mw) ++ ds) ((weight <$> mw) ++ ws)
  = Some (mw, ds, ws).
Proof.
  induction mw as [|[d w] rest IH]; [reflexivity|].
  rewrite !fmap_cons. cbn [length read_weights app def_nr weight].
  rewrite IH. reflexivity.
Qed.

(** What the second loop of the writer has pushed, the copying loop of the
    reader consumes again. *)
Lemma write_read_deform_verts mdef ts fs ds ws :
  Forall (fun v => Z.of_nat (length (dw v)) = totweight v) mdef ->
  write_deform_verts (length mdef) mdef = Some (ts, fs, ds, ws) ->
  length ts = length mdef /\ length fs = length mdef /\
  read_deform_verts (length mdef) ts fs ds ws = Some mdef.
Proof.
  intros Hwf. revert ts fs ds ws.
  induction Hwf as [|[mw t f] rest Hv Hrest IH]; intros ts fs ds ws.
  - simpl. intros [= <- <- <- <-]. auto.
  - cbn [length write_deform_verts dw totweight flag]. cbn [dw totweight] in Hv.
    replace (Z.to_nat t) with (length mw) by lia.
    rewrite write_weights_all. cbn [mbind option_bind].
    destruct (write_deform_verts (length rest) rest) as [[[[ts' fs'] ds'] ws']|] eqn:E;
      cbn [mbind option_bind]; [|discriminate].
    intros [= <- <- <- <-].
    destruct (IH _ _ _ _ eq_refl) as (Lt & Lf & Hread).
    cbn [length read_deform_verts]. rewrite Lt, Lf.
    split; [reflexivity|]. split; [reflexivity|].
    replace (Z.to_nat t) with (length mw) by lia.
    rewrite read_weights_all. cbn [mbind option_bind]. rewrite Hread. reflexivity.
Qed.

Lemma write_MDEFORMVERT_stored parent name data num_data parent' :
  write_sample_MDEFORMVERT parent name data num_data = Some parent' ->
  Z.of_nat (length data) = num_data -> num_data <= Int32.int_max ->
  Forall (fun v => Z.of_nat (length (dw v)) = totweight v) data ->
  exists p,
    get_property parent' name = Some p /\
    (get_property parent name = None -> parent' = parent ++ [(name, p)]) /\
    forall q, get_property q name = Some p ->
      read_sample_MDEFORMVERT q name num_data
      = Some (PTC_READ_SAMPLE_EXACT, DeformVerts data).
Proof.
  unfold write_sample_MDEFORMVERT. intros H Hlen Hmax Hwf.
  destruct (PTCWriter.add_compound_property name parent) as [p1|] eqn:Eadd;
    cbn [mbind option_bind] in H; [|discriminate].
  assert (Hin := H).
  apply in_compound_spec in H as (c0 & c' & _ & Hbody & _ & Hget).
  exists (PCompound c'). split; [exact Hget|]. split.
  { intros Hfresh. unfold PTCWriter.add_compound_property in Eadd.
    rewrite add_property_fresh in Eadd by assumption. injection Eadd as <-.
    destruct (in_compound_fresh _ _ _ _ Hfresh Hin) as (c'' & ->).
    rewrite get_property_fresh_last in Hget by assumption. congruence. }
  destruct (PTCWriter.add_int32_array (name +:+ ":totweight") c0) as [c1|] eqn:E0;
    cbn [mbind option_bind] in Hbody; [|discriminate].
  destruct (PTCWriter.add_int32_array (name +:+ ":flag") c1) as [c2|] eqn:E1;
    cbn [mbind option_bind] in Hbody; [|discriminate].
  destruct (PTCWriter.add_int32_array (name +:+ ":def_nr") c2) as [c3|] eqn:E2;
    cbn [mbind option_bind] in Hbody; [|discriminate].
  destruct (PTCWriter.add_float_array (name +:+ ":weight") c3) as [c4|] eqn:E3;
    cbn [mbind option_bind] in Hbody; [|discriminate].
  destruct (sum_totweight _ _ _) as [num_mdefweight|];
    cbn [mbind option_bind] in Hbody; [|discriminate].
  destruct (reserve num_data); cbn [mbind option_bind] in Hbody; [|discriminate].
  destruct (reserve num_mdefweight); cbn [mbind option_bind] in Hbody; [|discriminate].
  replace (Z.to_nat num_data) with (length data) in Hbody by lia.
  destruct (write_deform_verts (length data) data) as [[[[ts fs] ds] ws]|] eqn:Ew;
    cbn [mbind option_bind] in Hbody; [|discriminate].
  injection Hbody as <-.
  destruct (write_read_deform_verts _ _ _ _ _ Hwf Ew) as (Lt & Lf & Hread).
  assert (H0 : is_Some (get_property c4 (name +:+ ":totweight")))
    by eauto using add_is_Some_new, add_is_Some_old.
  assert (H1 : is_Some (get_property c4 (name +:+ ":flag")))
    by eauto using add_is_Some_new, add_is_Some_old.
  assert (H2 : is_Some (get_property c4 (name +:+ ":def_nr")))
    by eauto using add_is_Some_new, add_is_Some_old.
  assert (H3 : is_Some (get_property c4 (name +:+ ":weight")))
    by eauto using add_is_Some_new, add_is_Some_old.
  intros q Hq.
  unfold read_sample_MDEFORMVERT, PTC.add_compound_property. rewrite Hq.
  cbn [mbind option_bind]. unfold PTC.add_int32_array, PTC.add_float_array.
  repeat first
    [ rewrite get_set_property_eq by auto using get_set_is_Some
    | rewrite get_set_property_ne by (apply suffix_ne; discriminate) ].
  cbn [mbind option_bind].
  rewrite !size_differs_length by (rewrite ?Lt, ?Lf; assumption).
  cbn [orb]. replace (Z.to_nat num_data) with (length data) by lia.
  rewrite Hread. reflexivity.
Qed.

(** X14.  A deform-vertex layer written by [write_sample<CD_MDEFORMVERT>] is
    read back unchanged by [read_sample<CD_MDEFORMVERT>], which returns
    [PTC_READ_SAMPLE_EXACT]: the weights of all vertices travel flattened
    in the [def_nr] and [weight] arrays and are cut again by the
    [totweight] counts.  The layer holds [num_data] vertices, each with
    [totweight] weights. *)
Theorem write_read_MDEFORMVERT parent name data num_data parent' :
  write_sample_MDEFORMVERT parent name data num_data = Some parent' ->
  Z.of_nat (length data) = num_data -> num_data <= Int32.int_max ->
  Forall (fun v => Z.of_nat (length (dw v)) = totweight v) data ->
  read_sample_MDEFORMVERT parent' name num_data
  = Some (PTC_READ_SAMPLE_EXACT, DeformVerts data).
Proof.
  intros H Hlen Hmax Hwf.
  destruct (write_MDEFORMVERT_stored _ _ _ _ _ H Hlen Hmax Hwf) as (p & Hp & _ & Hread).
  apply Hread, Hp.
Qed.

Lemma write_read_MDEFORMVERT_witness :
  let verts :=
    [mk_MDeformVert [mk_MDeformWeight 0 F32.half; mk_MDeformWeight 3 F32.quarter] 2 0;
     mk_MDeformVert [] 0 1;
     mk_MDeformVert [mk_MDeformWeight 1 F32.half] 1 0] in
  exists parent',
    write_sample_MDEFORMVERT [] "mesh:CDMDeformVert:N0" verts 3 = Some parent' /\
    read_sample_MDEFORMVERT parent' "mesh:CDMDeformVert:N0" 3
      = Some (PTC_READ_SAMPLE_EXACT, DeformVerts verts).
Proof.
  intros verts.
  destruct (write_sample_MDEFORMVERT [] "mesh:CDMDeformVert:N0" verts 3)
    as [parent'|] eqn:Hw; [|vm_compute in Hw; discriminate].
  exists parent'. split; [reflexivity|].
  apply (write_read_MDEFORMVERT _ _ _ _ _ Hw); [reflexivity|unfold Int32.int_max; lia|].
  repeat constructor.
Defined.

End RoundTrips2.

(** ** The dispatch by layer type *)

Section Dispatch.

Import PTC PTCWriter.

Variable cd : CustomDataTypes.

Lemma read_sample_call_from_spec k CDTYPE parent type name num_data :
  (CDTYPE <= type)%nat ->
  read_sample_call_from cd k CDTYPE parent type name num_data
  = if decide (type < CDTYPE + k)%nat
    then read_sample cd type parent name num_data
    else Some (PTC_READ_SAMPLE_INVALID, Unwritten).
Proof.
  revert CDTYPE. induction k as [|k IH]; intros CDTYPE Hle; simpl.
  - rewrite decide_False by lia. reflexivity.
  - destruct (decide (type = CDTYPE)) as [->|Hne].
    + rewrite decide_True by lia. reflexivity.
    + rewrite IH by lia.
      destruct (decide (type < S CDTYPE + k)%nat), (decide (type < CDTYPE + S k)%nat);
        try reflexivity; lia.
Qed.

Lemma write_sample_call_from_spec k CDTYPE parent type name data num_data :
  (CDTYPE <= type)%nat ->
  write_sample_call_from cd k CDTYPE parent type name data num_data
  = if decide (type < CDTYPE + k)%nat
    then write_sample cd type parent name data num_data
    else Some parent.
Proof.
  revert CDTYPE. induction k as [|k IH]; intros CDTYPE Hle; simpl.
  - rewrite decide_False by lia. reflexivity.
  - destruct (decide (type = CDTYPE)) as [->|Hne].
    + rewrite decide_True by lia. reflexivity.
    + rewrite IH by lia.
      destruct (decide (type < S CDTYPE + k)%nat), (decide (type < CDTYPE + S k)%nat);
        try reflexivity; lia.
Qed.

(** X15.  The recursive templates [read_sample_call<0>] and
    [write_sample_call<0>] are a switch on the layer type: for a type code
    below [CD_NUMTYPES] they call the reader or the writer instantiated at
    that code, and for any other code the terminator returns
    [PTC_READ_SAMPLE_INVALID], respectively writes nothing. *)
Theorem sample_call_dispatch parent type name data num_data :
  read_sample_call cd parent type name num_data
  = (if decide (type < CD_NUMTYPES cd)%nat
     then read_sample cd type parent name num_data
     else Some (PTC_READ_SAMPLE_INVALID, Unwritten)) /\
  write_sample_call cd parent type name data num_data
  = (if decide (type < CD_NUMTYPES cd)%nat
     then write_sample cd type parent name data num_data
     else Some parent).
Proof.
  unfold read_sample_call, write_sample_call.
  rewrite read_sample_call_from_spec, write_sample_call_from_spec by lia.
  split; reflexivity.
Qed.

End Dispatch.

(** ** The sizes the deform-vertex reader does not check *)

Section UncheckedWeights.

Import PTC.

Lemma read_weights_Some n ds ws :
  (n <= length ds)%nat -> (n <= length ws)%nat ->
  exists mw, read_weights n ds ws = Some (mw, drop n ds, drop n ws) /\ length mw = n.
Proof.
  revert ds ws. induction n as [|n IH]; intros ds ws Hd Hw.
  - exists []. split; reflexivity.
  - destruct ds as [|d ds]; [simpl in Hd; lia|]. destruct ws as [|w ws]; [simpl in Hw; lia|].
    simpl in Hd, Hw. destruct (IH ds ws ltac:(lia) ltac:(lia)) as (mw & E & L).
    exists (mk_MDeformWeight d w :: mw). cbn [read_weights]. rewrite E. simpl.
    split; [reflexivity|]. rewrite L. reflexivity.
Qed.

Lemma read_weights_None n ds ws :
  (length ds < n \/ length ws < n)%nat -> read_weights n ds ws = None.
Proof.
  revert ds ws. induction n as [|n IH]; intros ds ws H; [lia|].
  destruct ds as [|d ds]; [reflexivity|]. destruct ws as [|w ws]; [reflexivity|].
  cbn [read_weights]. rewrite IH by (simpl in H; lia). reflexivity.
Qed.

Lemma read_deform_verts_Some ts fs ds ws :
  length fs = length ts ->
  (sum_list_with Z.to_nat ts <= length ds)%nat ->
  (sum_list_with Z.to_nat ts <= length ws)%nat ->
  exists mdef,
    read_deform_verts (length ts) ts fs ds ws = Some mdef /\ length mdef = length ts.
Proof.
  revert fs ds ws. induction ts as [|t ts IH]; intros fs ds ws Hf Hd Hw.
  - exists []. split; reflexivity.
  - destruct fs as [|f fs]; [discriminate|]. simpl in Hf, Hd, Hw.
    destruct (read_weights_Some (Z.to_nat t) ds ws ltac:(lia) ltac:(lia)) as (mw & E & L).
    destruct (IH fs (drop (Z.to_nat t) ds) (drop (Z.to_nat t) ws))
      as (mdef & E' & L'); [lia|rewrite length_drop; lia|rewrite length_drop; lia|].
    exists (mk_MDeformVert mw t f :: mdef).
    cbn [length read_deform_verts]. rewrite E. cbn [mbind option_bind].
    rewrite E'. simpl. rewrite L'. split; reflexivity.
Qed.

Lemma read_deform_verts_None ts fs ds ws :
  length fs = length ts ->
  (length ds < sum_list_with Z.to_nat ts \/ length ws < sum_list_with Z.to_nat ts)%nat ->
  read_deform_verts (length ts) ts fs ds ws = None.
Proof.
  revert fs ds ws. induction ts as [|t ts IH]; intros fs ds ws Hf H.
  - simpl in H. lia.
  - destruct fs as [|f fs]; [discriminate|]. simpl in Hf, H.
    cbn [length read_deform_verts].
    destruct (decide (Z.to_nat t <= length ds /\ Z.to_nat t <= length ws)%nat)
      as [[Hd Hw]|Hshort].
    + destruct (read_weights_Some (Z.to_nat t) ds ws Hd Hw) as (mw & E & L).
      rewrite E. cbn [mbind option_bind].
      rewrite IH; [reflexivity|lia|rewrite !length_drop; lia].
    + rewrite read_weights_None by lia. reflexivity.
Qed.

(** X16.  [read_sample<CD_MDEFORMVERT>] checks the sizes of the [totweight] and
    [flag] samples only.  With these equal to [num_data], it reads
    [totweight] elements per vertex from the [def_nr] and [weight]
    samples: it returns [PTC_READ_SAMPLE_EXACT] with [num_data] vertices
    when both hold at least the sum of the [totweight] counts, and reads
    past the end of a sample when one of them is shorter. *)
Theorem read_MDEFORMVERT_unchecked_weights parent name num_data prop st sf sd sw :
  PTC.add_compound_property name parent = Some prop ->
  add_int32_array (name +:+ ":totweight") prop = Some st ->
  add_int32_array (name +:+ ":flag") prop = Some sf ->
  add_int32_array (name +:+ ":def_nr") prop = Some sd ->
  add_float_array (name +:+ ":weight") prop = Some sw ->
  Z.of_nat (length st) = num_data -> Z.of_nat (length sf) = num_data ->
  num_data <= Int32.int_max ->
  let total := sum_list_with Z.to_nat st in
  ((total <= length sd)%nat -> (total <= length sw)%nat ->
   exists mdef,
     read_sample_MDEFORMVERT parent name num_data
       = Some (PTC_READ_SAMPLE_EXACT, DeformVerts mdef) /\
     Z.of_nat (length mdef) = num_data) /\
  ((length sd < total \/ length sw < total)%nat ->
   read_sample_MDEFORMVERT parent name num_data = None).
Proof.
  intros Hp Ht Hf Hd Hw Lt Lf Hmax total.
  unfold read_sample_MDEFORMVERT. rewrite Hp. cbn [mbind option_bind].
  rewrite Ht. cbn [mbind option_bind]. rewrite Hf. cbn [mbind option_bind].
  rewrite Hd. cbn [mbind option_bind]. rewrite Hw. cbn [mbind option_bind].
  rewrite !size_differs_length by assumption. cbn [orb].
  replace (Z.to_nat num_data) with (length st) by lia.
  split.
  - intros Hsd Hsw.
    destruct (read_deform_verts_Some st sf sd sw ltac:(lia) Hsd Hsw) as (mdef & E & L).
    exists mdef. rewrite E. split; [reflexivity|lia].
  - intros Hshort. rewrite read_deform_verts_None by (assumption || lia). reflexivity.
Qed.

Lemma read_MDEFORMVERT_unchecked_weights_witness :
  read_sample_MDEFORMVERT
    [("v", PCompound [("v:totweight", PInt32Array [2; 1]); ("v:flag", PInt32Array [0; 0]);
                      ("v:def_nr", PInt32Array [0; 1]);
                      ("v:weight", PFloatArray [F32.half; F32.half; F32.half])])]
    "v" 2 = None.
Proof.
  refine (proj2 (read_MDEFORMVERT_unchecked_weights _ "v" 2 _ [2; 1] [0; 0] [0; 1]
                   [F32.half; F32.half; F32.half] _ _ _ _ _ _ _ _) _);
    try reflexivity; [unfold Int32.int_max; lia|simpl; lia].
Defined.

End UncheckedWeights.

(** ** Property names *)

Lemma append_cons c (s t : string) : String c s +:+ t = String c (s +:+ t).
Proof. reflexivity. Qed.

Lemma append_assoc (a b c : string) : a +:+ (b +:+ c) = (a +:+ b) +:+ c.
Proof. induction a as [|x a IH]; [reflexivity|]. rewrite !append_cons, IH. reflexivity. Qed.

Lemma length_append (a b : string) :
  String.length (a +:+ b) = (String.length a + String.length b)%nat.
Proof.
  induction a as [|x a IH]; [reflexivity|]. rewrite append_cons. simpl. rewrite IH.
  reflexivity.
Qed.

Lemma get_append_r (a : string) c (b : string) :
  String.get (String.length a) (a +:+ String c b) = Some c.
Proof. induction a as [|x a IH]; [reflexivity|]. rewrite append_cons. exact IH. Qed.

Lemma substring_all (b : string) : String.substring 0 (String.length b) b = b.
Proof. induction b as [|x b IH]; [reflexivity|]. simpl. rewrite IH. reflexivity. Qed.

Lemma substring_append_r (a : string) c (b : string) :
  String.substring (S (String.length a)) (String.length b) (a +:+ String c b) = b.
Proof.
  induction a as [|x a IH].
  - change (EmptyString +:+ String c b) with (String c b). simpl. apply substring_all.
  - rewrite append_cons. exact IH.
Qed.

Lemma c_str_idemp s : PTC.c_str (PTC.c_str s) = PTC.c_str s.
Proof.
  induction s as [|c s IH]; [reflexivity|]. simpl.
  destruct (decide (c = Ascii.zero)) as [|Hc]; [reflexivity|].
  simpl. rewrite decide_False by assumption. rewrite IH. reflexivity.
Qed.

(** The layer name the reader's loop takes is what [cdtype_from_name]
    leaves in [layer_name]. *)
Lemma reader_layer_name cd extract_int m_name name type max_layer_name :
  PTC.cdtype_from_name cd m_name name type max_layer_name
  = snd (PTCNames.cdtype_from_name cd extract_int (PTC.BLI_strncpy cd)
           m_name name type max_layer_name).
Proof.
  unfold PTC.cdtype_from_name, PTCNames.cdtype_from_name. cbv zeta.
  destruct (decide _); [reflexivity|].
  destruct (String.get _ name) as [c|]; [|reflexivity].
  destruct c as [[] [] [] [] [] [] [] []]; reflexivity.
Qed.

Section NamesFacts.

Import PTC PTCNames.

Variable cd : CustomDataTypes.
Variable CustomData : Type.
Variable CustomData_get_layer_name : CustomData -> nat -> Z -> option string.
Variable format_int : Z -> string.
Variable extract_int : string -> Z.
Variable BLI_strncpy : string -> Z -> string.

(** The name [prefix ++ [tag] ++ rest] is parsed at [tag]. *)
Lemma cdtype_from_name_tagged m_name type max_layer_name tag rest :
  let name := m_name +:+ ":" +:+ CustomData_layertype_name cd type +:+ ":"
              +:+ String tag rest in
  cdtype_from_name cd extract_int BLI_strncpy m_name name type max_layer_name
  = if decide (tag = "S"%char) then (-1, BLI_strncpy (c_str rest) max_layer_name)
    else if decide (tag = "N"%char) then (extract_int (c_str rest), EmptyString)
    else (-1, EmptyString).
Proof.
  intros name. unfold cdtype_from_name.
  set (ltn := CustomData_layertype_name cd type) in *.
  set (start := (String.length m_name + 1 + String.length ltn + 1)%nat).
  assert (Hname : name = (m_name +:+ ":" +:+ ltn +:+ ":") +:+ String tag rest).
  { subst name. rewrite !append_assoc. reflexivity. }
  assert (Hstart : String.length (m_name +:+ ":" +:+ ltn +:+ ":") = start).
  { subst start. rewrite !length_append. simpl. lia. }
  assert (Hlen : String.length name = (start + 1 + String.length rest)%nat).
  { rewrite Hname, length_append, Hstart. simpl. lia. }
  rewrite decide_False by lia.
  replace (String.length name - S start)%nat with (String.length rest) by lia.
  rewrite Hname, <- Hstart, get_append_r, substring_append_r.
  destruct (decide (tag = "S"%char)) as [->|HS]; [reflexivity|].
  destruct (decide (tag = "N"%char)) as [->|HN]; [reflexivity|].
  destruct tag as [[] [] [] [] [] [] [] []]; try reflexivity; congruence.
Qed.

(** X17.  The name [cdtype_to_name] gives a layer is parsed back by
    [cdtype_from_name]: for a layer with a name, to [n = -1] and the name
    as [BLI_strncpy] copies it into the caller's buffer; for a layer
    without one (a null or empty name), to the index and the empty
    name. *)
Theorem cdtype_name_round_trip m_name cdata type n max_layer_name :
  cdtype_from_name cd extract_int BLI_strncpy m_name
    (cdtype_to_name cd CustomData CustomData_get_layer_name format_int m_name cdata type n)
    type max_layer_name
  = match CustomData_get_layer_name cdata type n with
    | Some (String c s) =>
        if decide (c = Ascii.zero)
        then (extract_int (c_str (format_int n)), EmptyString)
        else (-1, BLI_strncpy (c_str (String c s)) max_layer_name)
    | _ => (extract_int (c_str (format_int n)), EmptyString)
    end.
Proof.
  unfold cdtype_to_name. cbv zeta.
  assert (HN : forall rest,
    m_name +:+ ":" +:+ CustomData_layertype_name cd type +:+ ":N" +:+ rest
    = m_name +:+ ":" +:+ CustomData_layertype_name cd type +:+ ":"
      +:+ String "N"%char rest) by reflexivity.
  assert (HS : forall rest,
    m_name +:+ ":" +:+ CustomData_layertype_name cd type +:+ ":S" +:+ rest
    = m_name +:+ ":" +:+ CustomData_layertype_name cd type +:+ ":"
      +:+ String "S"%char rest) by reflexivity.
  destruct (CustomData_get_layer_name cdata type n) as [[|c s]|].
  - rewrite HN, cdtype_from_name_tagged. reflexivity.
  - destruct (decide (c = Ascii.zero)).
    + rewrite HN, cdtype_from_name_tagged. reflexivity.
    + rewrite HS, cdtype_from_name_tagged, c_str_idemp. reflexivity.
  - rewrite HN, cdtype_from_name_tagged. reflexivity.
Qed.

End NamesFacts.

(** ** What the custom-data reader adds *)

Section ReaderLayers.

Import PTC.

Variable cd : CustomDataTypes.

(** The loop over the properties of one layer type adds one layer of
    that type per property. *)
Lemma read_layers_app m_name type num_data layertype_props props cdata cdata' :
  read_layers cd m_name type num_data layertype_props props cdata = Some cdata' ->
  exists added,
    cdata' = cdata ++ added /\ length added = length props /\
    Forall (fun L => layer_type L = type) added.
Proof.
  revert cdata. induction props as [|[name p] props IH]; intros cdata; simpl.
  - intros [= <-]. exists []. rewrite app_nil_r. auto.
  - destruct (read_sample_call cd layertype_props type name num_data) as [[res data]|];
      cbn [mbind option_bind]; [|discriminate].
    intros H. apply IH in H as (added & -> & Hlen & Hall).
    eexists (_ :: added). rewrite <- app_assoc. split; [reflexivity|].
    split; [simpl; lia|]. constructor; [reflexivity|exact Hall].
Qed.

Lemma read_types_app k type m_name m_cdmask num_data m_props cdata cdata' :
  read_types cd k type m_name m_cdmask num_data m_props cdata = Some cdata' ->
  exists added,
    cdata' = cdata ++ added /\
    Forall (fun L =>
              (type <= layer_type L < type + k)%nat /\
              Z.land (Int32.shl 1 (Z.of_nat (layer_type L))) m_cdmask <> 0 /\
              exists layertype_props,
                get_property m_props
                  (m_name +:+ ":" +:+ CustomData_layertype_name cd (layer_type L))
                = Some (PCompound layertype_props))
           added.
Proof.
  revert type cdata. induction k as [|k IH]; intros type cdata; simpl.
  - intros [= <-]. exists []. rewrite app_nil_r. auto.
  - assert (Hweaken : forall added,
      Forall (fun L =>
                (S type <= layer_type L < S type + k)%nat /\
                Z.land (Int32.shl 1 (Z.of_nat (layer_type L))) m_cdmask <> 0 /\
                exists layertype_props,
                  get_property m_props
                    (m_name +:+ ":" +:+ CustomData_layertype_name cd (layer_type L))
                  = Some (PCompound layertype_props)) added ->
      Forall (fun L =>
                (type <= layer_type L < type + S k)%nat /\
                Z.land (Int32.shl 1 (Z.of_nat (layer_type L))) m_cdmask <> 0 /\
                exists layertype_props,
                  get_property m_props
                    (m_name +:+ ":" +:+ CustomData_layertype_name cd (layer_type L))
                  = Some (PCompound layertype_props)) added).
    { intros added Hadded. eapply Forall_impl; [exact Hadded|].
      intros L (Hr & Hm & Hp). split; [lia|]. split; assumption. }
    destruct (Z.eqb_spec (Z.land (Int32.shl 1 (Z.of_nat type)) m_cdmask) 0)
      as [Hz|Hnz].
    + intros H. apply IH in H as (added & -> & Hall). exists added. auto.
    + destruct (get_property m_props _) as [[| | | |layertype_props]|] eqn:Eg;
        try discriminate.
      * destruct (read_layers cd m_name type num_data layertype_props layertype_props cdata)
          as [cdata1|] eqn:El; cbn [mbind option_bind]; [|discriminate].
        intros H. apply IH in H as (added2 & -> & Hall2).
        apply read_layers_app in El as (added1 & -> & _ & Hall1).
        exists (added1 ++ added2). rewrite app_assoc. split; [reflexivity|].
        apply Forall_app. split; [|auto].
        eapply Forall_impl; [exact Hall1|]. intros L ->.
        split; [lia|]. split; [exact Hnz|]. eauto.
      * intros H. apply IH in H as (added & -> & Hall). exists added. auto.
Qed.

(** X18.  [CustomDataReader::read_sample] only adds layers: the layers the
    [CustomData] held before the call are kept, in their order, before the
    added ones, and every added layer has a type code below
    [CD_NUMTYPES] for which [(1 << type) & m_cdmask] is not zero, the shift
    count of the 32-bit shift taken modulo 32, and for which the store
    holds the compound [<m_name>:<layertype_name>]. *)
Theorem reader_adds_masked_layers m_name m_cdmask cdata num_data parent res cdata' :
  CustomDataReader_read_sample cd m_name m_cdmask cdata num_data parent
    = Some (res, cdata') ->
  exists m_props added,
    PTC.add_compound_property m_name parent = Some m_props /\
    cdata' = cdata ++ added /\
    Forall (fun L =>
              (layer_type L < CD_NUMTYPES cd)%nat /\
              Z.land (Int32.shl 1 (Z.of_nat (layer_type L))) m_cdmask <> 0 /\
              exists layertype_props,
                get_property m_props
                  (m_name +:+ ":" +:+ CustomData_layertype_name cd (layer_type L))
                = Some (PCompound layertype_props))
           added.
Proof.
  unfold CustomDataReader_read_sample.
  destruct (PTC.add_compound_property m_name parent) as [m_props|];
    cbn [mbind option_bind]; [|discriminate].
  destruct (read_types cd (CD_NUMTYPES cd) 0 m_name m_cdmask num_data m_props cdata)
    as [cdata1|] eqn:E; cbn [mbind option_bind]; [|discriminate].
  intros [= <- <-]. apply read_types_app in E as (added & -> & Hall).
  exists m_props, added. split; [reflexivity|]. split; [reflexivity|].
  eapply Forall_impl; [exact Hall|]. intros L (Hr & Hm & Hp).
  split; [lia|]. split; assumption.
Qed.

End ReaderLayers.

(** A store that holds a layer of type 32, read with the mask 1: the bit
    tested for type 32 is that of type 0, and the layer is added. *)
Lemma reader_adds_masked_layers_witness :
  let store :=
    [("mesh",
      PTC.PCompound
        [("mesh:CDType32", PTC.PCompound [("mesh:CDType32:N0", PTC.PInt32Array [1])])])] in
  PTC.CustomDataReader_read_sample blender_types "mesh" 1
    [PTC.mk_Layer 7 "old" (PTC.OrigIndex [0])] 1 store
  = Some (PTC.PTC_READ_SAMPLE_EXACT,
          [PTC.mk_Layer 7 "old" (PTC.OrigIndex [0]); PTC.mk_Layer 32 "" PTC.Unwritten]) /\
  exists added,
    [PTC.mk_Layer 7 "old" (PTC.OrigIndex [0])] ++ added
    = [PTC.mk_Layer 7 "old" (PTC.OrigIndex [0]); PTC.mk_Layer 32 "" PTC.Unwritten] /\
    Forall (fun L => Z.land (Int32.shl 1 (Z.of_nat (PTC.layer_type L))) 1 <> 0) added.
Proof.
  intros store.
  assert (Hrun : PTC.CustomDataReader_read_sample blender_types "mesh" 1
                   [PTC.mk_Layer 7 "old" (PTC.OrigIndex [0])] 1 store
                 = Some (PTC.PTC_READ_SAMPLE_EXACT,
                         [PTC.mk_Layer 7 "old" (PTC.OrigIndex [0]);
                          PTC.mk_Layer 32 "" PTC.Unwritten]))
    by (vm_compute; reflexivity).
  split; [exact Hrun|].
  destruct (reader_adds_masked_layers blender_types "mesh" 1
              [PTC.mk_Layer 7 "old" (PTC.OrigIndex [0])] 1 store
              PTC.PTC_READ_SAMPLE_EXACT
              [PTC.mk_Layer 7 "old" (PTC.OrigIndex [0]); PTC.mk_Layer 32 "" PTC.Unwritten]
              Hrun)
    as (m_props & added & _ & Heq & Hall).
  exists added. split; [symmetry; exact Heq|].
  eapply Forall_impl; [exact Hall|]. intros L (_ & Hm & _). exact Hm.
Defined.

(** ** A whole sample: writer, then reader *)

Section WholeSample.

Import PTC PTCNames PTCWriter.

Variable cd : CustomDataTypes.
Variable CustomData : Type.
Variable CustomData_number_of_layers : CustomData -> nat -> Z.
Variable CustomData_get_layer_name : CustomData -> nat -> Z -> option string.
Variable CustomData_get_layer_n : CustomData -> nat -> Z -> layer_data.
Variable format_int : Z -> string.

Variables (m_name : string) (m_cdmask : Z) (cdata : CustomData) (num_data : Z).

Hypothesis Hcodes :
  NoDup [CD_MDEFORMVERT cd; CD_MCOL cd; CD_ORIGINDEX cd; CD_ORIGSPACE cd].
Hypothesis Hmax : num_data <= Int32.int_max.

Let to_name (type : nat) (n : Z) : string :=
  cdtype_to_name cd CustomData CustomData_get_layer_name format_int m_name cdata type n.
Let type_name (type : nat) : string :=
  m_name +:+ ":" +:+ CustomData_layertype_name cd type.

(** A layer type without a writer leaves the store as it is. *)
Lemma write_sample_no_writer type lp name data :
  has_writer cd type = false ->
  write_sample cd type lp name data num_data = Some lp.
Proof.
  unfold has_writer. intros H. apply bool_decide_eq_false in H.
  rewrite !not_elem_of_cons in H. destruct_and!.
  unfold write_sample. rewrite !decide_False by assumption. reflexivity.
Qed.

(** A layer written under a free name is the last property, and is read
    back from every store that holds it under that name. *)
Lemma write_sample_stored type lp name data lp' :
  layer_wf cd type data num_data ->
  write_sample cd type lp name data num_data = Some lp' ->
  get_property lp name = None ->
  exists p,
    lp' = lp ++ [(name, p)] /\
    forall q, get_property q name = Some p ->
      read_sample cd type q name num_data = Some (PTC_READ_SAMPLE_EXACT, data).
Proof.
  pose proof Hcodes as Hc.
  rewrite !NoDup_cons, !not_elem_of_cons in Hc. destruct_and!.
  unfold write_sample, read_sample.
  destruct data as [|l|l|l|l]; simpl; intros Hwf Hw Hfresh; [tauto|..];
    destruct_and!; subst type;
    rewrite ?decide_True in * by reflexivity;
    rewrite ?(decide_False (P := _ = CD_MDEFORMVERT cd)) in * by congruence;
    rewrite ?decide_True in * by reflexivity;
    rewrite ?(decide_False (P := _ = CD_MCOL cd)) in * by congruence;
    rewrite ?decide_True in * by reflexivity;
    rewrite ?(decide_False (P := _ = CD_ORIGINDEX cd)) in * by congruence;
    rewrite ?decide_True in * by reflexivity.
  all: repeat match goal with
       | Hx : _ ∉ [] |- _ => clear Hx
       end.
  - destruct (write_MDEFORMVERT_stored _ _ _ _ _ Hw) as (p & _ & Happ & Hread); auto.
    exists p. split; [auto|]. intros q Hq.
    rewrite decide_True by reflexivity. auto.
  - destruct (write_MCOL_stored _ _ _ _ _ Hw) as (p & _ & Happ & Hread); auto.
    exists p. split; [auto|]. intros q Hq.
    rewrite decide_False by congruence. rewrite decide_True by reflexivity. auto.
  - destruct (write_ORIGINDEX_stored _ _ _ _ _ Hw) as (p & _ & Happ & Hread); auto.
    exists p. split; [auto|]. intros q Hq.
    rewrite !decide_False by congruence. rewrite decide_True by reflexivity. auto.
  - destruct (write_ORIGSPACE_stored _ _ _ _ _ Hw) as (p & _ & Happ & Hread); auto.
    exists p. split; [auto|]. intros q Hq.
    rewrite !decide_False by congruence. rewrite decide_True by reflexivity. auto.
Qed.

(** The reader's [cdtype_from_name] on a name with the prefix of the
    layer type. *)
Lemma reader_name_tagged type tag rest max_layer_name :
  PTC.cdtype_from_name cd m_name
    (m_name +:+ ":" +:+ CustomData_layertype_name cd type +:+ ":" +:+ String tag rest) type
    max_layer_name
  = if decide (tag = "S"%char) then PTC.BLI_strncpy cd (c_str rest) max_layer_name
    else EmptyString.
Proof.
  unfold PTC.cdtype_from_name.
  set (ltn := CustomData_layertype_name cd type) in *.
  set (start := (String.length m_name + 1 + String.length ltn + 1)%nat).
  set (name := m_name +:+ ":" +:+ ltn +:+ ":" +:+ String tag rest).
  assert (Hname : name = (m_name +:+ ":" +:+ ltn +:+ ":") +:+ String tag rest).
  { subst name. rewrite !append_assoc. reflexivity. }
  assert (Hstart : String.length (m_name +:+ ":" +:+ ltn +:+ ":") = start).
  { subst start. rewrite !length_append. simpl. lia. }
  assert (Hlen : String.length name = (start + 1 + String.length rest)%nat).
  { rewrite Hname, length_append, Hstart. simpl. lia. }
  rewrite decide_False by lia.
  replace (String.length name - S start)%nat with (String.length rest) by lia.
  rewrite Hname, <- Hstart, get_append_r, substring_append_r.
  destruct (decide (tag = "S"%char)) as [->|HS]; [reflexivity|].
  destruct tag as [[] [] [] [] [] [] [] []]; try reflexivity; congruence.
Qed.

Lemma reader_name_of_written type n :
  PTC.cdtype_from_name cd m_name (to_name type n) type (MAX_CUSTOMDATA_LAYER_NAME cd)
  = stored_name cd (CustomData_get_layer_name cdata type n).
Proof.
  subst to_name. unfold cdtype_to_name, stored_name. cbv zeta beta.
  assert (HN : forall rest,
    m_name +:+ ":" +:+ CustomData_layertype_name cd type +:+ ":N" +:+ rest
    = m_name +:+ ":" +:+ CustomData_layertype_name cd type +:+ ":"
      +:+ String "N"%char rest) by reflexivity.
  assert (HS : forall rest,
    m_name +:+ ":" +:+ CustomData_layertype_name cd type +:+ ":S" +:+ rest
    = m_name +:+ ":" +:+ CustomData_layertype_name cd type +:+ ":"
      +:+ String "S"%char rest) by reflexivity.
  destruct (CustomData_get_layer_name cdata type n) as [[|c s]|].
  - rewrite HN, reader_name_tagged. reflexivity.
  - destruct (decide (c = Ascii.zero)).
    + rewrite HN, reader_name_tagged. reflexivity.
    + rewrite HS, reader_name_tagged, c_str_idemp. reflexivity.
  - rewrite HN, reader_name_tagged. reflexivity.
Qed.

(** *** The properties of one layer type *)

Lemma get_property_not_in lp name :
  name ∉ lp.*1 -> get_property lp name = None.
Proof.
  induction lp as [|[n p] lp IH]; simpl; [reflexivity|].
  rewrite not_elem_of_cons. intros [Hne Hnot].
  rewrite decide_False by congruence. auto.
Qed.

Lemma get_property_in lp name p :
  NoDup lp.*1 -> (name, p) ∈ lp -> get_property lp name = Some p.
Proof.
  induction lp as [|[n q] lp IH]; simpl; intros Hnd Hin.
  - apply elem_of_nil in Hin. contradiction.
  - apply NoDup_cons in Hnd as [Hnot Hnd]. apply elem_of_cons in Hin as [[= <- <-]|Hin].
    + rewrite decide_True by reflexivity. reflexivity.
    + rewrite decide_False; [auto|]. intros ->. apply Hnot.
      apply list_elem_of_fmap. exists (name, p). auto.
Qed.

Lemma in_compound_last name parent children body :
  get_property parent name = None ->
  in_compound name (parent ++ [(name, PCompound children)]) body
  = (children' ← body children; Some (parent ++ [(name, PCompound children')])).
Proof.
  intros Hfresh. unfold in_compound. rewrite get_property_fresh_last by assumption.
  destruct (body children) as [children'|]; cbn [mbind option_bind]; [|reflexivity].
  rewrite set_property_fresh by assumption. reflexivity.
Qed.

(** A stored property [e] holds layer [n] of [type]. *)
Let stored (type : nat) (e : string * property) (n : Z) : Prop :=
  e.1 = to_name type n /\
  forall q, get_property q e.1 = Some e.2 ->
    read_sample cd type q e.1 num_data
    = Some (PTC_READ_SAMPLE_EXACT, CustomData_get_layer_n cdata type n).

Lemma stored_names type lp ns :
  Forall2 (stored type) lp ns -> lp.*1 = to_name type <$> ns.
Proof.
  induction 1 as [|e n lp ns [He _] _ IH]; [reflexivity|].
  rewrite !fmap_cons, IH, He. reflexivity.
Qed.

Let write_layer' :=
  write_layer cd CustomData CustomData_get_layer_name CustomData_get_layer_n format_int.

(** One more layer of a type that has a writer. *)
Lemma write_layer_step type n m_props lp done st' :
  (type < CD_NUMTYPES cd)%nat ->
  layer_wf cd type (CustomData_get_layer_n cdata type n) num_data ->
  get_property m_props (type_name type) = None ->
  Forall2 (stored type) lp done ->
  to_name type n ∉ to_name type <$> done ->
  write_layer' m_name type cdata num_data n
    (true, m_props ++ [(type_name type, PCompound lp)]) = Some st' ->
  exists p,
    st' = (true, m_props ++ [(type_name type, PCompound (lp ++ [(to_name type n, p)]))]) /\
    Forall2 (stored type) (lp ++ [(to_name type n, p)]) (done ++ [n]).
Proof.
  intros Htype Hwf Hfresh Hstored Hnew.
  subst write_layer'. unfold write_layer. cbn [mbind option_bind].
  fold (type_name type). fold (to_name type n).
  rewrite in_compound_last by assumption.
  unfold write_sample_call.
  rewrite write_sample_call_from_spec by lia. rewrite decide_True by lia.
  destruct (write_sample cd type lp _ _ num_data) as [lp'|] eqn:Ew;
    cbn [mbind option_bind]; [|discriminate].
  intros [= <-].
  destruct (write_sample_stored _ _ _ _ _ Hwf Ew) as (p & -> & Hread).
  { apply get_property_not_in. rewrite (stored_names _ _ _ Hstored). exact Hnew. }
  exists p. split; [reflexivity|].
  apply Forall2_app; [exact Hstored|]. constructor; [|constructor].
  split; [reflexivity|exact Hread].
Qed.

Lemma fold_opt_cons {S : Type} (f : Z -> S -> option S) i l (s : S) :
  fold_opt f (i :: l) s = (s' ← f i s; fold_opt f l s').
Proof. reflexivity. Qed.

Lemma write_layers_fold type m_props ns :
  (type < CD_NUMTYPES cd)%nat ->
  get_property m_props (type_name type) = None ->
  forall lp done st',
    Forall2 (stored type) lp done ->
    NoDup (to_name type <$> (done ++ ns)) ->
    Forall (fun n => layer_wf cd type (CustomData_get_layer_n cdata type n) num_data) ns ->
    fold_opt (write_layer' m_name type cdata num_data) ns
      (true, m_props ++ [(type_name type, PCompound lp)]) = Some st' ->
    exists lp',
      st' = (true, m_props ++ [(type_name type, PCompound lp')]) /\
      Forall2 (stored type) lp' (done ++ ns).
Proof.
  intros Htype Hfresh. induction ns as [|n ns IH]; intros lp done st' Hstored Hnd Hwf H.
  - simpl in H. injection H as <-. exists lp. rewrite app_nil_r. auto.
  - rewrite fold_opt_cons in H.
    destruct (write_layer' m_name type cdata num_data n
                (true, m_props ++ [(type_name type, PCompound lp)])) as [st1|] eqn:E1;
      cbn [mbind option_bind] in H; [|discriminate].
    apply Forall_cons in Hwf as [Hwf1 Hwf].
    assert (Hnew : to_name type n ∉ to_name type <$> done).
    { rewrite fmap_app, fmap_cons in Hnd.
      apply NoDup_app in Hnd as (_ & Hdisj & _). intros Hin.
      apply (Hdisj _ Hin). apply elem_of_cons. auto. }
    destruct (write_layer_step type n m_props lp done st1 Htype Hwf1 Hfresh Hstored
                Hnew E1) as (p & -> & Hstored1).
    assert (Hnd' : NoDup (to_name type <$> ((done ++ [n]) ++ ns)))
      by (rewrite <- app_assoc; exact Hnd).
    destruct (IH _ (done ++ [n]) st' Hstored1 Hnd' Hwf H) as (lp' & -> & Hall).
    exists lp'. rewrite <- app_assoc in Hall. auto.
Qed.

Lemma write_layer_first type n m_props :
  get_property m_props (type_name type) = None ->
  write_layer' m_name type cdata num_data n (false, m_props)
  = write_layer' m_name type cdata num_data n
      (true, m_props ++ [(type_name type, PCompound [])]).
Proof.
  intros Hfresh. subst write_layer'. unfold write_layer. fold (type_name type).
  unfold PTCWriter.add_compound_property. rewrite add_property_fresh by assumption.
  reflexivity.
Qed.

(** The layers of a type without a writer leave their compound empty. *)
Lemma write_layers_no_writer type m_props ns :
  has_writer cd type = false ->
  get_property m_props (type_name type) = None ->
  fold_opt (write_layer' m_name type cdata num_data) ns
    (true, m_props ++ [(type_name type, PCompound [])])
  = Some (true, m_props ++ [(type_name type, PCompound [])]).
Proof.
  intros Hno Hfresh. induction ns as [|n ns IH]; [reflexivity|].
  rewrite fold_opt_cons.
  assert (Hstep : write_layer' m_name type cdata num_data n
                    (true, m_props ++ [(type_name type, PCompound [])])
                  = Some (true, m_props ++ [(type_name type, PCompound [])])).
  { subst write_layer'. unfold write_layer. cbn [mbind option_bind].
    fold (type_name type). rewrite in_compound_last by assumption.
    unfold write_sample_call. rewrite write_sample_call_from_spec by lia.
    destruct (decide _); [rewrite write_sample_no_writer by assumption|]; reflexivity. }
  rewrite Hstep. cbn [mbind option_bind]. exact IH.
Qed.

(** The reader's loop over the stored properties of a type gives the
    layers back. *)
Lemma read_layers_stored type lp :
  (type < CD_NUMTYPES cd)%nat ->
  forall props ns cdata0,
    Forall2 (stored type) props ns ->
    (forall e, e ∈ props -> get_property lp e.1 = Some e.2) ->
    read_layers cd m_name type num_data lp props cdata0
    = Some (cdata0 ++
            ((fun n => mk_Layer type
                         (stored_name cd (CustomData_get_layer_name cdata type n))
                         (CustomData_get_layer_n cdata type n)) <$> ns)).
Proof.
  intros Htype props ns cdata0 Hall. revert cdata0.
  induction Hall as [|[name p] n props ns [Hname Hread] _ IH]; intros cdata0 Hget.
  - simpl. rewrite app_nil_r. reflexivity.
  - cbn [read_layers]. simpl in Hname, Hread.
    unfold read_sample_call. rewrite read_sample_call_from_spec by lia.
    rewrite decide_True by lia.
    rewrite Hread by (apply (Hget (name, p)); apply elem_of_cons; auto).
    cbn [mbind option_bind].
    rewrite IH by (intros e He; apply Hget; apply elem_of_cons; auto).
    rewrite Hname, reader_name_of_written, fmap_cons, <- app_assoc. reflexivity.
Qed.

(** What the loop over the layers of one type leaves in [m_props], when
    the compound of the type was not there. *)
Lemma write_type_spec type m_props st' :
  (type < CD_NUMTYPES cd)%nat ->
  get_property m_props (type_name type) = None ->
  (has_writer cd type = true ->
   NoDup (to_name type <$> seqZ 0 (CustomData_number_of_layers cdata type)) /\
   Forall (fun n => layer_wf cd type (CustomData_get_layer_n cdata type n) num_data)
          (seqZ 0 (CustomData_number_of_layers cdata type))) ->
  for_range 0 (CustomData_number_of_layers cdata type)
    (write_layer' m_name type cdata num_data) (false, m_props) = Some st' ->
  (CustomData_number_of_layers cdata type <= 0 /\ st'.2 = m_props) \/
  (0 < CustomData_number_of_layers cdata type /\
   exists lp,
     st'.2 = m_props ++ [(type_name type, PCompound lp)] /\
     forall cdata0,
       read_layers cd m_name type num_data lp lp cdata0
       = Some (cdata0 ++
               (if has_writer cd type
                then layers_of_type cd CustomData CustomData_number_of_layers
                       CustomData_get_layer_name CustomData_get_layer_n cdata type
                else []))).
Proof.
  intros Htype Hfresh Hwf. rewrite for_range_fold, Z.sub_0_r.
  unfold layers_of_type.
  set (num := CustomData_number_of_layers cdata type) in *.
  destruct (Z_le_gt_dec num 0) as [Hle|Hgt].
  - rewrite seqZ_nil by lia. simpl. intros [= <-]. left. auto.
  - intros H. right. split; [lia|].
    rewrite seqZ_cons in H |- * by lia. rewrite fold_opt_cons in H.
    rewrite write_layer_first in H by assumption. rewrite <- fold_opt_cons in H.
    rewrite <- seqZ_cons in H |- * by lia.
    destruct (has_writer cd type) eqn:Ehw.
    + destruct (Hwf eq_refl) as [Hnd Hall].
      destruct (write_layers_fold type m_props (seqZ 0 num) Htype Hfresh [] [] st')
        as (lp & -> & Hstored); [constructor|exact Hnd|exact Hall|exact H|].
      exists lp. split; [reflexivity|]. intros cdata0. simpl in Hstored.
      apply read_layers_stored; [exact Htype|exact Hstored|].
      intros [name p] He. simpl. apply get_property_in; [|exact He].
      rewrite (stored_names _ _ _ Hstored). exact Hnd.
    + rewrite write_layers_no_writer in H by assumption. injection H as <-.
      exists []. split; [reflexivity|]. intros cdata0. simpl. rewrite app_nil_r.
      reflexivity.
Qed.

(** *** All the layer types *)

Hypothesis Hnames :
  forall t1 t2, (t1 < CD_NUMTYPES cd)%nat -> (t2 < CD_NUMTYPES cd)%nat ->
    in_mask t1 m_cdmask = true -> in_mask t2 m_cdmask = true ->
    CustomData_layertype_name cd t1 = CustomData_layertype_name cd t2 -> t1 = t2.
Hypothesis Hlayers :
  forall type, (type < CD_NUMTYPES cd)%nat ->
    in_mask type m_cdmask = true -> has_writer cd type = true ->
    NoDup (cdtype_to_name cd CustomData CustomData_get_layer_name format_int
             m_name cdata type <$> seqZ 0 (CustomData_number_of_layers cdata type)) /\
    Forall (fun n => layer_wf cd type (CustomData_get_layer_n cdata type n) num_data)
           (seqZ 0 (CustomData_number_of_layers cdata type)).

Let masked (lo t : nat) : Prop :=
  (lo <= t < CD_NUMTYPES cd)%nat /\ in_mask t m_cdmask = true.

Lemma type_name_inj t1 t2 :
  masked 0 t1 -> masked 0 t2 -> type_name t1 = type_name t2 -> t1 = t2.
Proof.
  intros [H1 M1] [H2 M2] E. subst type_name. simpl in E.
  apply append_inj_l in E. apply (append_inj_l ":") in E.
  apply Hnames; (assumption || lia).
Qed.

(** What the store holds for a layer type of the mask after the writer's
    loop over the types. *)
Let stored_type (m' : list (string * property)) (t : nat) : Prop :=
  if 0 <? CustomData_number_of_layers cdata t then
    exists lp,
      get_property m' (type_name t) = Some (PCompound lp) /\
      forall cdata0,
        read_layers cd m_name t num_data lp lp cdata0
        = Some (cdata0 ++
                (if has_writer cd t
                 then layers_of_type cd CustomData CustomData_number_of_layers
                        CustomData_get_layer_name CustomData_get_layer_n cdata t
                 else []))
  else get_property m' (type_name t) = None.

Let write_types' :=
  write_types cd CustomData CustomData_number_of_layers CustomData_get_layer_name
    CustomData_get_layer_n format_int.

Lemma write_types_spec k :
  forall type m_props m',
    (type + k = CD_NUMTYPES cd)%nat ->
    (forall t, masked type t -> get_property m_props (type_name t) = None) ->
    write_types' k type m_name m_cdmask cdata num_data m_props = Some m' ->
    (forall t, masked type t -> stored_type m' t) /\
    (forall name, (forall t, masked type t -> name <> type_name t) ->
       get_property m' name = get_property m_props name).
Proof.
  induction k as [|k IH]; intros type m_props m' Hk Hfresh H.
  - simpl in H. injection H as <-. split; [|reflexivity].
    intros t [Ht _]. lia.
  - unfold write_types' in H. cbn [write_types] in H. cbv zeta in H.
    fold write_types' in H.
    destruct (Z.land (Int32.shl 1 (Z.of_nat type)) m_cdmask =? 0) eqn:Emask.
    + destruct (IH (S type) m_props m' ltac:(lia)) as [Hst Hframe]; [|exact H|].
      { intros t [Ht Hm]. apply Hfresh. split; [lia|exact Hm]. }
      split.
      * intros t [Ht Hm]. destruct (decide (t = type)) as [->|Hne].
        -- unfold in_mask in Hm. rewrite Emask in Hm. discriminate.
        -- apply Hst. split; [lia|exact Hm].
      * intros name Hname. apply Hframe. intros t [Ht Hm]. apply Hname.
        split; [lia|exact Hm].
    + assert (Hm0 : masked type type).
      { split; [lia|]. unfold in_mask. rewrite Emask. reflexivity. }
      fold (write_layer' m_name type cdata num_data) in H.
      destruct (for_range 0 (CustomData_number_of_layers cdata type)
                  (write_layer' m_name type cdata num_data) (false, m_props))
        as [[hp m1]|] eqn:El; cbn [mbind option_bind] in H; [|discriminate].
      apply write_type_spec in El;
        [|lia|apply Hfresh; exact Hm0
         |intros Hw; apply Hlayers; [lia|apply Hm0|exact Hw]].
      simpl in El.
      assert (Hfresh1 : forall t, masked (S type) t ->
                get_property m1 (type_name t) = None).
      { intros t [Ht Hm].
        assert (Hmt : masked type t) by (split; [lia|exact Hm]).
        destruct El as [[_ ->]|[_ (lp & -> & _)]]; [apply Hfresh; exact Hmt|].
        rewrite get_property_app, (Hfresh t Hmt).
        rewrite decide_False; [reflexivity|].
        intros E. apply type_name_inj in E; [lia|..];
          (split; [lia|]); [apply Hm0|exact Hm]. }
      destruct (IH (S type) m1 m' ltac:(lia) Hfresh1 H) as [Hst Hframe].
      assert (Hother : forall t, masked (S type) t -> type_name type <> type_name t).
      { intros t [Ht Hm] E. apply type_name_inj in E; [lia|..];
          (split; [lia|]); [apply Hm0|exact Hm]. }
      split.
      * intros t [Ht Hm]. destruct (decide (t = type)) as [->|Hne].
        -- subst stored_type. cbv beta. rewrite (Hframe _ Hother).
           destruct El as [[Hle ->]|[Hlt (lp & -> & Hread)]].
           ++ replace (0 <? _) with false by (symmetry; apply Z.ltb_ge; lia).
              apply Hfresh. exact Hm0.
           ++ replace (0 <? _) with true by (symmetry; apply Z.ltb_lt; lia).
              exists lp. split; [|exact Hread].
              apply get_property_fresh_last, Hfresh. exact Hm0.
        -- apply Hst. split; [lia|exact Hm].
      * intros name Hname. rewrite Hframe.
        -- destruct El as [[_ ->]|[_ (lp & -> & _)]]; [reflexivity|].
           rewrite get_property_app.
           destruct (get_property m_props name); [reflexivity|].
           rewrite decide_False; [reflexivity|].
           intros E. apply (Hname type Hm0). symmetry. exact E.
        -- intros t [Ht Hm]. apply Hname. split; [lia|exact Hm].
Qed.

Lemma read_types_spec m' k :
  forall type cdata0,
    (type + k = CD_NUMTYPES cd)%nat ->
    (forall t, masked type t -> stored_type m' t) ->
    read_types cd k type m_name m_cdmask num_data m' cdata0
    = Some (cdata0 ++
            (t ← seq type k;
             if in_mask t m_cdmask && has_writer cd t
             then layers_of_type cd CustomData CustomData_number_of_layers
                    CustomData_get_layer_name CustomData_get_layer_n cdata t
             else [])).
Proof.
  induction k as [|k IH]; intros type cdata0 Hk Hst.
  - simpl. rewrite app_nil_r. reflexivity.
  - cbn [read_types seq]. cbv zeta. rewrite bind_cons. unfold in_mask at 1.
    fold (type_name type).
    assert (Hst' : forall t, masked (S type) t -> stored_type m' t).
    { intros t [Ht Hm]. apply Hst. split; [lia|exact Hm]. }
    destruct (Z.land (Int32.shl 1 (Z.of_nat type)) m_cdmask =? 0) eqn:Emask.
    + rewrite IH by (lia || exact Hst'). reflexivity.
    + assert (Hm0 : masked type type).
      { split; [lia|]. unfold in_mask. rewrite Emask. reflexivity. }
      specialize (Hst type Hm0). subst stored_type. cbv beta in Hst.
      cbn [negb andb].
      destruct (0 <? CustomData_number_of_layers cdata type) eqn:Enum.
      * destruct Hst as (lp & -> & Hread). rewrite Hread. cbn [mbind option_bind].
        rewrite IH by (lia || exact Hst'). rewrite app_assoc. reflexivity.
      * rewrite Hst. rewrite IH by (lia || exact Hst'). do 2 f_equal.
        destruct (has_writer cd type); [|reflexivity].
        unfold layers_of_type. apply Z.ltb_ge in Enum.
        rewrite seqZ_nil by lia. reflexivity.
Qed.

(** X19.  A [CustomData] written by [CustomDataWriter::write_sample] under a
    name that is free in the parent is read back by
    [CustomDataReader::read_sample] with the same name and mask as the
    layers of the types of the mask that have a writer, by increasing type
    code and in their order within a type, each with its array and with
    its name as [BLI_strncpy] copies it into the reader's buffer of
    [MAX_CUSTOMDATA_LAYER_NAME] characters, so a longer name comes back
    cut; the layers of the other types of the mask are lost without a
    sign, the result being [PTC_READ_SAMPLE_EXACT].  A type is in the mask
    when [(1 << type) & m_cdmask] is not zero, the shift count taken modulo
    32.  The four type codes with a writer are distinct, the layer type
    names of the mask are distinct, and the layers of a type with a writer
    have distinct property names and arrays of [num_data] elements of that
    type. *)
Theorem custom_data_round_trip parent parent' cdata0 :
  get_property parent m_name = None ->
  CustomDataWriter_write_sample cd CustomData CustomData_number_of_layers
    CustomData_get_layer_name CustomData_get_layer_n format_int
    m_name m_cdmask cdata num_data parent = Some parent' ->
  CustomDataReader_read_sample cd m_name m_cdmask cdata0 num_data parent'
  = Some (PTC_READ_SAMPLE_EXACT,
          cdata0 ++ read_back cd CustomData CustomData_number_of_layers
                      CustomData_get_layer_name CustomData_get_layer_n m_cdmask cdata).
Proof.
  intros Hfresh. unfold CustomDataWriter_write_sample, PTCWriter.add_compound_property.
  rewrite add_property_fresh by assumption. cbn [mbind option_bind].
  rewrite in_compound_last by assumption.
  fold write_types'.
  destruct (write_types' (CD_NUMTYPES cd) 0%nat m_name m_cdmask cdata num_data [])
    as [m'|] eqn:Ew; cbn [mbind option_bind]; [|discriminate].
  intros [= <-].
  destruct (write_types_spec (CD_NUMTYPES cd) 0%nat [] m' eq_refl
              (fun _ _ => eq_refl) Ew) as [Hst _].
  unfold CustomDataReader_read_sample, PTC.add_compound_property.
  rewrite get_property_fresh_last by assumption. cbn [mbind option_bind].
  rewrite (read_types_spec m' (CD_NUMTYPES cd) 0%nat cdata0 eq_refl Hst). reflexivity.
Qed.

End WholeSample.

(** The mesh written and read back with the mask of the types 0, 6 and
    7, which is also that of the types 32, 38 and 39: the three colour
    layers and the index layer come back, the long name cut to 63
    characters, and the layer of type 0 is lost. *)
Lemma custom_data_round_trip_witness :
  exists parent',
    PTCWriter.CustomDataWriter_write_sample blender_types (list PTC.Layer)
      layers_number_of_layers layers_get_layer_name layers_get_layer_n pretty
      "mesh" 193 mesh_layers 2 [] = Some parent' /\
    PTC.CustomDataReader_read_sample blender_types "mesh" 193 [] 2 parent'
    = Some (PTC.PTC_READ_SAMPLE_EXACT,
            [PTC.mk_Layer 6 "Col"
               (PTC.Cols [PTC.mk_MCol 255 0 0 255; PTC.mk_MCol 0 128 7 255]);
             PTC.mk_Layer 6 "" (PTC.Cols [PTC.mk_MCol 1 2 3 4; PTC.mk_MCol 5 6 7 8]);
             PTC.mk_Layer 6 "a_vertex_colour_layer_with_a_name_longer_than_the_buffer_of_the"
               (PTC.Cols [PTC.mk_MCol 9 9 9 9; PTC.mk_MCol 0 0 0 0]);
             PTC.mk_Layer 7 "" (PTC.OrigIndex [4; -1])]).
Proof.
  destruct (PTCWriter.CustomDataWriter_write_sample blender_types (list PTC.Layer)
              layers_number_of_layers layers_get_layer_name layers_get_layer_n pretty
              "mesh" 193 mesh_layers 2 []) as [parent'|] eqn:Hw;
    [|vm_compute in Hw; discriminate].
  exists parent'. split; [reflexivity|].
  assert (Hmask : forall t, (t < 42)%nat -> in_mask t 193 = true ->
                    t ∈ [0; 6; 7; 32; 38; 39]%nat).
  { intros t Ht.
    do 42 (destruct t as [|t];
           [intros Hm; try (vm_compute in Hm; discriminate Hm);
            rewrite !elem_of_cons; auto 10|]).
    lia. }
  refine (custom_data_round_trip blender_types (list PTC.Layer)
            layers_number_of_layers layers_get_layer_name layers_get_layer_n pretty
            "mesh" 193 mesh_layers 2 _ _ _ _ [] parent' [] _ Hw).
  - by_compute.
  - unfold Int32.int_max. lia.
  - intros t1 t2 H1 H2 M1 M2.
    pose proof (Hmask t1 H1 M1) as E1. pose proof (Hmask t2 H2 M2) as E2.
    rewrite !elem_of_cons, elem_of_nil in E1, E2.
    destruct E1 as [->|[->|[->|[->|[->|[->|[]]]]]]],
             E2 as [->|[->|[->|[->|[->|[->|[]]]]]]];
      vm_compute; congruence.
  - intros type Ht Hm Hw'.
    pose proof (Hmask type Ht Hm) as E. rewrite !elem_of_cons, elem_of_nil in E.
    destruct E as [->|[->|[->|[->|[->|[->|[]]]]]]]; try discriminate Hw'.
    + split; [by_compute|]. repeat constructor; simpl; lia.
    + split; [by_compute|]. repeat constructor.
  - reflexivity.
Defined.
